(** * proxy-worker: the request dispatch engine

    A shallow embedding of the TypeScript sources of the proxy worker
    (load balancer, proxy service, proxy handler, helpers, the CORS
    headers, the worker's entry point, and the loading of the
    configuration from environment variables with its validation),
    followed by the properties of the dispatch engine that are
    established about them.  The JSON form of the configuration is
    left out.

    Conventions of the embedding.
    - A JavaScript [number] that only ever holds a counter or a
      millisecond difference is a [Z]; one that holds a quotient (scores,
      weights, the smoothed response time, a random draw) is an exact
      rational [Q].  Rounding of IEEE doubles is not modelled.
    - A JavaScript string is a [string] of bytes; [toLowerCase] and
      [toUpperCase] act on the ASCII letters.
    - A [Map] is a [gmap]; [Headers] is a [gmap] keyed by the lower-cased
      header name.
    - The host (Math.random, Date.now, fetch, cache.put) is a record of
      oracles indexed by the history of the run; asynchronous code is
      run sequentially, one request at a time, in a state-and-exception
      monad over [World].  The cache is a map from the request URL: a
      lookup yields the stored response, or nothing for a miss and for
      a lookup that fails, which the handler treats alike; a [put]
      stores or fails, as the host decides.
    - The body of a request is a stream that can be sent once: building
      a request on a stream that a fetch was given fails. *)

From Stdlib Require Import Ascii String ZArith QArith Qround Qminmax Lia Lqa.
From stdpp Require Import gmap strings list fin_maps pretty.

Local Open Scope string_scope.
Local Open Scope Z_scope.

(* ===================================================================== *)
(** ** JavaScript strings *)
(* ===================================================================== *)

Module JsString.

Definition lowerChar (c : ascii) : ascii :=
  let n := N_of_ascii c in
  if ((65 <=? n) && (n <=? 90))%N then ascii_of_N (n + 32) else c.

Definition upperChar (c : ascii) : ascii :=
  let n := N_of_ascii c in
  if ((97 <=? n) && (n <=? 122))%N then ascii_of_N (n - 32) else c.

Fixpoint mapChars (f : ascii → ascii) (s : string) : string :=
  match s with
  | EmptyString => EmptyString
  | String c s' => String (f c) (mapChars f s')
  end.

(** [s.toLowerCase()] and [s.toUpperCase()] *)
Definition toLowerCase : string → string := mapChars lowerChar.
Definition toUpperCase : string → string := mapChars upperChar.

(** [s.startsWith(t)] *)
Definition startsWith (s t : string) : bool := String.prefix t s.

(** [s.includes(t)]: [t] occurs in [s] at some position. *)
Fixpoint includes (s t : string) : bool :=
  match s with
  | EmptyString => startsWith EmptyString t
  | String _ s' => startsWith s t || includes s' t
  end.

(** [s.split(sep)] for a one-character separator. *)
Fixpoint split (sep : ascii) (s : string) : list string :=
  match s with
  | EmptyString => [EmptyString]
  | String c s' =>
      if Ascii.eqb c sep then EmptyString :: split sep s'
      else match split sep s' with
           | [] => [String c EmptyString]
           | p :: ps => String c p :: ps
           end
  end.

(** White space, for [trim] and [parseInt]. *)
Definition isWhiteSpace (c : ascii) : bool :=
  let n := N_of_ascii c in
  ((n =? 32) || ((9 <=? n) && (n <=? 13)))%N.

Fixpoint trimStart (s : string) : string :=
  match s with
  | String c s' => if isWhiteSpace c then trimStart s' else s
  | EmptyString => EmptyString
  end.

Fixpoint trimEnd (s : string) : string :=
  match s with
  | EmptyString => EmptyString
  | String c s' =>
      match trimEnd s' with
      | EmptyString => if isWhiteSpace c then EmptyString else String c EmptyString
      | t => String c t
      end
  end.

(** [s.trim()] *)
Definition trim (s : string) : string := trimEnd (trimStart s).

(** *** [parseInt(s, radix)]; [None] as the radix is the call without
    one, [None] as the result stands for NaN.  The result is the value
    of the numeral as a whole number; it is the number that JavaScript
    returns as long as its absolute value is at most 2^53, above which
    JavaScript rounds. *)

Definition digitValue (c : ascii) : option Z :=
  let n := N_of_ascii c in
  if ((48 <=? n) && (n <=? 57))%N then Some (Z.of_N (n - 48))
  else if ((97 <=? n) && (n <=? 122))%N then Some (Z.of_N (n - 87))
  else if ((65 <=? n) && (n <=? 90))%N then Some (Z.of_N (n - 55))
  else None.

(** The longest prefix of digits of the radix, accumulated from [acc];
    [seen] records whether a digit was read. *)
Fixpoint digits (radix : Z) (s : string) (seen : bool) (acc : Z) : option Z :=
  match s with
  | EmptyString => if seen then Some acc else None
  | String c s' =>
      match digitValue c with
      | Some d =>
          if d <? radix then digits radix s' true (acc * radix + d)
          else if seen then Some acc else None
      | None => if seen then Some acc else None
      end
  end.

Definition parseInt (s : string) (radix : option Z) : option Z :=
  let s1 := trimStart s in
  let '(sign, s2) :=
    match s1 with
    | String "-" r => (-1, r)
    | String "+" r => (1, r)
    | _ => (1, s1)
    end in
  let stripPrefix := match radix with None => true | Some r => r =? 16 end in
  let '(radix, s3) :=
    match s2 with
    | String "0" (String "x" r) => if stripPrefix then (16, r) else (default 10 radix, s2)
    | String "0" (String "X" r) => if stripPrefix then (16, r) else (default 10 radix, s2)
    | _ => (default 10 radix, s2)
    end in
  if (radix <? 2) || (36 <? radix) then None
  else
    match digits radix s3 false 0 with
    | Some n => Some (sign * n)
    | None => None
    end.

End JsString.

Import JsString.

(* ===================================================================== *)
(** ** Data model (types.ts) *)
(* ===================================================================== *)

Record BackendConfig := {
  url : string;
  weight : Q;
  region : string;
}.

Record ProxyConfig := {
  backends : list BackendConfig;
  retryAttempts : Z;
  enableCaching : bool;
  cacheMaxAge : Z;
  healthCheckInterval : Z;
  circuitBreakerThreshold : Z;
}.

Record RequestInfo := {
  method : string;
  path : string;
  clientIP : string;
  country : string;
  userAgent : string;
}.

Record BackendHealth := {
  isHealthy : bool;
  lastCheck : Z;
  consecutiveFailures : Z;
  avgResponseTime : Q;
}.

Record BackendMetrics := {
  requests : Z;
  errors : Z;
  totalTime : Z;
}.

(* ===================================================================== *)
(** ** HTTP values of the platform *)
(* ===================================================================== *)

(** A thrown [Error]: its [name] and [message]. *)
Record JsError := {
  name : string;
  message : string;
}.

Definition newError (msg : string) : JsError :=
  {| name := "Error"; message := msg |}.

Definition typeError (msg : string) : JsError :=
  {| name := "TypeError"; message := msg |}.

Inductive JsonValue :=
| JString (s : string)
| JNumber (n : Z).

(** A body is absent, an opaque stream, or the text produced by
    [JSON.stringify] of an object literal, kept as its fields.  A body
    that is present is a stream object that can be read once; the value
    stands for the object, so that two bodies are the same object when
    they are the same value. *)
Inductive Body :=
| NoBody
| Stream (data : string)
| JsonText (fields : list (string * JsonValue)).

Global Instance JsonValue_eq_dec : EqDecision JsonValue.
Proof. solve_decision. Defined.

Global Instance Body_eq_dec : EqDecision Body.
Proof. solve_decision. Defined.

(** [Headers]: the name is lower-cased by every accessor. *)
Definition headers_get (h : gmap string string) (key : string) : option string :=
  h !! toLowerCase key.

Definition headers_set (h : gmap string string) (key value : string) : gmap string string :=
  <[toLowerCase key := value]> h.

Definition headers_delete (h : gmap string string) (key : string) : gmap string string :=
  delete (toLowerCase key) h.

Record URL := {
  protocol : string;
  hostname : string;
  pathname : string;
  search : string;
}.

Definition href (u : URL) : string :=
  protocol u ++ "//" ++ hostname u ++ pathname u ++ search u.

Record Request := {
  req_method : string;
  req_url : URL;
  req_headers : gmap string string;
  req_body : Body;
}.

Record Response := {
  status : Z;
  statusText : string;
  headers : gmap string string;
  body : Body;
}.

(** [response.ok] *)
Definition ok (r : Response) : bool := (200 <=? status r) && (status r <=? 299).

(** What the platform's [fetch] is called with. *)
Record FetchRequest := {
  fetch_url : string;
  fetch_method : string;
  fetch_headers : gmap string string;
  fetch_body : Body;
}.

(** A promise settles with a value or rejects with an error. *)
Inductive Result (A : Type) :=
| Ok (a : A)
| Throw (e : JsError).
Arguments Ok {A} a.
Arguments Throw {A} e.

(* ===================================================================== *)
(** ** The host and the state of one handler *)
(* ===================================================================== *)

(** Input and output performed by a run, latest first. *)
Inductive Event :=
| EvFetch (rq : FetchRequest)
| EvSleep (ms : Z)
| EvCacheMatch (key : string)
| EvCachePut (key : string).

(** The host: the k-th result of [Math.random()], the value of
    [Date.now()] and the outcomes of [fetch] and of [cache.put] after k
    events, and the rendering of a time by
    [Date.prototype.toISOString]. *)
Record Host := {
  Math_random : nat → Q;
  Date_now : nat → Z;
  toISOString : Z → string;
  net_fetch : nat → FetchRequest → Result Response;
  cache_put : nat → string → Response → Result unit;
}.

(** The fields of [ProxyHandler] that change, the cache, and the history. *)
Record World := {
  healthStatus : gmap string BackendHealth;
  metrics : gmap string BackendMetrics;
  cache : gmap string Response;
  history : list Event;
  draws : nat;
}.

Definition M (A : Type) : Type := World → Result A * World.

Definition ret {A} (a : A) : M A := λ w, (Ok a, w).

Definition throw {A} (e : JsError) : M A := λ w, (Throw e, w).

Definition bind {A B} (m : M A) (k : A → M B) : M B :=
  λ w, match m w with
       | (Ok a, w') => k a w'
       | (Throw e, w') => (Throw e, w')
       end.

(** [try { m } catch (error) { h error }] *)
Definition try_catch {A} (m : M A) (h : JsError → M A) : M A :=
  λ w, match m w with
       | (Ok a, w') => (Ok a, w')
       | (Throw e, w') => h e w'
       end.

(** Runs [m] and hands its outcome to the continuation, for a [try]
    whose two exits continue differently. *)
Definition settle {A} (m : M A) : M (Result A) :=
  λ w, let '(r, w') := m w in (Ok r, w').

Notation "x <- m ;; k" := (bind m (λ x, k))
  (at level 100, m at next level, right associativity,
   format "'[v' x  <-  m  ;;  '/' k ']'").
Notation "m ;;; k" := (bind m (λ _, k))
  (at level 100, right associativity).

Definition get : M World := λ w, (Ok w, w).
Definition modify (f : World → World) : M unit := λ w, (Ok tt, f w).

Definition emit (e : Event) : World → World :=
  λ w, {| healthStatus := healthStatus w; metrics := metrics w; cache := cache w;
          history := e :: history w; draws := draws w |}.

Definition set_healthStatus (f : gmap string BackendHealth → gmap string BackendHealth)
  : World → World :=
  λ w, {| healthStatus := f (healthStatus w); metrics := metrics w; cache := cache w;
          history := history w; draws := draws w |}.

Definition set_metrics (f : gmap string BackendMetrics → gmap string BackendMetrics)
  : World → World :=
  λ w, {| healthStatus := healthStatus w; metrics := f (metrics w); cache := cache w;
          history := history w; draws := draws w |}.

Definition set_cache (f : gmap string Response → gmap string Response) : World → World :=
  λ w, {| healthStatus := healthStatus w; metrics := metrics w; cache := f (cache w);
          history := history w; draws := draws w |}.

(** Whether the stream [b] was handed to a [fetch] before: it has then
    been read, or is locked for reading. *)
Definition bodyUsed (b : Body) (events : list Event) : bool :=
  match b with
  | NoBody => false
  | _ =>
      existsb (λ e, match e with
                    | EvFetch rq => bool_decide (fetch_body rq = b)
                    | _ => false
                    end) events
  end.

(** What the platform throws when a request is built on a stream that
    was used.  The text is the platform's; the program looks at the
    name, and in the message for the words fetch, network, timeout and
    aborted. *)
Definition disturbedStream : JsError :=
  typeError "This ReadableStream is disturbed (has already been read from), and cannot be used as a body.".

(** [new Request(url, { method, headers, body })] *)
Definition newRequest (init : FetchRequest) : M FetchRequest :=
  w <- get ;;
  if bodyUsed (fetch_body init) (history w) then throw disturbedStream else ret init.

Section Platform.
Context (host : Host).

(** [Math.random()] *)
Definition mathRandom : M Q :=
  λ w, (Ok (Math_random host (draws w)),
        {| healthStatus := healthStatus w; metrics := metrics w; cache := cache w;
           history := history w; draws := S (draws w) |}).

(** [Date.now()] *)
Definition dateNow : M Z :=
  λ w, (Ok (Date_now host (length (history w))), w).

(** [await fetch(rq)] *)
Definition fetch (rq : FetchRequest) : M Response :=
  λ w, (net_fetch host (length (history w)) rq, emit (EvFetch rq) w).

(** [await new Promise(resolve => setTimeout(resolve, ms))] *)
Definition sleep (ms : Z) : M unit := modify (emit (EvSleep ms)).

(** [await cache.put(request, response)], with the request's URL as the
    key: the response is stored, or the promise rejects. *)
Definition cachePut (key : string) (response : Response) : M unit :=
  λ w, match cache_put host (length (history w)) key response with
       | Ok _ => (Ok tt, set_cache (insert key response) (emit (EvCachePut key) w))
       | Throw e => (Throw e, emit (EvCachePut key) w)
       end.

End Platform.

(* ===================================================================== *)
(** ** services/load-balancer.ts *)
(* ===================================================================== *)

Module LoadBalancer.

Definition REGION_MAP : gmap string string :=
  list_to_map [
    ("CN", "asia-east"); ("HK", "asia-east"); ("TW", "asia-east");
    ("JP", "asia-northeast"); ("KR", "asia-northeast");
    ("SG", "asia-southeast"); ("MY", "asia-southeast"); ("TH", "asia-southeast");
    ("ID", "asia-southeast"); ("PH", "asia-southeast"); ("VN", "asia-southeast");
    ("IN", "asia-south"); ("PK", "asia-south"); ("BD", "asia-south");
    ("US", "us-west"); ("CA", "us-west"); ("MX", "americas-north");
    ("BR", "americas-south"); ("AR", "americas-south"); ("CL", "americas-south");
    ("GB", "europe-west"); ("DE", "europe-west"); ("FR", "europe-west");
    ("NL", "europe-west"); ("IT", "europe-west"); ("ES", "europe-west");
    ("PL", "europe-east"); ("CZ", "europe-east"); ("RU", "europe-east");
    ("AU", "oceania"); ("NZ", "oceania")
  ].

Definition getRegionalBackends (backends : list BackendConfig) (clientCountry : string)
  : list BackendConfig :=
  if String.eqb clientCountry "" || String.eqb clientCountry "unknown" then []
  else
    match REGION_MAP !! toUpperCase clientCountry with
    | None => []
    | Some preferredRegion =>
        (* no region of the table is the empty string, so a found
           region is truthy *)
        (* Exact match *)
        let matches :=
          List.filter (λ backend,
            String.eqb (toLowerCase (region backend)) (toLowerCase preferredRegion))
            backends in
        (* Partial match if no exact match *)
        if Nat.eqb (length matches) 0 then
          let regionParts := split "-" preferredRegion in
          List.filter (λ backend,
            let backendRegion := toLowerCase (region backend) in
            existsb (λ part, includes backendRegion part) regionParts)
            backends
        else matches
    end.

(** One turn of the loop that fills the [scores] map. *)
Definition scoreStep (metrics : gmap string BackendMetrics)
    (scores : gmap string Q) (backend : BackendConfig) : gmap string Q :=
  match metrics !! url backend with
  | None => <[url backend := 50%Q]> scores
  | Some metric =>
      if requests metric =? 0 then <[url backend := 50%Q]> scores
      else
        let errorRate := (inject_Z (errors metric) / inject_Z (requests metric))%Q in
        let avgResponseTime :=
          (inject_Z (totalTime metric) / inject_Z (requests metric))%Q in
        (* Combined score: error rate 70%, response time 30% *)
        let errorScore := (errorRate * 100 * (7 # 10))%Q in
        let timeScore := (Qmin (avgResponseTime / 100) 50 * (3 # 10))%Q in
        <[url backend := (errorScore + timeScore)%Q]> scores
  end.

(** [Math.max(...xs)]; [None] is the [-Infinity] of no arguments. *)
Definition Math_max (xs : list Q) : option Q :=
  match xs with
  | [] => None
  | x :: xs' => Some (fold_left Qmax xs' x)
  end.

(** [Math.max(1, Math.floor(maxScore - (s || 50)))] where [maxScore]
    is [Math.max(...) + 1]; with [-Infinity] the floor is [-Infinity]
    and the maximum is 1. *)
Definition transientWeight (maxScore : option Q) (s : option Q) : Z :=
  let s_or_50 :=
    match s with
    | Some v => if Qeq_bool v 0 then 50%Q else v
    | None => 50%Q
    end in
  match maxScore with
  | Some m => Z.max 1 (Qfloor (m - s_or_50))
  | None => 1
  end.

(** The [scores] map filled by the loop of [selectByPerformance]. *)
Definition scoresOf (backends : list BackendConfig)
    (metrics : gmap string BackendMetrics) : gmap string Q :=
  fold_left (scoreStep metrics) backends ∅.

(** [Math.max(...scores.values()) + 1] *)
Definition maxScoreOf (scores : gmap string Q) : option Q :=
  match Math_max (map_to_list scores).*2 with
  | Some m => Some (m + 1)%Q
  | None => None
  end.

(** The [weightedBackends] of [selectByPerformance]: each backend
    copied with its weight replaced. *)
Definition weightedBackendsOf (backends : list BackendConfig)
    (metrics : gmap string BackendMetrics) : list BackendConfig :=
  let scores := scoresOf backends metrics in
  (* Convert scores to weights (lower score = higher weight) *)
  let maxScore := maxScoreOf scores in
  map (λ backend,
         {| url := url backend;
            weight := inject_Z (transientWeight maxScore (scores !! url backend));
            region := region backend |})
      backends.

(** The [candidateBackends] of [selectBackend]. *)
Definition candidateBackendsOf (backends : list BackendConfig)
    (requestInfo : RequestInfo) : list BackendConfig :=
  (* Regional preference *)
  let regionalBackends := getRegionalBackends backends (country requestInfo) in
  if Nat.ltb 0 (length regionalBackends) then regionalBackends else backends.

Definition totalWeightOf (backends : list BackendConfig) : Q :=
  fold_left (λ sum backend, (sum + weight backend)%Q) backends 0%Q.

(** The [for ... of] walk: [None] when the loop ends without a return. *)
Fixpoint walk (random : Q) (backends : list BackendConfig) : option BackendConfig :=
  match backends with
  | [] => None
  | backend :: rest =>
      let random := (random - weight backend)%Q in
      if Qle_bool random 0 then Some backend else walk random rest
  end.

Section WithHost.
Context (host : Host).

(** The result is [None] where the source yields [undefined]
    (indexing an empty array). *)
Definition weightedRandomSelect (backends : list BackendConfig)
  : M (option BackendConfig) :=
  let totalWeight := totalWeightOf backends in
  if Qeq_bool totalWeight 0 then ret (head backends)
  else
    r <- mathRandom host ;;
    let random := (r * totalWeight)%Q in
    match walk random backends with
    | Some backend => ret (Some backend)
    | None => ret (last backends)
    end.

Definition selectByPerformance (backends : list BackendConfig)
    (metrics : gmap string BackendMetrics) : M (option BackendConfig) :=
  weightedRandomSelect (weightedBackendsOf backends metrics).

Definition selectBackend (backends : list BackendConfig) (requestInfo : RequestInfo)
    (metrics : option (gmap string BackendMetrics)) : M (option BackendConfig) :=
  if Nat.eqb (length backends) 1 then ret (head backends)
  else
    let candidateBackends := candidateBackendsOf backends requestInfo in
    (* Performance-based selection if metrics available *)
    match metrics with
    | Some m =>
        if Nat.ltb 0 (size m) then selectByPerformance candidateBackends m
        else weightedRandomSelect candidateBackends
    | None => weightedRandomSelect candidateBackends
    end.

End WithHost.

End LoadBalancer.

(* ===================================================================== *)
(** ** services/proxy-service.ts *)
(* ===================================================================== *)

(** [a || b] on a header value: [null] and the empty string are falsy. *)
Definition orElse (o : option string) (d : string) : string :=
  match o with
  | Some s => if String.eqb s "" then d else s
  | None => d
  end.

(** [s.slice(0, -1)] *)
Fixpoint dropLast (s : string) : string :=
  match s with
  | EmptyString => EmptyString
  | String c EmptyString => EmptyString
  | String c s' => String c (dropLast s')
  end.

Module ProxyService.

Definition isRetryableError (error : JsError) : bool :=
  String.eqb (name error) "TypeError" ||
  includes (message error) "fetch" ||
  includes (message error) "network" ||
  includes (message error) "timeout" ||
  includes (message error) "aborted".

(** The [proxyRequest] object built by [proxyRequest]: target URL,
    rewritten headers, and the body unless the method is GET or HEAD. *)
Definition forwardedRequest (request : Request) (backend : BackendConfig) : FetchRequest :=
  let u := req_url request in
  let targetUrl := url backend ++ pathname u ++ search u in
  (* Prepare headers *)
  let ip := orElse (headers_get (req_headers request) "CF-Connecting-IP") "unknown" in
  let headers := req_headers request in
  let headers := headers_set headers "X-Forwarded-For" ip in
  let headers := headers_set headers "X-Forwarded-Proto" (dropLast (protocol u)) in
  let headers := headers_set headers "X-Forwarded-Host" (hostname u) in
  let headers := headers_set headers "X-Real-IP" ip in
  (* Remove Cloudflare headers *)
  let headers :=
    fold_left headers_delete
      ["cf-connecting-ip"; "cf-ray"; "cf-visitor"; "cf-ipcountry"] headers in
  {| fetch_url := targetUrl;
     fetch_method := req_method request;
     fetch_headers := headers;
     fetch_body :=
       if negb (String.eqb (req_method request) "GET")
          && negb (String.eqb (req_method request) "HEAD")
       then req_body request else NoBody |}.

Section WithConfig.
Context (host : Host) (config : ProxyConfig).

(** The retry loop of [proxyRequest]: [fuel] turns remain, [attempt] is
    the loop counter and [init] is what each turn builds its request
    from. *)
Fixpoint attempts (fuel : nat) (attempt : Z) (init : FetchRequest)
    (lastError : option JsError) : M Response :=
  match fuel with
  | O => throw (default (newError "All retry attempts failed") lastError)
  | S fuel' =>
      r <- settle (proxyRequest <- newRequest init ;;
                   fetch host proxyRequest) ;;
      match r with
      | Ok response => ret response
      | Throw error =>
          (* Only retry on network errors, not HTTP errors *)
          if negb (isRetryableError error) then throw error
          else
            (if attempt <? retryAttempts config - 1
             then sleep (2 ^ attempt * 1000)
             else ret tt) ;;;
            attempts fuel' (attempt + 1) init (Some error)
      end
  end.

Definition proxyRequest (request : Request) (backend : BackendConfig) : M Response :=
  attempts (Z.to_nat (retryAttempts config)) 0 (forwardedRequest request backend) None.

End WithConfig.

End ProxyService.

(* ===================================================================== *)
(** ** utils/helpers.ts *)
(* ===================================================================== *)

Module Helpers.

Definition isNetworkError (error : JsError) : bool :=
  String.eqb (name error) "TypeError" ||
  includes (message error) "fetch" ||
  includes (message error) "network" ||
  includes (message error) "timeout".

Definition getErrorStatus (error : JsError) : Z :=
  if includes (message error) "timeout" then 504
  else if includes (message error) "network" then 502
  else if includes (message error) "aborted" then 499
  else 503.

Section WithHost.
Context (host : Host).

Definition createErrorResponse (msg : string) (st : Z) : M Response :=
  now <- dateNow host ;;
  ret {| status := st;
         statusText := "";
         headers :=
           headers_set
             (headers_set ∅ "Content-Type" "application/json")
             "Access-Control-Allow-Origin" "*";
         body := JsonText [("error", JString msg);
                           ("status", JNumber st);
                           ("timestamp", JString (toISOString host now))] |}.

(** The identifier is a rendering of one random draw; it is kept as
    the draw. *)
Definition generateRequestId : M Q := mathRandom host.

End WithHost.

End Helpers.

(* ===================================================================== *)
(** ** config/backends.ts *)
(* ===================================================================== *)

Module ConfigLoader.

Definition DEFAULT_CONFIG : ProxyConfig :=
  {| backends := [{| url := "https://httpbin.org"; weight := 1; region := "global" |}];
     retryAttempts := 2;
     enableCaching := true;
     cacheMaxAge := 300;
     healthCheckInterval := 30000;
     circuitBreakerThreshold := 5 |}.

(** An absent variable and the empty string are falsy. *)
Definition parseNumber (value : option string) (defaultValue : Z) : Z :=
  match value with
  | None => defaultValue
  | Some v =>
      if String.eqb v "" then defaultValue
      else match parseInt v (Some 10) with
           | Some parsed => parsed
           | None => defaultValue
           end
  end.

Definition parseBoolean (value : option string) (defaultValue : bool) : bool :=
  match value with
  | None => defaultValue
  | Some v =>
      if String.eqb v "" then defaultValue else String.eqb (toLowerCase v) "true"
  end.

(** [Env] is the map of the variables that are set. *)
Definition loadFromEnvVariables (env : gmap string string) : list BackendConfig :=
  flat_map (λ i,
    match env !! ("BACKEND_" ++ i ++ "_URL") with
    | Some u =>
        if String.eqb u "" then []
        else
          let region := orElse (env !! ("BACKEND_" ++ i ++ "_REGION")) "unknown" in
          let weight := parseNumber (env !! ("BACKEND_" ++ i ++ "_WEIGHT")) 1 in
          [{| url := trim u; weight := inject_Z weight; region := trim region |}]
    | None => []
    end) ["1"; "2"; "3"; "4"; "5"].

Definition buildConfigFromBackends (backends : list BackendConfig)
    (env : gmap string string) : ProxyConfig :=
  {| backends := backends;
     retryAttempts := parseNumber (env !! "RETRY_ATTEMPTS") 2;
     enableCaching := parseBoolean (env !! "ENABLE_CACHING") true;
     cacheMaxAge := parseNumber (env !! "CACHE_MAX_AGE") 300;
     healthCheckInterval := parseNumber (env !! "HEALTH_CHECK_INTERVAL") 30000;
     circuitBreakerThreshold := parseNumber (env !! "CIRCUIT_BREAKER_THRESHOLD") 5 |}.

(** [loadConfig] for an environment in which [BACKENDS_CONFIG] is not
    set (the JSON form of the configuration is not modelled). *)
Definition loadConfig (env : gmap string string) : ProxyConfig :=
  let backends := loadFromEnvVariables env in
  if Nat.ltb 0 (length backends) then buildConfigFromBackends backends env
  else DEFAULT_CONFIG.

Fixpoint validateBackends (bs : list BackendConfig) : Result unit :=
  match bs with
  | [] => Ok tt
  | backend :: rest =>
      if String.eqb (url backend) "" then Throw (newError "Backend URL is required")
      else if String.eqb (region backend) "" then
        Throw (newError "Backend region is required")
      else if Qle_bool (weight backend) 0 then
        Throw (newError "Backend weight must be greater than 0")
      else validateBackends rest
  end.

Definition validateConfig (config : ProxyConfig) : Result unit :=
  if Nat.eqb (length (backends config)) 0 then
    Throw (newError "At least one backend must be configured")
  else validateBackends (backends config).

End ConfigLoader.

(* ===================================================================== *)
(** ** handlers/proxy-handler.ts *)
(* ===================================================================== *)

Module ProxyHandler.

Definition initialHealth : BackendHealth :=
  {| isHealthy := true; lastCheck := 0; consecutiveFailures := 0; avgResponseTime := 0 |}.

Definition initialMetrics : BackendMetrics :=
  {| requests := 0; errors := 0; totalTime := 0 |}.

(** The callback of [config.backends.forEach] in the constructor. *)
Definition initStep (tables : gmap string BackendHealth * gmap string BackendMetrics)
    (backend : BackendConfig) : gmap string BackendHealth * gmap string BackendMetrics :=
  (<[url backend := initialHealth]> tables.1,
   <[url backend := initialMetrics]> tables.2).

(** [new ProxyHandler(env)], from the loaded configuration and the
    platform's cache: validation, then one Health and one Metrics
    record per backend. *)
Definition constructor (config : ProxyConfig) (cache0 : gmap string Response)
  : Result World :=
  match ConfigLoader.validateConfig config with
  | Throw e => Throw e
  | Ok _ =>
      let tables := fold_left initStep (backends config) (∅, ∅) in
      Ok {| healthStatus := tables.1; metrics := tables.2; cache := cache0;
            history := []; draws := 0 |}
  end.

(** [health.isHealthy = true; health.consecutiveFailures = 0] *)
Definition healthy (health : BackendHealth) : BackendHealth :=
  {| isHealthy := true;
     lastCheck := lastCheck health;
     consecutiveFailures := 0;
     avgResponseTime := avgResponseTime health |}.

Definition checked (now : Z) (health : BackendHealth) : BackendHealth :=
  {| isHealthy := isHealthy health;
     lastCheck := now;
     consecutiveFailures := consecutiveFailures health;
     avgResponseTime := avgResponseTime health |}.

Definition parseRequest (request : Request) : RequestInfo :=
  let u := req_url request in
  {| method := req_method request;
     path := pathname u ++ search u;
     clientIP := orElse (headers_get (req_headers request) "CF-Connecting-IP") "unknown";
     country := orElse (headers_get (req_headers request) "CF-IPCountry") "unknown";
     userAgent := orElse (headers_get (req_headers request) "User-Agent") "unknown" |}.

Definition isRequestTooLarge (request : Request) : bool :=
  match headers_get (req_headers request) "content-length" with
  | Some contentLength =>
      if String.eqb contentLength "" then false
      else match parseInt contentLength None with
           | Some n => 10 * 1024 * 1024 <? n
           | None => false
           end
  | None => false
  end.

(** The response rebuilt with modifiable headers and the backend's
    identity added. *)
Definition withBackendInfo (response : Response) (backend : BackendConfig) : Response :=
  {| status := status response;
     statusText := statusText response;
     headers :=
       headers_set (headers_set (headers response) "X-Backend-URL" (url backend))
                   "X-Backend-Region" (region backend);
     body := body response |}.

(** One entry of the object returned by [getMetrics]. *)
Module Report.
Record t := {
  requests : Z;
  errors : Z;
  errorRate : Q;
  avgResponseTime : Q;
  isHealthy : bool;
  consecutiveFailures : Z;
}.
End Report.

(** [getMetrics()]: one entry per url of the Metrics table. *)
Definition getMetrics (w : World) : gmap string Report.t :=
  map_imap (λ u metrics,
    let health := healthStatus w !! u in
    Some {| Report.requests := requests metrics;
            Report.errors := errors metrics;
            Report.errorRate :=
              if 0 <? requests metrics
              then (inject_Z (errors metrics) / inject_Z (requests metrics))%Q else 0%Q;
            Report.avgResponseTime :=
              if 0 <? requests metrics
              then (inject_Z (totalTime metrics) / inject_Z (requests metrics))%Q
              else 0%Q;
            Report.isHealthy :=
              match health with Some h => isHealthy h | None => false end;
            Report.consecutiveFailures :=
              match health with Some h => consecutiveFailures h | None => 0 end |})
    (metrics w).

Section WithConfig.
Context (host : Host) (config : ProxyConfig).

(** [health.consecutiveFailures++;
     health.isHealthy = health.consecutiveFailures < threshold] *)
Definition failed (health : BackendHealth) : BackendHealth :=
  let consecutiveFailures := consecutiveFailures health + 1 in
  {| isHealthy := consecutiveFailures <? circuitBreakerThreshold config;
     lastCheck := lastCheck health;
     consecutiveFailures := consecutiveFailures;
     avgResponseTime := avgResponseTime health |}.

Definition markBackendHealthy (u : string) : M unit :=
  modify (set_healthStatus (alter healthy u)).

Definition markBackendUnhealthy (u : string) : M unit :=
  modify (set_healthStatus (alter failed u)).

Definition updateMetrics (backendUrl : string) (duration : Z) (success : bool)
  : M unit :=
  modify (set_metrics (alter (λ metrics,
    {| requests := requests metrics + 1;
       totalTime := totalTime metrics + duration;
       errors := if negb success then errors metrics + 1 else errors metrics |})
    backendUrl)) ;;;
  modify (set_healthStatus (alter (λ health,
    {| isHealthy := isHealthy health;
       lastCheck := lastCheck health;
       consecutiveFailures := consecutiveFailures health;
       avgResponseTime := ((avgResponseTime health + inject_Z duration) / 2)%Q |})
    backendUrl)).

Definition checkBackendHealth (backend : BackendConfig) : M unit :=
  w <- get ;;
  match healthStatus w !! url backend with
  | None => ret tt
  | Some _ =>
      r <- settle (fetch host {| fetch_url := url backend ++ "/health";
                                 fetch_method := "HEAD";
                                 fetch_headers := ∅;
                                 fetch_body := NoBody |}) ;;
      match r with
      | Ok response =>
          if ok response then markBackendHealthy (url backend)
          else markBackendUnhealthy (url backend)
      | Throw _ => markBackendUnhealthy (url backend)
      end ;;;
      now <- dateNow host ;;
      modify (set_healthStatus (alter (checked now) (url backend)))
  end.

(** The loop of periodic health checks. *)
Fixpoint checkStale (now : Z) (bs : list BackendConfig) : M unit :=
  match bs with
  | [] => ret tt
  | backend :: rest =>
      w <- get ;;
      match healthStatus w !! url backend with
      | Some health =>
          if healthCheckInterval config <? now - lastCheck health
          then checkBackendHealth backend
          else ret tt
      | None => ret tt
      end ;;;
      checkStale now rest
  end.

Definition getHealthyBackends : M (list BackendConfig) :=
  now <- dateNow host ;;
  checkStale now (backends config) ;;;
  w <- get ;;
  ret (List.filter (λ backend,
         match healthStatus w !! url backend with
         | Some health => isHealthy health
         | None => true
         end) (backends config)).

(** The failover loop: [fuel] turns remain, [i] is the loop counter
    and [count] is [Math.min(backends.length, 3)]. *)
Fixpoint failover (fuel : nat) (i count : Z) (request : Request)
    (requestInfo : RequestInfo) (bs : list BackendConfig)
    (lastError : option JsError) : M Response :=
  match fuel with
  | O => throw (default (newError "All backends failed") lastError)
  | S fuel' =>
      w <- get ;;
      selected <- LoadBalancer.selectBackend host bs requestInfo (Some (metrics w)) ;;
      match selected with
      | None =>
          (* [backend.url] on [undefined], in the [try] and again in
             its [catch] *)
          throw (typeError "Cannot read properties of undefined")
      | Some backend =>
          r <- settle (ProxyService.proxyRequest host config request backend) ;;
          match r with
          | Ok response =>
              if ok response then
                markBackendHealthy (url backend) ;;;
                ret (withBackendInfo response backend)
              else if 500 <=? status response then
                (* Server error, try next backend *)
                markBackendUnhealthy (url backend) ;;;
                failover fuel' (i + 1) count request requestInfo bs
                  (Some (newError ("Backend returned " ++ pretty (status response))))
              else
                (* Client error, return directly but still add headers *)
                ret (withBackendInfo response backend)
          | Throw error =>
              markBackendUnhealthy (url backend) ;;;
              (* If network error and more backends available, continue *)
              if Helpers.isNetworkError error && (i <? count - 1) then
                failover fuel' (i + 1) count request requestInfo bs (Some error)
              else throw error
          end
      end
  end.

Definition proxyRequestWithFallback (request : Request) (requestId : Q)
    (bs : list BackendConfig) : M Response :=
  let requestInfo := parseRequest request in
  (* Try up to 3 different backends *)
  let count := Z.min (Z.of_nat (length bs)) 3 in
  failover (Z.to_nat count) 0 count request requestInfo bs None.

Definition getCachedResponse (request : Request) : M (option Response) :=
  modify (emit (EvCacheMatch (href (req_url request)))) ;;;
  w <- get ;;
  ret (cache w !! href (req_url request)).

Definition shouldCacheResponse (request : Request) (response : Response) : bool :=
  if negb (enableCaching config) || negb (String.eqb (req_method request) "GET")
     || negb (ok response)
  then false
  else
    let cacheControl := headers_get (headers response) "cache-control" in
    if match cacheControl with
       | Some cc => includes cc "no-cache" || includes cc "private"
       | None => false
       end
    then false
    else
      let contentType := orElse (headers_get (headers response) "content-type") "" in
      includes contentType "application/json" ||
      includes contentType "text/" ||
      includes contentType "application/xml".

Definition cacheResponse (request : Request) (response : Response) : M unit :=
  try_catch
    (now <- dateNow host ;;
     let responseToCache :=
       {| status := status response;
          statusText := statusText response;
          headers :=
            headers_set
              (headers_set (headers response) "Cache-Control"
                 ("max-age=" ++ pretty (cacheMaxAge config)))
              "X-Cached-At" (toISOString host now);
          body := body response |} in
     cachePut host (href (req_url request)) responseToCache)
    (λ _, (* Ignore cache errors *) ret tt).

(** The [try] block of [handleRequest]. *)
Definition handleRequestBody (request : Request) (requestId : Q) (startTime : Z)
  : M Response :=
  let requestInfo := parseRequest request in
  (* Request size check *)
  if isRequestTooLarge request then
    Helpers.createErrorResponse host "Request too large" 413
  else
    (* Try cache for GET requests *)
    cachedResponse <-
      (if enableCaching config && String.eqb (req_method request) "GET"
       then getCachedResponse request else ret None) ;;
    match cachedResponse with
    | Some cached => ret cached
    | None =>
        (* Get healthy backends *)
        healthyBackends <- getHealthyBackends ;;
        if Nat.eqb (length healthyBackends) 0 then
          Helpers.createErrorResponse host "All backends unavailable" 503
        else
          (* Proxy request with fallback *)
          response <- proxyRequestWithFallback request requestId healthyBackends ;;
          (* Update metrics *)
          let backendUrl :=
            orElse (headers_get (headers response) "X-Backend-URL") "" in
          now <- dateNow host ;;
          let duration := now - startTime in
          updateMetrics backendUrl duration (ok response) ;;;
          (* Cache successful responses *)
          (if shouldCacheResponse request response
           then cacheResponse request response else ret tt) ;;;
          ret response
    end.

Definition handleRequest (request : Request) : M Response :=
  requestId <- Helpers.generateRequestId host ;;
  startTime <- dateNow host ;;
  try_catch
    (handleRequestBody request requestId startTime)
    (λ error,
       Helpers.createErrorResponse host "Service temporarily unavailable"
         (Helpers.getErrorStatus error)).

End WithConfig.

End ProxyHandler.

(* ===================================================================== *)
(** ** utils/cors.ts *)
(* ===================================================================== *)

Module Cors.

Definition corsHeaders : list (string * string) :=
  [("Access-Control-Allow-Origin", "*");
   ("Access-Control-Allow-Methods", "GET, POST, PUT, DELETE, OPTIONS, PATCH");
   ("Access-Control-Allow-Headers",
    "Content-Type, Authorization, X-Requested-With, Accept, Origin");
   ("Access-Control-Max-Age", "86400")].

Definition addCorsHeaders (response : Response) : Response :=
  let newHeaders :=
    fold_left (λ h entry, headers_set h entry.1 entry.2) corsHeaders (headers response) in
  {| status := status response;
     statusText := statusText response;
     headers := headers_set newHeaders "X-Proxy-By" "Cloudflare-Workers";
     body := body response |}.

Definition handleOptionsRequest : Response :=
  {| status := 200;
     statusText := "";
     headers := fold_left (λ h entry, headers_set h entry.1 entry.2) corsHeaders ∅;
     body := NoBody |}.

End Cors.

(* ===================================================================== *)
(** ** index.ts *)
(* ===================================================================== *)

Module Worker.

Section WithHost.
(** [stringify] is [JSON.stringify(metrics, null, 2)]. *)
Context (host : Host) (stringify : gmap string ProxyHandler.Report.t → string).

(** The worker's [fetch].  [config] is the value of
    [ConfigLoader.loadConfig(env)], which does not throw, [environment]
    is [env.ENVIRONMENT] and [cache0] the content of [caches.default].
    Beside the response, the state in which the handler built for the
    request was left, if one was built. *)
Definition fetch (config : ProxyConfig) (environment : string)
    (cache0 : gmap string Response) (request : Request) : Response * option World :=
  (* Handle preflight requests *)
  if String.eqb (req_method request) "OPTIONS" then (Cors.handleOptionsRequest, None)
  else
    let u := req_url request in
    if String.eqb (pathname u) "/favicon.ico" then
      ({| status := 204; statusText := ""; headers := ∅; body := NoBody |}, None)
    (* Only expose metrics in development environment *)
    else if String.eqb (pathname u) "/metrics" && String.eqb environment "development" then
      match ProxyHandler.constructor config cache0 with
      | Ok w =>
          let metrics := ProxyHandler.getMetrics w in
          (Cors.addCorsHeaders
             {| status := 200;
                statusText := "";
                headers := headers_set ∅ "Content-Type" "application/json";
                body := Stream (stringify metrics) |},
           Some w)
      | Throw error =>
          (Cors.addCorsHeaders
             {| status := 500;
                statusText := "";
                headers := headers_set ∅ "Content-Type" "application/json";
                body := JsonText [("error", JString "Failed to retrieve metrics");
                                  ("message", JString (message error))] |},
           None)
      end
    else
      (* Handle proxy requests *)
      match ProxyHandler.constructor config cache0 with
      | Ok w =>
          match ProxyHandler.handleRequest host config request w with
          | (Ok response, w') => (Cors.addCorsHeaders response, Some w')
          | (Throw error, w') =>
              (Cors.addCorsHeaders
                 {| status := 500;
                    statusText := "";
                    headers := headers_set ∅ "Content-Type" "application/json";
                    body := JsonText [("error", JString "Proxy configuration error");
                                      ("message", JString (message error))] |},
               Some w')
          end
      | Throw error =>
          (Cors.addCorsHeaders
             {| status := 500;
                statusText := "";
                headers := headers_set ∅ "Content-Type" "application/json";
                body := JsonText [("error", JString "Proxy configuration error");
                                  ("message", JString (message error))] |},
           None)
      end.

End WithHost.

End Worker.

(* ===================================================================== *)
(** * Vocabulary of the specification *)
(* ===================================================================== *)

Import LoadBalancer.
Import ProxyHandler.
Import ProxyService.

(** [t] is an initial segment of [s]. *)
Definition beginsWith (s t : string) : Prop := ∃ rest, s = t ++ rest.

(** [t] occurs somewhere in [s]. *)
Definition occursIn (s t : string) : Prop := ∃ before after, s = before ++ t ++ after.

(** The draw that remains after the walk has passed [walked]. *)
Definition drawAfter (random : Q) (walked : list BackendConfig) : Q :=
  fold_left (λ x backend, (x - weight backend)%Q) walked random.

(** How the weighted walk over [bs] with the draw [random] ends in [b]:
    at the first candidate where the remaining draw is not positive, or,
    when it stays positive to the end, at the last candidate. *)
Inductive WalkEnds (random : Q) (bs : list BackendConfig) (b : BackendConfig) : Prop :=
| StopsAt (pre post : list BackendConfig) :
    bs = (pre ++ b :: post)%list →
    (drawAfter random (pre ++ [b])%list <= 0)%Q →
    (∀ k, (0 < k ≤ length pre)%nat → ¬ (drawAfter random (take k pre) <= 0)%Q) →
    WalkEnds random bs b
| FallsBack :
    last bs = Some b →
    (∀ k, (0 < k ≤ length bs)%nat → ¬ (drawAfter random (take k bs) <= 0)%Q) →
    WalkEnds random bs b.

(** [b] is a candidate of [bs], up to its transient weight. *)
Definition sameBackendIn (b : BackendConfig) (bs : list BackendConfig) : Prop :=
  ∃ b', In b' bs ∧ url b = url b' ∧ region b = region b'.

(** The run changed nothing but the number of random draws. *)
Definition onlyDraws (w w' : World) : Prop :=
  healthStatus w' = healthStatus w ∧ metrics w' = metrics w ∧ cache w' = cache w
  ∧ history w' = history w.

Arguments drawAfter : simpl never.

(** The list that [selectBackend] hands to the weighted walk when there
    is more than one backend. *)
Definition walkedBackends (backends : list BackendConfig) (requestInfo : RequestInfo)
    (metrics : option (gmap string BackendMetrics)) : list BackendConfig :=
  match metrics with
  | Some m =>
      if Nat.ltb 0 (size m)
      then weightedBackendsOf (candidateBackendsOf backends requestInfo) m
      else candidateBackendsOf backends requestInfo
  | None => candidateBackendsOf backends requestInfo
  end.

(** The two tests of the narrowing in the words of the specification:
    [exactRegion] is equality of regions up to case, [partialRegion] is
    containment of one of the dash-separated parts of the preferred
    region in the lower-cased region. *)
Definition exactRegion (preferredRegion : string) (b : BackendConfig) : Prop :=
  toLowerCase (region b) = toLowerCase preferredRegion.

Definition partialRegion (preferredRegion : string) (b : BackendConfig) : Prop :=
  Exists (λ part, occursIn (toLowerCase (region b)) part) (split "-" preferredRegion).

(** The transient weight in the words of the specification. *)
Definition specWeight (maxScore score : Q) : Z := Z.max 1 (Qfloor (maxScore - score)).

(** The world a computation leaves. *)
Definition exec {A} (m : M A) (w : World) : World := snd (m w).

(** [m] keeps the property [P] of worlds, however it ends. *)
Definition preserves {A} (P : World → Prop) (m : M A) : Prop :=
  ∀ w, P w → P (exec m w).

Definition allHealth (Q : BackendHealth → Prop) (w : World) : Prop :=
  ∀ u h, healthStatus w !! u = Some h → Q h.

Definition allMetrics (Q : BackendMetrics → Prop) (w : World) : Prop :=
  ∀ u m, metrics w !! u = Some m → Q m.

Definition healthInvariant (config : ProxyConfig) (h : BackendHealth) : Prop :=
  isHealthy h = true ↔ consecutiveFailures h < circuitBreakerThreshold config.

Definition metricsInvariant (m : BackendMetrics) : Prop := errors m ≤ requests m.

(** One recorded outcome: the arguments of [updateMetrics]. *)
Record Outcome := {
  backendUrl : string;
  duration : Z;
  success : bool;
}.

Fixpoint recordOutcomes (outcomes : list Outcome) : M unit :=
  match outcomes with
  | [] => ret tt
  | o :: rest =>
      updateMetrics (backendUrl o) (duration o) (success o) ;;;
      recordOutcomes rest
  end.

(** What one call of [proxyRequest] does when it makes [k] retries, in
    order of time: a fetch, then for each retry a sleep of
    [2^attempt] seconds and the next fetch. *)
Fixpoint retryEvents (rq : FetchRequest) (attempt : Z) (k : nat) : list Event :=
  match k with
  | O => [EvFetch rq]
  | S k' => EvFetch rq :: EvSleep (2 ^ attempt * 1000) :: retryEvents rq (attempt + 1) k'
  end.

Definition emitAll (events : list Event) (w : World) : World :=
  fold_left (λ w e, emit e w) events w.

(** The Metrics records are those of a handler whose clock does not run
    backwards: counters and total time are natural, errors are among
    the requests. *)
Definition metricsPlausible (m : BackendMetrics) : Prop :=
  0 ≤ errors m ≤ requests m ∧ 0 ≤ totalTime m.

(** The names that [proxyRequest] sets or removes, in lower case. *)
Definition rewrittenHeaders : list string :=
  ["x-forwarded-for"; "x-forwarded-proto"; "x-forwarded-host"; "x-real-ip";
   "cf-connecting-ip"; "cf-ray"; "cf-visitor"; "cf-ipcountry"].

(** The statuses of the responses that the handler makes itself. *)
Definition refusalStatus (st : Z) : Prop :=
  st = 413 ∨ st = 503 ∨ st = 504 ∨ st = 502 ∨ st = 499.

(** The Metrics table after one outcome of [d] ms is recorded for [u]. *)
Definition recorded (u : string) (d : Z) (success : bool)
    (ms : gmap string BackendMetrics) : gmap string BackendMetrics :=
  alter (λ m, {| requests := requests m + 1;
                 totalTime := totalTime m + d;
                 errors := if negb success then errors m + 1 else errors m |}) u ms.

(** The filter at the end of [getHealthyBackends], on a Health table. *)
Definition notMarkedUnhealthy (hs : gmap string BackendHealth) (backend : BackendConfig)
  : bool :=
  match hs !! url backend with
  | Some health => isHealthy health
  | None => true
  end.

(** The copy of a response that [cacheResponse] stores. *)
Definition cachedCopy (config : ProxyConfig) (response : Response) (stamp : string)
  : Response :=
  {| status := status response;
     statusText := statusText response;
     headers :=
       headers_set
         (headers_set (headers response) "Cache-Control"
            ("max-age=" ++ pretty (cacheMaxAge config)))
         "X-Cached-At" stamp;
     body := body response |}.

(** What a handled request ends in: a response the handler made itself,
    a cached response, or a backend's response to the forwarded request
    with the backend's identity added; in the last case the
    recorded duration is the time between the start of the request and
    a later reading of the clock, after [events] events, and the
    write to the cache is best-effort: a response that
    [shouldCacheResponse] accepts is stored as its stamped copy unless
    the write fails, and a failed write changes nothing. *)
Inductive Ending (host : Host) (config : ProxyConfig) (request : Request)
    (w w' : World) (response : Response) : Prop :=
| Refused :
    refusalStatus (status response) →
    headers_get (headers response) "Content-Type" = Some "application/json" →
    (∃ msg stamp, body response = JsonText [("error", JString msg);
                                            ("status", JNumber (status response));
                                            ("timestamp", JString stamp)]) →
    metrics w' = metrics w →
    cache w' = cache w →
    Ending host config request w w' response
| FromCache :
    isRequestTooLarge request = false →
    enableCaching config = true →
    req_method request = "GET" →
    cache w !! href (req_url request) = Some response →
    healthStatus w' = healthStatus w →
    metrics w' = metrics w →
    cache w' = cache w →
    Ending host config request w w' response
| FromBackend (upstream : Response) (backend : BackendConfig) (events : nat)
    (stamp : string) :
    isRequestTooLarge request = false →
    response = withBackendInfo upstream backend →
    (∃ k, net_fetch host k (forwardedRequest request backend) = Ok upstream) →
    status upstream < 500 →
    sameBackendIn backend (backends config) →
    (length (history w) ≤ events)%nat →
    metrics w'
    = recorded (url backend)
        (Date_now host events - Date_now host (length (history w)))
        (ok upstream) (metrics w) →
    (if shouldCacheResponse config request response
     then cache w' = <[href (req_url request) := cachedCopy config response stamp]>
                       (cache w)
          ∨ (cache w' = cache w
             ∧ ∃ k e, cache_put host k (href (req_url request))
                        (cachedCopy config response stamp) = Throw e)
     else cache w' = cache w) →
    Ending host config request w w' response.

(** The request of a health probe. *)
Definition probeOf (backend : BackendConfig) : FetchRequest :=
  {| fetch_url := url backend ++ "/health"; fetch_method := "HEAD";
     fetch_headers := ∅; fetch_body := NoBody |}.

(** A sequence of marks on one backend, as the failover loop and the
    probes make them: [true] for [markBackendHealthy], [false] for
    [markBackendUnhealthy]. *)
Fixpoint markAll (config : ProxyConfig) (marks : list bool) (u : string) : M unit :=
  match marks with
  | [] => ret tt
  | mark :: rest =>
      (if mark : bool then markBackendHealthy u else markBackendUnhealthy config u) ;;;
      markAll config rest u
  end.

(** The number of calls of the platform's [fetch] in a history. *)
Definition fetchCount (events : list Event) : nat :=
  length (List.filter (λ e, match e with EvFetch _ => true | _ => false end) events).

(** [m] calls [fetch] at most [budget] times, however it ends. *)
Definition spends {A} (budget : nat) (m : M A) : Prop :=
  ∀ w, (fetchCount (history (exec m w)) ≤ fetchCount (history w) + budget)%nat.

(** The characters of a decimal numeral. *)
Definition isDigit (c : ascii) : bool :=
  ((48 <=? N_of_ascii c) && (N_of_ascii c <=? 57))%N.

Fixpoint allDigits (s : string) : bool :=
  match s with
  | EmptyString => true
  | String c s' => isDigit c && allDigits s'
  end.

(** Every request that reaches the network is answered with a server
    error. *)
Definition alwaysServerError (host : Host) : Prop :=
  ∀ k rq, ∃ response, net_fetch host k rq = Ok response ∧ 500 ≤ status response.

(** The names, in lower case, of the headers that [addCorsHeaders] sets. *)
Definition corsNames : list string :=
  ["access-control-allow-origin"; "access-control-allow-methods";
   "access-control-allow-headers"; "access-control-max-age"; "x-proxy-by"].

(** The entry that [getMetrics] gives for a backend that was never used. *)
Definition unusedReport : ProxyHandler.Report.t :=
  {| ProxyHandler.Report.requests := 0;
     ProxyHandler.Report.errors := 0;
     ProxyHandler.Report.errorRate := 0;
     ProxyHandler.Report.avgResponseTime := 0;
     ProxyHandler.Report.isHealthy := true;
     ProxyHandler.Report.consecutiveFailures := 0 |}.

(** The JSON error response of the worker's [catch] blocks. *)
Definition workerError (label : string) (error : JsError) : Response :=
  Cors.addCorsHeaders
    {| status := 500;
       statusText := "";
       headers := headers_set ∅ "Content-Type" "application/json";
       body := JsonText [("error", JString label);
                         ("message", JString (message error))] |}.

(** What [validateConfig] asks of a backend. *)
Definition wellFormed (backend : BackendConfig) : Prop :=
  url backend ≠ "" ∧ region backend ≠ "" ∧ (0 < weight backend)%Q.

(** [m] only adds to the history. *)
Definition grows {A} (m : M A) : Prop :=
  ∀ w, (length (history w) ≤ length (history (exec m w)))%nat.

(** The clock of the host does not run backwards. *)
Definition monotoneClock (host : Host) : Prop :=
  ∀ j k, (j ≤ k)%nat → Date_now host j ≤ Date_now host k.

(** Every event that [m] adds to the history satisfies [P]. *)
Definition adds {A} (P : Event → Prop) (m : M A) : Prop :=
  ∀ w, ∃ added,
    history (exec m w) = (added ++ history w)%list ∧ Forall P added.

(** The events that serving [request] may cause: a probe of a
    configured backend, the request forwarded to one, a pause, and a
    cache access under the request's URL. *)
Definition contacts (config : ProxyConfig) (request : Request) (e : Event) : Prop :=
  match e with
  | EvFetch rq =>
      ∃ b, In b (backends config)
           ∧ (rq = probeOf b ∨ rq = forwardedRequest request b)
  | EvSleep _ => True
  | EvCacheMatch key => key = href (req_url request)
  | EvCachePut key => key = href (req_url request)
  end.

(** The body that goes out with a forwarded request: the request's,
    unless the method is GET or HEAD. *)
Definition sentBody (request : Request) : Body :=
  if negb (String.eqb (req_method request) "GET")
     && negb (String.eqb (req_method request) "HEAD")
  then req_body request else NoBody.

(** Every request to the network fails with the error [e]. *)
Definition networkDown (host : Host) (e : JsError) : Prop :=
  ∀ k rq, net_fetch host k rq = Throw e.

(* ===================================================================== *)
(** * Scenarios *)
(* ===================================================================== *)

Module CacheScenario.

Definition config : ProxyConfig :=
  {| backends := [{| url := "https://a.example"; weight := 1; region := "us-west" |}];
     retryAttempts := 2; enableCaching := true; cacheMaxAge := 300;
     healthCheckInterval := 30000; circuitBreakerThreshold := 5 |}.

Definition request : Request :=
  {| req_method := "GET";
     req_url := {| protocol := "https:"; hostname := "proxy.example";
                   pathname := "/x"; search := "" |};
     req_headers := ∅;
     req_body := NoBody |}.

Definition contentType : string := "multipart/related; type=text/html".

Definition response : Response :=
  {| status := 200; statusText := "OK";
     headers := headers_set ∅ "Content-Type" contentType;
     body := Stream "payload" |}.

End CacheScenario.

Module GeoScenario.

Definition A : BackendConfig := {| url := "A"; weight := 1; region := "us-west" |}.
Definition B : BackendConfig := {| url := "B"; weight := 1; region := "asia-east" |}.

End GeoScenario.

Module ScoreScenario.

Definition A : BackendConfig := {| url := "A"; weight := 1; region := "global" |}.
Definition B : BackendConfig := {| url := "B"; weight := 1; region := "global" |}.

(** A has served one request, without error, in 0 ms; B none. *)
Definition observed : gmap string BackendMetrics :=
  <["A" := {| requests := 1; errors := 0; totalTime := 0 |}]>
    (<["B" := {| requests := 0; errors := 0; totalTime := 0 |}]> ∅).

Definition requestInfo : RequestInfo :=
  {| method := "GET"; path := "/"; clientIP := "unknown"; country := "unknown";
     userAgent := "unknown" |}.

Definition host : Host :=
  {| Math_random := λ _, (9 # 10)%Q;
     Date_now := λ _, 0;
     toISOString := λ _, "1970-01-01T00:00:00.000Z";
     net_fetch := λ _ _, Throw (typeError "fetch failed");
     cache_put := λ _ _ _, Ok tt |}.

Definition world : World :=
  {| healthStatus := ∅; metrics := observed; cache := ∅; history := []; draws := 0 |}.

End ScoreScenario.

Module ThresholdScenario.

(** An environment with one backend and the threshold 0. *)
Definition env : gmap string string :=
  <["BACKEND_1_URL" := "https://a.example"]>
    (<["BACKEND_1_REGION" := "us-west"]>
       (<["CIRCUIT_BREAKER_THRESHOLD" := "0"]> ∅)).

(** The configuration loaded from it. *)
Definition config : ProxyConfig :=
  {| backends := [{| url := "https://a.example"; weight := 1; region := "us-west" |}];
     retryAttempts := 2; enableCaching := true; cacheMaxAge := 300;
     healthCheckInterval := 30000; circuitBreakerThreshold := 0 |}.

Definition world : World :=
  {| healthStatus := {["https://a.example" := initialHealth]};
     metrics := {["https://a.example" := initialMetrics]};
     cache := ∅; history := []; draws := 0 |}.

End ThresholdScenario.

Module PassThroughScenario.

Definition A : BackendConfig := {| url := "https://a.example"; weight := 1; region := "us-west" |}.
Definition B : BackendConfig := {| url := "https://b.example"; weight := 1; region := "asia-east" |}.

Definition config : ProxyConfig :=
  {| backends := [A; B];
     retryAttempts := 2; enableCaching := true; cacheMaxAge := 300;
     healthCheckInterval := 30000; circuitBreakerThreshold := 5 |}.

Definition request : Request :=
  {| req_method := "GET";
     req_url := {| protocol := "https:"; hostname := "proxy.example";
                   pathname := "/missing"; search := "" |};
     req_headers := ∅;
     req_body := NoBody |}.

Definition answer (st : Z) : Response :=
  {| status := st; statusText := ""; headers := ∅; body := Stream "" |}.

(** The first fetch is answered 503, every later one 404; every random
    draw is 0, so the walk stops at the first candidate. *)
Definition host : Host :=
  {| Math_random := λ _, 0%Q;
     Date_now := λ _, 0;
     toISOString := λ _, "1970-01-01T00:00:00.000Z";
     net_fetch := λ k _, if Nat.eqb k 0 then Ok (answer 503) else Ok (answer 404);
     cache_put := λ _ _ _, Ok tt |}.

Definition world : World :=
  {| healthStatus := {[url A := initialHealth]} ∪ {[url B := initialHealth]};
     metrics := {[url A := initialMetrics]} ∪ {[url B := initialMetrics]};
     cache := ∅; history := []; draws := 0 |}.

End PassThroughScenario.

Module Witness.

Definition requestInfo (c : string) : RequestInfo :=
  {| method := "GET"; path := "/"; clientIP := "unknown"; country := c;
     userAgent := "unknown" |}.

(** Every fetch is answered 200. *)
Definition host200 : Host :=
  {| Math_random := λ _, 0%Q;
     Date_now := λ k, 1000 + Z.of_nat k;
     toISOString := λ _, "1970-01-01T00:00:01.000Z";
     net_fetch := λ _ _, Ok (PassThroughScenario.answer 200);
     cache_put := λ _ _ _, Ok tt |}.


Definition oversize : Request :=
  {| req_method := "POST";
     req_url := {| protocol := "https:"; hostname := "proxy.example";
                   pathname := "/upload"; search := "" |};
     req_headers := headers_set ∅ "Content-Length" "20971520";
     req_body := Stream "..." |}.


Definition afterSelect : World :=
  exec (selectBackend host200 [PassThroughScenario.A; PassThroughScenario.B]
          (parseRequest PassThroughScenario.request)
          (Some (metrics PassThroughScenario.world)))
    PassThroughScenario.world.

Definition afterForward : World :=
  exec (proxyRequest host200 PassThroughScenario.config PassThroughScenario.request
          PassThroughScenario.A)
    afterSelect.

(** The world after a GET answered 200 by backend A without a
    Content-Type. *)
Definition afterRequest : World :=
  exec (handleRequest host200 PassThroughScenario.config PassThroughScenario.request)
    PassThroughScenario.world.


(** An upload: a POST whose body is a stream. *)
Definition upload : Request :=
  {| req_method := "POST";
     req_url := {| protocol := "https:"; hostname := "proxy.example";
                   pathname := "/upload"; search := "" |};
     req_headers := ∅;
     req_body := Stream "data" |}.

Definition slow : Outcome :=
  {| backendUrl := "https://a.example"; duration := 120; success := true |}.

Definition failedFast : Outcome :=
  {| backendUrl := "https://a.example"; duration := 30; success := false |}.

End Witness.

Module Further.

(** Backend A has served ten requests, three of them in error, in
    2500 ms; backend B none. *)
Definition busy : gmap string BackendMetrics :=
  <["https://a.example" := {| requests := 10; errors := 3; totalTime := 2500 |}]>
    (<["https://b.example" := {| requests := 0; errors := 0; totalTime := 0 |}]> ∅).

(** A JSON document, as a backend answers it. *)
Definition document : Response :=
  {| status := 200; statusText := "OK";
     headers := headers_set ∅ "Content-Type" "application/json";
     body := Stream "{}" |}.

(** Every fetch is answered with the document; the clock runs. *)
Definition hostJson : Host :=
  {| Math_random := λ _, (1 # 2)%Q;
     Date_now := λ k, 1700000000000 + Z.of_nat k;
     toISOString := λ _, "2023-11-14T22:13:20.000Z";
     net_fetch := λ _ _, Ok document;
     cache_put := λ _ _ _, Ok tt |}.

(** Every fetch is answered 504. *)
Definition host504 : Host :=
  {| Math_random := λ _, (1 # 2)%Q;
     Date_now := λ k, 1700000000000 + Z.of_nat k;
     toISOString := λ _, "2023-11-14T22:13:20.000Z";
     net_fetch := λ _ _, Ok (PassThroughScenario.answer 504);
     cache_put := λ _ _ _, Ok tt |}.

(** A handler for [CacheScenario.config] as the constructor leaves it. *)
Definition built : World :=
  {| healthStatus := {["https://a.example" := initialHealth]};
     metrics := {["https://a.example" := initialMetrics]};
     cache := ∅; history := []; draws := 0 |}.

(** A handler whose cache holds an answer for [CacheScenario.request]. *)
Definition warm : World :=
  {| healthStatus := {["https://a.example" := initialHealth]};
     metrics := {["https://a.example" := initialMetrics]};
     cache := {[href (req_url CacheScenario.request) := CacheScenario.response]};
     history := []; draws := 0 |}.

(** An environment with one backend and RETRY_ATTEMPTS=0. *)
Definition envNoRetry : gmap string string :=
  <["BACKEND_1_URL" := "https://a.example"]>
    (<["BACKEND_1_REGION" := "us-west"]>
       (<["RETRY_ATTEMPTS" := "0"]> ∅)).

Definition metricsRequest : Request :=
  {| req_method := "GET";
     req_url := {| protocol := "https:"; hostname := "proxy.example";
                   pathname := "/metrics"; search := "" |};
     req_headers := ∅;
     req_body := NoBody |}.

(** A rendering of a report: only the number of its entries. *)
Definition stringify (report : gmap string Report.t) : string := pretty (size report).

End Further.

(* ===================================================================== *)
(** * Properties *)
(* ===================================================================== *)

(** ** JavaScript string operations on examples *)

Example toLowerCase_ex : toLowerCase "Asia-East" = "asia-east".
Proof. reflexivity. Qed.

Example toUpperCase_ex : toUpperCase "jp" = "JP".
Proof. reflexivity. Qed.

Example split_ex : split "-" "asia-northeast" = ["asia"; "northeast"].
Proof. reflexivity. Qed.

Example includes_ex :
  includes "asia-east" "asia" = true ∧ includes "us-west" "asia" = false
  ∧ includes "abc" "" = true.
Proof. repeat split; reflexivity. Qed.

Example parseInt_ex :
  parseInt "20971520" None = Some 20971520 ∧ parseInt " 12px" None = Some 12
  ∧ parseInt "0x10" None = Some 16 ∧ parseInt "0x10" (Some 10) = Some 0
  ∧ parseInt "abc" None = None ∧ parseInt "" None = None.
Proof. repeat split; reflexivity. Qed.

Example trim_ex : trim "  us-west " = "us-west".
Proof. reflexivity. Qed.

(** ** Strings *)

Lemma append_cons (c : ascii) (a b : string) : String c a ++ b = String c (a ++ b).
Proof. reflexivity. Qed.

Lemma startsWith_nil (s : string) : startsWith s "" = true.
Proof. by destruct s. Qed.

Lemma startsWith_cons (c d : ascii) (s t : string) :
  startsWith (String d s) (String c t) = (if ascii_dec c d then startsWith s t else false).
Proof. reflexivity. Qed.

Lemma startsWith_spec s t : startsWith s t = true ↔ beginsWith s t.
Proof.
  unfold beginsWith. revert s.
  induction t as [|c t IH]; intros s.
  - rewrite startsWith_nil. split; [intros _; by exists s | done].
  - destruct s as [|d s].
    + split; [done | intros [r Hr]; discriminate].
    + rewrite startsWith_cons. destruct (ascii_dec c d) as [->|Hne].
      * rewrite IH. split; intros [r Hr]; exists r; rewrite append_cons in *; congruence.
      * split; [done | intros [r Hr]; rewrite append_cons in Hr; congruence].
Qed.

Lemma includes_nil (t : string) : includes "" t = startsWith "" t.
Proof. reflexivity. Qed.

Lemma includes_cons (c : ascii) (s t : string) :
  includes (String c s) t = startsWith (String c s) t || includes s t.
Proof. reflexivity. Qed.

Lemma includes_spec s t : includes s t = true ↔ occursIn s t.
Proof.
  unfold occursIn. induction s as [|c s IH].
  - rewrite includes_nil, startsWith_spec. split.
    + intros [r Hr]. exists "", r. done.
    + intros ([|? ?] & b & Hb); [|discriminate].
      by exists b.
  - rewrite includes_cons, orb_true_iff, startsWith_spec, IH. split.
    + intros [[r Hr] | (a & b & Hab)].
      * exists "", r. done.
      * exists (String c a), b. rewrite append_cons. by rewrite Hab.
    + intros ([|d a] & b & Hab).
      * left. by exists b.
      * right. exists a, b. rewrite append_cons in Hab. congruence.
Qed.

Lemma includes_false_spec s t : includes s t = false ↔ ¬ occursIn s t.
Proof.
  rewrite <- includes_spec. destruct (includes s t); split; done.
Qed.

Lemma beginsWith_occursIn s t : beginsWith s t → occursIn s t.
Proof. intros [r Hr]. exists "", r. done. Qed.

(** ** The cache-store policy *)

Lemma ok_spec (r : Response) : ok r = true ↔ 200 ≤ status r ≤ 299.
Proof. unfold ok. rewrite andb_true_iff, !Z.leb_le. done. Qed.

Lemma orElse_empty_includes (o : option string) (t : string) :
  t ≠ "" →
  includes (orElse o "") t = true ↔ ∃ ct, o = Some ct ∧ occursIn ct t.
Proof.
  intros Ht. destruct o as [s|]; unfold orElse.
  - destruct (String.eqb_spec s "") as [->|Hs].
    + rewrite includes_spec. split.
      * intros ([|? ?] & b & Hb); [|discriminate].
        destruct t; [done | discriminate].
      * intros (ct & [= <-] & Hocc). done.
    + rewrite includes_spec. split.
      * intros H. by exists s.
      * by intros (ct & [= <-] & Hocc).
  - rewrite includes_spec. split.
    + intros ([|? ?] & b & Hb); [|discriminate].
      destruct t; [done | discriminate].
    + by intros (ct & ? & _).
Qed.

(** The predicate in terms of the request, the status and the two
    headers. *)
Lemma shouldCacheResponse_spec (config : ProxyConfig) (request : Request)
    (response : Response) :
  ProxyHandler.shouldCacheResponse config request response = true ↔
    enableCaching config = true
    ∧ req_method request = "GET"
    ∧ 200 ≤ status response ≤ 299
    ∧ (∀ cc, headers_get (headers response) "Cache-Control" = Some cc →
             ¬ occursIn cc "no-cache" ∧ ¬ occursIn cc "private")
    ∧ (∃ ct, headers_get (headers response) "Content-Type" = Some ct
             ∧ (occursIn ct "application/json" ∨ occursIn ct "text/"
                ∨ occursIn ct "application/xml")).
Proof.
  unfold ProxyHandler.shouldCacheResponse.
  change (headers_get (headers response) "cache-control")
    with (headers_get (headers response) "Cache-Control").
  change (headers_get (headers response) "content-type")
    with (headers_get (headers response) "Content-Type").
  rewrite <- ok_spec.
  destruct (enableCaching config); simpl; [|intuition discriminate].
  destruct (String.eqb_spec (req_method request) "GET") as [Hm|Hm]; simpl;
    [|intuition congruence].
  destruct (ok response); simpl; [|intuition discriminate].
  set (cc := headers_get (headers response) "Cache-Control").
  set (o := headers_get (headers response) "Content-Type").
  assert (Hct : (includes (orElse o "") "application/json"
                 || includes (orElse o "") "text/"
                 || includes (orElse o "") "application/xml") = true ↔
                ∃ ct, o = Some ct
                  ∧ (occursIn ct "application/json" ∨ occursIn ct "text/"
                     ∨ occursIn ct "application/xml")).
  { rewrite !orb_true_iff, !orElse_empty_includes by done.
    split.
    - intros [[(ct & ? & ?)|(ct & ? & ?)]|(ct & ? & ?)]; exists ct; tauto.
    - intros (ct & ? & [?|[?|?]]); [left; left|left; right|right]; by exists ct. }
  destruct cc as [c|] eqn:Hcc.
  - destruct (includes c "no-cache") eqn:H1; simpl.
    { apply includes_spec in H1. split; [done|].
      intros (_ & _ & _ & H & _). destruct (H c eq_refl) as [H' _]. done. }
    destruct (includes c "private") eqn:H2; simpl.
    { apply includes_spec in H2. split; [done|].
      intros (_ & _ & _ & H & _). destruct (H c eq_refl) as [_ H']. done. }
    apply includes_false_spec in H1, H2. rewrite Hct.
    split; [|tauto].
    intros H. split; [done|]. split; [done|]. split; [done|]. split; [|done].
    intros c' [= <-]. done.
  - rewrite Hct. split; [|tauto].
    intros H. split; [done|]. split; [done|]. split; [done|]. split; [|done].
    intros c' [=].
Qed.

(** C5 as stated fails: a 200 response to a GET, without Cache-Control,
    whose Content-Type begins with none of the three prefixes but
    contains [text/] further on, is accepted for storing. *)
Lemma shouldCacheResponse_not_prefix :
  ProxyHandler.shouldCacheResponse CacheScenario.config CacheScenario.request
    CacheScenario.response = true
  ∧ headers_get (headers CacheScenario.response) "Content-Type"
    = Some CacheScenario.contentType
  ∧ ¬ beginsWith CacheScenario.contentType "application/json"
  ∧ ¬ beginsWith CacheScenario.contentType "text/"
  ∧ ¬ beginsWith CacheScenario.contentType "application/xml".
Proof.
  split; [vm_compute; reflexivity|].
  split; [vm_compute; reflexivity|].
  repeat split; rewrite <- startsWith_spec; vm_compute; discriminate.
Qed.

(** ** The selector *)

Lemma drawAfter_nil random : drawAfter random [] = random.
Proof. reflexivity. Qed.

Lemma drawAfter_cons random b rest :
  drawAfter random (b :: rest) = drawAfter (random - weight b)%Q rest.
Proof. reflexivity. Qed.

Lemma walk_Some random bs b :
  walk random bs = Some b →
  ∃ pre post, bs = (pre ++ b :: post)%list
    ∧ (drawAfter random (pre ++ [b])%list <= 0)%Q
    ∧ ∀ k, (0 < k ≤ length pre)%nat → ¬ (drawAfter random (take k pre) <= 0)%Q.
Proof.
  revert random. induction bs as [|a rest IH]; intros random; simpl; [done|].
  destruct (Qle_bool (random - weight a) 0) eqn:Hle.
  - intros [= ->]. exists [], rest. split; [done|]. split.
    + simpl. rewrite drawAfter_cons, drawAfter_nil. by apply Qle_bool_iff.
    + simpl. intros k Hk. lia.
  - intros Hw. destruct (IH _ Hw) as (pre & post & -> & Hstop & Hbefore).
    exists (a :: pre), post. split; [done|]. split.
    + simpl. by rewrite drawAfter_cons.
    + intros k Hk. destruct k as [|k]; [lia|].
      simpl. rewrite drawAfter_cons.
      destruct k as [|k].
      * rewrite take_0, drawAfter_nil.
        rewrite <- Qle_bool_iff, Hle. done.
      * apply Hbefore. simpl in Hk. lia.
Qed.

Lemma walk_None random bs :
  walk random bs = None →
  ∀ k, (0 < k ≤ length bs)%nat → ¬ (drawAfter random (take k bs) <= 0)%Q.
Proof.
  revert random. induction bs as [|a rest IH]; intros random; simpl.
  - intros _ k Hk. lia.
  - destruct (Qle_bool (random - weight a) 0) eqn:Hle; [done|].
    intros Hw k Hk. destruct k as [|k]; [lia|].
    simpl. rewrite drawAfter_cons. destruct k as [|k].
    + rewrite take_0, drawAfter_nil. rewrite <- Qle_bool_iff, Hle. done.
    + apply IH; [done | lia].
Qed.

Lemma last_In {A} (l : list A) (x : A) : last l = Some x → In x l.
Proof.
  intros H. apply list_elem_of_In, list_elem_of_lookup.
  exists (pred (length l)). by rewrite <- last_lookup.
Qed.

Lemma last_nonempty {A} (l : list A) : l ≠ [] → ∃ x, last l = Some x.
Proof.
  intros H. destruct (last l) eqn:E; [eauto|].
  apply last_None in E. done.
Qed.

(** [weightedRandomSelect] on a non-empty list returns a member, by one
    of its three exits. *)
Lemma weightedRandomSelect_spec (host : Host) (bs : list BackendConfig) (w : World) :
  bs ≠ [] →
  ∃ b w', weightedRandomSelect host bs w = (Ok (Some b), w')
    ∧ In b bs ∧ onlyDraws w w'
    ∧ ((totalWeightOf bs == 0)%Q ∧ head bs = Some b
       ∨ ¬ (totalWeightOf bs == 0)%Q
         ∧ WalkEnds (Math_random host (draws w) * totalWeightOf bs)%Q bs b).
Proof.
  intros Hne. unfold weightedRandomSelect.
  destruct (Qeq_bool (totalWeightOf bs) 0) eqn:Htot.
  - destruct bs as [|b rest]; [done|].
    exists b, w. split; [done|]. split; [by left|]. split; [done|].
    left. split; [by apply Qeq_bool_iff | done].
  - assert (Hnz : ¬ (totalWeightOf bs == 0)%Q).
    { intros H. apply Qeq_bool_iff in H. congruence. }
    unfold bind, mathRandom. cbn beta iota.
    set (random := (Math_random host (draws w) * totalWeightOf bs)%Q).
    destruct (walk random bs) as [b|] eqn:Hwalk.
    + destruct (walk_Some _ _ _ Hwalk) as (pre & post & Hbs & Hstop & Hbefore).
      eexists b, _. split; [reflexivity|]. split.
      { rewrite Hbs. apply in_or_app. right. by left. }
      split; [done|]. right. split; [done|]. by eapply StopsAt.
    + destruct (last_nonempty bs Hne) as [b Hb].
      eexists b, _. rewrite Hb. split; [reflexivity|].
      split; [by apply last_In|]. split; [done|]. right. split; [done|].
      apply FallsBack; [done|]. by apply walk_None.
Qed.

Lemma getRegionalBackends_sub backends c b :
  In b (getRegionalBackends backends c) → In b backends.
Proof.
  unfold getRegionalBackends.
  destruct (_ || _); [done|].
  destruct (REGION_MAP !! toUpperCase c) as [p|]; [|done].
  destruct (Nat.eqb _ 0); intros H; apply filter_In in H; tauto.
Qed.

Lemma candidateBackendsOf_sub backends info b :
  In b (candidateBackendsOf backends info) → In b backends.
Proof.
  unfold candidateBackendsOf. destruct (Nat.ltb _ _); [|done].
  apply getRegionalBackends_sub.
Qed.

Lemma candidateBackendsOf_nonempty backends info :
  backends ≠ [] → candidateBackendsOf backends info ≠ [].
Proof.
  intros Hne. unfold candidateBackendsOf.
  destruct (Nat.ltb_spec 0 (length (getRegionalBackends backends (country info))))
    as [Hlt|Hge]; [|done].
  intros E. rewrite E in Hlt. simpl in Hlt. lia.
Qed.

Lemma weightedBackendsOf_same backends m b :
  In b (weightedBackendsOf backends m) → sameBackendIn b backends.
Proof.
  unfold weightedBackendsOf. intros H. apply in_map_iff in H.
  destruct H as (b' & <- & Hin). by exists b'.
Qed.

Lemma weightedBackendsOf_nonempty backends m :
  backends ≠ [] → weightedBackendsOf backends m ≠ [].
Proof. destruct backends; [done|]. intros _. unfold weightedBackendsOf. done. Qed.

Lemma sameBackendIn_here b bs : In b bs → sameBackendIn b bs.
Proof. intros H. by exists b. Qed.

Lemma sameBackendIn_sub b bs bs' :
  (∀ x, In x bs → In x bs') → sameBackendIn b bs → sameBackendIn b bs'.
Proof. intros Hsub (b' & Hin & ?). exists b'. auto. Qed.

(** C10: on a non-empty list [selectBackend] returns (it does not yield
    [undefined] and does not throw) a backend with the url and region
    of a member of the input, touching nothing but the random source;
    it is the only backend, or the first of the walked list when the
    total weight is 0, or the candidate at which the remaining draw is
    not positive, or else the last one. *)
Theorem selectBackend_returns_member (host : Host) (backends : list BackendConfig)
    (requestInfo : RequestInfo) (metrics : option (gmap string BackendMetrics))
    (w : World) :
  backends ≠ [] →
  ∃ b w',
    selectBackend host backends requestInfo metrics w = (Ok (Some b), w')
    ∧ sameBackendIn b backends
    ∧ onlyDraws w w'
    ∧ (length backends = 1%nat ∧ head backends = Some b
       ∨ let walked := walkedBackends backends requestInfo metrics in
         length backends ≠ 1%nat ∧ In b walked
         ∧ ((totalWeightOf walked == 0)%Q ∧ head walked = Some b
            ∨ ¬ (totalWeightOf walked == 0)%Q
              ∧ WalkEnds (Math_random host (draws w) * totalWeightOf walked)%Q
                  walked b)).
Proof.
  intros Hne. unfold selectBackend.
  destruct (Nat.eqb_spec (length backends) 1) as [H1|H1].
  - destruct backends as [|b rest]; [done|].
    exists b, w. split; [done|]. split; [apply sameBackendIn_here; by left|].
    split; [done|]. by left.
  - pose proof (candidateBackendsOf_nonempty backends requestInfo Hne) as Hc.
    assert (Hwalked : walkedBackends backends requestInfo metrics ≠ []).
    { unfold walkedBackends. destruct metrics as [m|]; [|done].
      destruct (Nat.ltb 0 (size m)); [|done].
      by apply weightedBackendsOf_nonempty. }
    assert (Hsame : ∀ b, In b (walkedBackends backends requestInfo metrics) →
                         sameBackendIn b backends).
    { intros b Hb. unfold walkedBackends in Hb. destruct metrics as [m|].
      - destruct (Nat.ltb 0 (size m)).
        + apply weightedBackendsOf_same in Hb.
          eapply sameBackendIn_sub; [|exact Hb]. apply candidateBackendsOf_sub.
        + apply sameBackendIn_here. by eapply candidateBackendsOf_sub.
      - apply sameBackendIn_here. by eapply candidateBackendsOf_sub. }
    destruct (weightedRandomSelect_spec host _ w Hwalked)
      as (b & w' & Hrun & Hin & Hdraws & Hexit).
    exists b, w'. split.
    { rewrite <- Hrun. unfold walkedBackends, selectByPerformance.
      destruct metrics as [m|]; [|done]. by destruct (Nat.ltb 0 (size m)). }
    split; [by apply Hsame|]. split; [done|]. right. cbv zeta. done.
Qed.

(** ** Regional narrowing *)

Lemma exactRegion_bool p b :
  String.eqb (toLowerCase (region b)) (toLowerCase p) = true ↔ exactRegion p b.
Proof. unfold exactRegion. apply String.eqb_eq. Qed.

Lemma partialRegion_bool p b :
  existsb (λ part, includes (toLowerCase (region b)) part) (split "-" p) = true
  ↔ partialRegion p b.
Proof.
  unfold partialRegion. rewrite existsb_exists, Exists_exists.
  split; intros (part & Hin & Hocc); exists part.
  - split; [by apply list_elem_of_In | by apply includes_spec].
  - split; [by apply list_elem_of_In | by apply includes_spec].
Qed.

Lemma mapped_country_known (c p : string) :
  REGION_MAP !! toUpperCase c = Some p →
  (String.eqb c "" || String.eqb c "unknown") = false.
Proof.
  intros H.
  destruct (String.eqb_spec c "") as [->|_]; [vm_compute in H; discriminate|].
  destruct (String.eqb_spec c "unknown") as [->|_]; [vm_compute in H; discriminate|].
  done.
Qed.

Lemma filter_reflects {A} (f g : A → bool) (P : A → Prop) (l : list A) :
  (∀ x, f x = true ↔ P x) → (∀ x, g x = true ↔ P x) → List.filter f l = List.filter g l.
Proof.
  intros Hf Hg. apply List.filter_ext. intros x.
  destruct (f x) eqn:Ef, (g x) eqn:Eg; try done.
  - apply Hf, Hg in Ef. congruence.
  - apply Hg, Hf in Eg. congruence.
Qed.

Lemma filter_nonempty {A} (f : A → bool) (P : A → Prop) (l : list A) :
  (∀ x, f x = true ↔ P x) → List.filter f l ≠ [] ↔ ∃ x, In x l ∧ P x.
Proof.
  intros Hf. split.
  - destruct (List.filter f l) as [|x xs] eqn:E; [done|]. intros _.
    assert (Hx : In x (List.filter f l)) by (rewrite E; by left).
    apply filter_In in Hx. exists x. split; [tauto|]. apply Hf. tauto.
  - intros (x & Hin & HP) E.
    assert (Hx : In x (List.filter f l)) by (apply filter_In; split; [done | by apply Hf]).
    rewrite E in Hx. done.
Qed.

Lemma filter_sublist {A} (f : A → bool) (l : list A) : sublist (List.filter f l) l.
Proof.
  induction l as [|x l IH]; simpl; [constructor|].
  destruct (f x); by constructor.
Qed.

(** The candidates of a mapped country, by the two filters of the code. *)
Lemma candidateBackendsOf_mapped backends info p :
  REGION_MAP !! toUpperCase (country info) = Some p →
  candidateBackendsOf backends info =
    match
      List.filter (λ backend,
        String.eqb (toLowerCase (region backend)) (toLowerCase p)) backends,
      List.filter (λ backend,
        existsb (λ part, includes (toLowerCase (region backend)) part) (split "-" p))
        backends
    with
    | e :: es, _ => e :: es
    | [], q :: qs => q :: qs
    | [], [] => backends
    end.
Proof.
  intros H. unfold candidateBackendsOf, getRegionalBackends.
  rewrite (mapped_country_known _ p H), H.
  destruct (List.filter _ backends) as [|e es]; [|done].
  cbn [length Nat.eqb]. by destruct (List.filter _ backends).
Qed.

Lemma transientWeight_single (s : Q) : transientWeight (Some (s + 1)%Q) (Some s) = 1.
Proof.
  unfold transientWeight. destruct (Qeq_bool s 0) eqn:E.
  - apply Qeq_bool_iff in E.
    assert (Hq : (s + 1 - 50 == -49 # 1)%Q) by (rewrite E; reflexivity).
    rewrite Hq. reflexivity.
  - assert (Hq : (s + 1 - s == 1)%Q) by ring.
    rewrite Hq. reflexivity.
Qed.

Lemma scoresOf_single b m : ∃ s, scoresOf [b] m = {[url b := s]}.
Proof.
  unfold scoresOf, scoreStep. simpl.
  destruct (m !! url b) as [metric|]; [destruct (requests metric =? 0)|];
    eexists; apply insert_empty.
Qed.

Lemma weightedBackendsOf_single b m :
  weight b = 1%Q → weightedBackendsOf [b] m = [b].
Proof.
  intros Hw. unfold weightedBackendsOf.
  destruct (scoresOf_single b m) as [s ->].
  unfold maxScoreOf. rewrite map_to_list_singleton.
  cbn [fmap list_fmap snd Math_max fold_left map].
  rewrite lookup_singleton_eq, transientWeight_single.
  destruct b as [u wt r]. simpl in *. by subst.
Qed.

Lemma weightedRandomSelect_single host b w :
  weight b = 1%Q → ∃ w', weightedRandomSelect host [b] w = (Ok (Some b), w').
Proof.
  intros Hw. unfold weightedRandomSelect, totalWeightOf. simpl. rewrite Hw.
  change (Qeq_bool (0 + 1) 0) with false. cbv beta iota.
  unfold bind, mathRandom. cbn beta iota.
  destruct (Qle_bool _ 0); eauto.
Qed.

Lemma candidateBackendsOf_JP info :
  toUpperCase (country info) = "JP" →
  candidateBackendsOf [GeoScenario.A; GeoScenario.B] info = [GeoScenario.B].
Proof.
  intros HJP.
  assert (H : REGION_MAP !! toUpperCase (country info) = Some "asia-northeast")
    by (rewrite HJP; reflexivity).
  unfold candidateBackendsOf, getRegionalBackends.
  rewrite (mapped_country_known _ _ H), H. reflexivity.
Qed.

Lemma candidateBackendsOf_only b info : candidateBackendsOf [b] info = [b].
Proof.
  unfold candidateBackendsOf, getRegionalBackends.
  destruct (_ || _); [done|].
  destruct (REGION_MAP !! _) as [p|]; [|done].
  cbn [List.filter].
  destruct (String.eqb _ _); [done|]. cbn [length Nat.eqb].
  by destruct (existsb _ _).
Qed.

(** The selection is made among the candidates: the only backend, or a
    candidate that the weighted walk returns, by its own weight or by
    the weight that its score gives it. *)
Lemma selectBackend_among_candidates host bs info ms w :
  bs ≠ [] →
  ∃ b w', selectBackend host bs info ms w = (Ok (Some b), w')
          ∧ sameBackendIn b (candidateBackendsOf bs info).
Proof.
  intros Hne. unfold selectBackend.
  destruct (Nat.eqb_spec (length bs) 1) as [Hone|_].
  { destruct bs as [|b [|]]; try done. exists b, w. split; [done|].
    apply sameBackendIn_here. rewrite candidateBackendsOf_only. by left. }
  pose proof (candidateBackendsOf_nonempty bs info Hne) as Hc.
  assert (Hplain : ∃ b w', weightedRandomSelect host (candidateBackendsOf bs info) w
                           = (Ok (Some b), w')
                           ∧ sameBackendIn b (candidateBackendsOf bs info)).
  { destruct (weightedRandomSelect_spec host _ w Hc) as (b & w' & E & Hin & _).
    exists b, w'. split; [done|]. by apply sameBackendIn_here. }
  destruct ms as [m|]; [|exact Hplain].
  destruct (Nat.ltb 0 (size m)); [|exact Hplain].
  unfold selectByPerformance.
  destruct (weightedRandomSelect_spec host _ w (weightedBackendsOf_nonempty _ m Hc))
    as (b & w' & E & Hin & _).
  exists b, w'. split; [done|]. by eapply weightedBackendsOf_same.
Qed.

(** C6: when the country maps (in any case) to a preferred region, the
    candidates are the backends, in their order, whose region equals the
    preferred one up to case; only if there is none, those whose
    lower-cased region contains a dash-separated part of the preferred
    region; if there is none either, all backends; and the backend that
    the selector returns is one of these candidates (by url and region:
    the performance weighting rebuilds the records with other weights).
    With A in us-west, B in asia-east and country JP the narrowed set
    is [B] and the selection returns B, whatever the metrics and the
    random draw. *)
Theorem regional_narrowing (host : Host) (backends : list BackendConfig)
    (requestInfo : RequestInfo) (preferredRegion : string)
    (metrics : option (gmap string BackendMetrics)) (w : World) :
  REGION_MAP !! toUpperCase (country requestInfo) = Some preferredRegion →
  let narrowed := candidateBackendsOf backends requestInfo in
  let anyExact := ∃ b, In b backends ∧ exactRegion preferredRegion b in
  let anyPartial := ∃ b, In b backends ∧ partialRegion preferredRegion b in
  sublist narrowed backends
  ∧ (anyExact →
     ∀ f, (∀ b, f b = true ↔ exactRegion preferredRegion b) →
          narrowed = List.filter f backends)
  ∧ (¬ anyExact → anyPartial →
     ∀ f, (∀ b, f b = true ↔ partialRegion preferredRegion b) →
          narrowed = List.filter f backends)
  ∧ (¬ anyExact → ¬ anyPartial → narrowed = backends)
  ∧ (backends ≠ [] →
     ∃ b w', selectBackend host backends requestInfo metrics w = (Ok (Some b), w')
             ∧ sameBackendIn b narrowed)
  ∧ (toUpperCase (country requestInfo) = "JP" →
     candidateBackendsOf [GeoScenario.A; GeoScenario.B] requestInfo = [GeoScenario.B]
     ∧ ∃ w', selectBackend host [GeoScenario.A; GeoScenario.B] requestInfo metrics w
             = (Ok (Some GeoScenario.B), w')).
Proof.
  intros H narrowed anyExact anyPartial.
  pose proof (candidateBackendsOf_mapped backends requestInfo _ H) as Hn.
  fold narrowed in Hn.
  set (fe := λ backend : BackendConfig,
         String.eqb (toLowerCase (region backend)) (toLowerCase preferredRegion)) in Hn.
  set (fp := λ backend : BackendConfig,
         existsb (λ part, includes (toLowerCase (region backend)) part)
           (split "-" preferredRegion)) in Hn.
  pose proof (filter_nonempty fe _ backends (exactRegion_bool preferredRegion)) as He.
  pose proof (filter_nonempty fp _ backends (partialRegion_bool preferredRegion)) as Hp.
  fold anyExact in He. fold anyPartial in Hp.
  split; [|split; [|split; [|split; [|split]]]].
  - rewrite Hn. destruct (List.filter fe backends) eqn:Ee.
    + destruct (List.filter fp backends) eqn:Ep; [done|].
      rewrite <- Ep. apply filter_sublist.
    + rewrite <- Ee. apply filter_sublist.
  - intros Hany f Hf. apply He in Hany.
    rewrite <- (filter_reflects fe f _ backends (exactRegion_bool preferredRegion) Hf).
    rewrite Hn. by destruct (List.filter fe backends).
  - intros Hno Hany f Hf. apply Hp in Hany.
    assert (Ee : List.filter fe backends = []).
    { destruct (List.filter fe backends) eqn:E; [done|].
      exfalso. apply Hno, He. done. }
    rewrite <- (filter_reflects fp f _ backends (partialRegion_bool preferredRegion) Hf).
    rewrite Hn, Ee. by destruct (List.filter fp backends).
  - intros Hno Hnp.
    assert (Ee : List.filter fe backends = []).
    { destruct (List.filter fe backends) eqn:E; [done|].
      exfalso. apply Hno, He. done. }
    assert (Ep : List.filter fp backends = []).
    { destruct (List.filter fp backends) eqn:E; [done|].
      exfalso. apply Hnp, Hp. done. }
    by rewrite Hn, Ee, Ep.
  - intros Hne. by apply selectBackend_among_candidates.
  - intros HJP. pose proof (candidateBackendsOf_JP _ HJP) as Hc.
    split; [done|].
    unfold selectBackend. rewrite Hc.
    change (Nat.eqb (length [GeoScenario.A; GeoScenario.B]) 1) with false.
    cbv iota.
    destruct metrics as [m|].
    + destruct (Nat.ltb 0 (size m)).
      * unfold selectByPerformance. rewrite weightedBackendsOf_single by done.
        by apply weightedRandomSelect_single.
      * by apply weightedRandomSelect_single.
    + by apply weightedRandomSelect_single.
Qed.

(** ** Performance weighting *)

Lemma transientWeight_nonzero (maxScore s : Q) :
  ¬ (s == 0)%Q → transientWeight (Some maxScore) (Some s) = specWeight maxScore s.
Proof.
  intros Hs. unfold transientWeight, specWeight.
  destruct (Qeq_bool s 0) eqn:E; [|done].
  apply Qeq_bool_iff in E. done.
Qed.

Lemma transientWeight_zero (maxScore s : Q) :
  (s == 0)%Q → transientWeight (Some maxScore) (Some s) = specWeight maxScore 50.
Proof.
  intros Hs. unfold transientWeight, specWeight.
  apply Qeq_bool_iff in Hs. by rewrite Hs.
Qed.

(** C4, at a candidate whose score is 0: the scores are 0 for A and 50
    for B, so maxScore is 51 and the specified weight of A is 51; the
    code reads the score through [|| 50], takes the 0 for a missing
    entry and gives A the weight 1.  With the draw 0.9 the selection
    returns B; under the weights 51 and 1 the walk would stop at A. *)
Theorem zero_score_weight :
  (∃ sA sB, scoresOf [ScoreScenario.A; ScoreScenario.B] ScoreScenario.observed !! "A"
            = Some sA ∧ (sA == 0)%Q
          ∧ scoresOf [ScoreScenario.A; ScoreScenario.B] ScoreScenario.observed !! "B"
            = Some sB ∧ (sB == 50)%Q)
  ∧ (∃ m, maxScoreOf (scoresOf [ScoreScenario.A; ScoreScenario.B] ScoreScenario.observed)
          = Some m ∧ (m == 51)%Q)
  ∧ specWeight 51 0 = 51
  ∧ weightedBackendsOf [ScoreScenario.A; ScoreScenario.B] ScoreScenario.observed
    = [ScoreScenario.A; ScoreScenario.B]
  ∧ fst (selectBackend ScoreScenario.host [ScoreScenario.A; ScoreScenario.B]
           ScoreScenario.requestInfo (Some ScoreScenario.observed) ScoreScenario.world)
    = Ok (Some ScoreScenario.B)
  ∧ walk ((9 # 10) * (51 + 1))%Q
      [ {| url := "A"; weight := 51; region := "global" |}; ScoreScenario.B ]
    = Some {| url := "A"; weight := 51; region := "global" |}.
Proof.
  split.
  { eexists _, _. split; [vm_compute; reflexivity|]. split; [reflexivity|].
    split; [vm_compute; reflexivity|]. reflexivity. }
  split.
  { eexists. split; [vm_compute; reflexivity|]. reflexivity. }
  split; [reflexivity|].
  split; [vm_compute; reflexivity|].
  split; vm_compute; reflexivity.
Qed.

(** ** Reasoning about runs *)

Section Preservation.
Context (P : World → Prop).

Lemma preserves_ret {A} (a : A) : preserves P (ret a).
Proof. by intros w. Qed.

Lemma preserves_throw {A} (e : JsError) : preserves P (@throw A e).
Proof. by intros w. Qed.

Lemma preserves_get : preserves P get.
Proof. by intros w. Qed.

Lemma preserves_bind {A B} (m : M A) (k : A → M B) :
  preserves P m → (∀ a, preserves P (k a)) → preserves P (bind m k).
Proof.
  intros Hm Hk w Hw. specialize (Hm w Hw).
  unfold exec, bind in *. destruct (m w) as [[a|e] w']; simpl in *; [|done].
  by apply Hk.
Qed.

Lemma preserves_try_catch {A} (m : M A) (h : JsError → M A) :
  preserves P m → (∀ e, preserves P (h e)) → preserves P (try_catch m h).
Proof.
  intros Hm Hh w Hw. specialize (Hm w Hw).
  unfold exec, try_catch in *. destruct (m w) as [[a|e] w']; simpl in *; [done|].
  by apply Hh.
Qed.

Lemma preserves_settle {A} (m : M A) : preserves P m → preserves P (settle m).
Proof.
  intros Hm w Hw. specialize (Hm w Hw).
  unfold exec, settle in *. by destruct (m w).
Qed.

End Preservation.

(** Case analysis on the scrutinee of the computation in the goal. *)
Ltac pres_case :=
  match goal with
  | |- preserves _ (match ?x with _ => _ end) => destruct x eqn:?
  | |- preserves _ (let '(_, _) := ?x in _) => destruct x eqn:?
  end.

(** Walks through a computation built from the monad's combinators;
    [leaf] closes the calls that have a lemma of their own and is tried
    before a call is opened up. *)
Ltac pres_with leaf :=
  repeat first
    [ assumption
    | leaf
    | apply preserves_bind; [|intros ?]
    | apply preserves_try_catch; [|intros ?]
    | apply preserves_settle
    | apply preserves_ret
    | apply preserves_throw
    | apply preserves_get
    | pres_case ].

(** *** A property of the Health and Metrics tables that every write of
    the handler keeps is kept by the handling of a request. *)
Section HandlerPreserves.
Context (host : Host) (config : ProxyConfig) (P : World → Prop).
Hypothesis P_frame :
  ∀ w w', healthStatus w' = healthStatus w → metrics w' = metrics w →
          cache w' = cache w → P w → P w'.
Hypothesis P_cache : ∀ f w, P w → P (set_cache f w).
Hypothesis P_healthy :
  ∀ u w, P w → P (set_healthStatus (alter ProxyHandler.healthy u) w).
Hypothesis P_failed :
  ∀ u w, P w → P (set_healthStatus (alter (ProxyHandler.failed config) u) w).
Hypothesis P_checked :
  ∀ now u w, P w → P (set_healthStatus (alter (ProxyHandler.checked now) u) w).
Hypothesis P_update :
  ∀ u d s w, P w → P (exec (ProxyHandler.updateMetrics u d s) w).

Lemma preserves_mathRandom : preserves P (mathRandom host).
Proof. intros w Hw. by eapply P_frame; [..|exact Hw]. Qed.

Lemma preserves_dateNow : preserves P (dateNow host).
Proof. by intros w. Qed.

Lemma preserves_fetch rq : preserves P (fetch host rq).
Proof. intros w Hw. by eapply P_frame; [..|exact Hw]. Qed.

Lemma preserves_sleep ms : preserves P (sleep ms).
Proof. intros w Hw. by eapply P_frame; [..|exact Hw]. Qed.

Lemma preserves_emit e : preserves P (modify (emit e)).
Proof. intros w Hw. by eapply P_frame; [..|exact Hw]. Qed.

Lemma preserves_set_cache f : preserves P (modify (set_cache f)).
Proof. intros w Hw. by apply P_cache. Qed.

Lemma preserves_markBackendHealthy u : preserves P (ProxyHandler.markBackendHealthy u).
Proof. intros w Hw. by apply P_healthy. Qed.

Lemma preserves_markBackendUnhealthy u :
  preserves P (ProxyHandler.markBackendUnhealthy config u).
Proof. intros w Hw. by apply P_failed. Qed.

Lemma preserves_updateMetrics u d s : preserves P (ProxyHandler.updateMetrics u d s).
Proof. intros w Hw. by apply P_update. Qed.

Lemma preserves_checked now u :
  preserves P (modify (set_healthStatus (alter (ProxyHandler.checked now) u))).
Proof. intros w Hw. by apply P_checked. Qed.

(** The steps that touch the world directly. *)
Ltac pres_prim :=
  first
    [ apply preserves_mathRandom | apply preserves_dateNow | apply preserves_fetch
    | apply preserves_sleep | apply preserves_emit
    | apply preserves_markBackendHealthy | apply preserves_markBackendUnhealthy
    | apply preserves_updateMetrics | apply preserves_checked ].

Lemma preserves_createErrorResponse msg st :
  preserves P (Helpers.createErrorResponse host msg st).
Proof. unfold Helpers.createErrorResponse. pres_with pres_prim. Qed.

Lemma preserves_weightedRandomSelect bs : preserves P (weightedRandomSelect host bs).
Proof. unfold weightedRandomSelect. pres_with pres_prim. Qed.

Lemma preserves_selectBackend bs info ms : preserves P (selectBackend host bs info ms).
Proof.
  unfold selectBackend, selectByPerformance.
  pres_with ltac:(apply preserves_weightedRandomSelect).
Qed.

Lemma preserves_attempts fuel attempt rq lastError :
  preserves P (ProxyService.attempts host config fuel attempt rq lastError).
Proof.
  revert attempt lastError. induction fuel as [|fuel IH]; intros attempt lastError;
    cbn [ProxyService.attempts]; pres_with ltac:(first [pres_prim | apply IH]).
Qed.

Lemma preserves_proxyRequest request backend :
  preserves P (ProxyService.proxyRequest host config request backend).
Proof. apply preserves_attempts. Qed.

Lemma preserves_checkBackendHealth backend :
  preserves P (ProxyHandler.checkBackendHealth host config backend).
Proof. unfold ProxyHandler.checkBackendHealth. pres_with pres_prim. Qed.

Lemma preserves_checkStale now bs :
  preserves P (ProxyHandler.checkStale host config now bs).
Proof.
  induction bs as [|b bs IH]; cbn [ProxyHandler.checkStale];
    pres_with ltac:(apply preserves_checkBackendHealth).
Qed.

Lemma preserves_getHealthyBackends :
  preserves P (ProxyHandler.getHealthyBackends host config).
Proof.
  unfold ProxyHandler.getHealthyBackends.
  pres_with ltac:(first [pres_prim | apply preserves_checkStale]).
Qed.

Lemma preserves_failover fuel i count request info bs lastError :
  preserves P (ProxyHandler.failover host config fuel i count request info bs lastError).
Proof.
  revert i lastError. induction fuel as [|fuel IH]; intros i lastError;
    cbn [ProxyHandler.failover];
    pres_with ltac:(first [pres_prim | apply preserves_selectBackend
                          | apply preserves_proxyRequest | apply IH]).
Qed.

Lemma preserves_getCachedResponse request :
  preserves P (ProxyHandler.getCachedResponse request).
Proof. unfold ProxyHandler.getCachedResponse. pres_with pres_prim. Qed.

Lemma preserves_proxyRequestWithFallback request requestId bs :
  preserves P (ProxyHandler.proxyRequestWithFallback host config request requestId bs).
Proof. apply preserves_failover. Qed.

Lemma preserves_cachePut key response : preserves P (cachePut host key response).
Proof.
  intros w Hw. unfold exec, cachePut.
  destruct (cache_put host (length (history w)) key response); cbn [snd].
  - apply P_cache. by eapply P_frame; [..|exact Hw].
  - by eapply P_frame; [..|exact Hw].
Qed.

Lemma preserves_cacheResponse request response :
  preserves P (ProxyHandler.cacheResponse host config request response).
Proof.
  unfold ProxyHandler.cacheResponse.
  pres_with ltac:(first [pres_prim | apply preserves_cachePut]).
Qed.

Lemma preserves_handleRequest request :
  preserves P (ProxyHandler.handleRequest host config request).
Proof.
  unfold ProxyHandler.handleRequest, ProxyHandler.handleRequestBody,
    Helpers.generateRequestId.
  pres_with ltac:(first
    [ pres_prim | apply preserves_createErrorResponse
    | apply preserves_getCachedResponse | apply preserves_getHealthyBackends
    | apply preserves_proxyRequestWithFallback | apply preserves_cacheResponse ]).
Qed.

End HandlerPreserves.

(** ** The tables after construction *)

Lemma initStep_fold bs hs ms u :
  (fold_left initStep bs (hs, ms)).1 !! u
    = (if decide (u ∈ map url bs) then Some ProxyHandler.initialHealth else hs !! u)
  ∧ (fold_left initStep bs (hs, ms)).2 !! u
    = (if decide (u ∈ map url bs) then Some ProxyHandler.initialMetrics else ms !! u).
Proof.
  revert hs ms. induction bs as [|b bs IH]; intros hs ms.
  - simpl. done.
  - cbn [fold_left map].
    change (initStep (hs, ms) b)
      with (<[url b:=initialHealth]> hs, <[url b:=initialMetrics]> ms).
    destruct (IH (<[url b:=ProxyHandler.initialHealth]> hs)
      (<[url b:=ProxyHandler.initialMetrics]> ms)) as [Hh Hm].
    rewrite Hh, Hm. clear Hh Hm.
    destruct (decide (u ∈ map url bs)) as [Hin|Hnin].
    + rewrite !decide_True by (by right). done.
    + destruct (decide (u = url b)) as [->|Hne].
      * rewrite !decide_True by (by left). by rewrite !lookup_insert_eq.
      * rewrite !decide_False by (intros [?|?]%elem_of_cons; done).
        by rewrite !lookup_insert_ne.
Qed.

Lemma constructor_tables config cache0 w0 :
  ProxyHandler.constructor config cache0 = Ok w0 →
  (∀ u, healthStatus w0 !! u
        = if decide (u ∈ map url (backends config))
          then Some ProxyHandler.initialHealth else None)
  ∧ (∀ u, metrics w0 !! u
          = if decide (u ∈ map url (backends config))
            then Some ProxyHandler.initialMetrics else None)
  ∧ cache w0 = cache0 ∧ history w0 = [] ∧ draws w0 = 0%nat.
Proof.
  unfold ProxyHandler.constructor.
  destruct (ConfigLoader.validateConfig config); [|done].
  pose proof (λ u, initStep_fold (backends config) ∅ ∅ u) as Hfold.
  intros [= <-]. cbn [healthStatus metrics cache history draws].
  split; [intros u; by destruct (Hfold u) as [-> _]|].
  split; [intros u; by destruct (Hfold u) as [_ ->]|]. done.
Qed.

Lemma allHealth_alter (Q : BackendHealth → Prop) f u w :
  (∀ h, Q h → Q (f h)) → allHealth Q w → allHealth Q (set_healthStatus (alter f u) w).
Proof.
  intros Hf Hw k h. simpl. rewrite lookup_alter. case_decide as Hk.
  - subst k. destruct (healthStatus w !! u) as [h0|] eqn:E; [|done].
    intros [= <-]. apply Hf. by eapply Hw.
  - apply Hw.
Qed.

Lemma allMetrics_alter (Q : BackendMetrics → Prop) f u w :
  (∀ m, Q m → Q (f m)) → allMetrics Q w → allMetrics Q (set_metrics (alter f u) w).
Proof.
  intros Hf Hw k m. simpl. rewrite lookup_alter. case_decide as Hk.
  - subst k. destruct (metrics w !! u) as [m0|] eqn:E; [|done].
    intros [= <-]. apply Hf. by eapply Hw.
  - apply Hw.
Qed.

Lemma allHealth_constructor (Q : BackendHealth → Prop) config cache0 w0 :
  Q ProxyHandler.initialHealth →
  ProxyHandler.constructor config cache0 = Ok w0 → allHealth Q w0.
Proof.
  intros HQ Hc u h. destruct (constructor_tables _ _ _ Hc) as (Hh & _).
  rewrite Hh. case_decide; [|done]. by intros [= <-].
Qed.

Lemma allMetrics_constructor (Q : BackendMetrics → Prop) config cache0 w0 :
  Q ProxyHandler.initialMetrics →
  ProxyHandler.constructor config cache0 = Ok w0 → allMetrics Q w0.
Proof.
  intros HQ Hc u m. destruct (constructor_tables _ _ _ Hc) as (_ & Hm & _).
  rewrite Hm. case_decide; [|done]. by intros [= <-].
Qed.

(** ** The circuit breaker *)

Lemma healthInvariant_healthy config h :
  0 < circuitBreakerThreshold config → healthInvariant config (healthy h).
Proof. intros HT. unfold healthInvariant. simpl. done. Qed.

Lemma healthInvariant_failed config h : healthInvariant config (failed config h).
Proof. unfold healthInvariant. simpl. apply Z.ltb_lt. Qed.

Lemma healthInvariant_checked config now h :
  healthInvariant config h → healthInvariant config (checked now h).
Proof. done. Qed.

Lemma updateMetrics_exec u d s w :
  exec (updateMetrics u d s) w =
    set_healthStatus (alter (λ health,
        {| isHealthy := isHealthy health;
           lastCheck := lastCheck health;
           consecutiveFailures := consecutiveFailures health;
           avgResponseTime := ((avgResponseTime health + inject_Z d) / 2)%Q |}) u)
      (set_metrics (alter (λ metrics,
        {| requests := requests metrics + 1;
           totalTime := totalTime metrics + d;
           errors := if negb s then errors metrics + 1 else errors metrics |}) u) w).
Proof. reflexivity. Qed.

Lemma allHealth_updateMetrics (Q : BackendHealth → Prop) u d s w :
  (∀ h a, Q h → Q {| isHealthy := isHealthy h; lastCheck := lastCheck h;
                     consecutiveFailures := consecutiveFailures h;
                     avgResponseTime := a |}) →
  allHealth Q w → allHealth Q (exec (updateMetrics u d s) w).
Proof.
  intros HQ Hw. rewrite updateMetrics_exec.
  apply allHealth_alter; [intros h; apply HQ|]. exact Hw.
Qed.

Lemma health_invariant_preserved host config request :
  0 < circuitBreakerThreshold config →
  preserves (allHealth (healthInvariant config)) (handleRequest host config request).
Proof.
  intros HT. apply preserves_handleRequest.
  - intros w w' Hh _ _ Hw u h. rewrite Hh. apply Hw.
  - by intros f w.
  - intros u w. apply allHealth_alter. intros h _. by apply healthInvariant_healthy.
  - intros u w. apply allHealth_alter. intros h _. apply healthInvariant_failed.
  - intros now u w. apply allHealth_alter. intros h. apply healthInvariant_checked.
  - intros u d s w. apply allHealth_updateMetrics. intros h a Hh. exact Hh.
Qed.

(** C3, for a threshold of at least 1: the invariant
    [isHealthy ⇔ consecutiveFailures < circuitBreakerThreshold] holds of
    every Health record after construction and is kept by
    [markBackendHealthy], [markBackendUnhealthy], a health probe and the
    handling of a whole request; a failure mark leaves the flag equal
    to the comparison of the incremented counter, a healthy mark
    leaves counter 0 and flag true. *)
Theorem health_invariant (host : Host) (config : ProxyConfig) :
  0 < circuitBreakerThreshold config →
  (∀ cache0 w0, constructor config cache0 = Ok w0 →
                allHealth (healthInvariant config) w0)
  ∧ (∀ u, preserves (allHealth (healthInvariant config)) (markBackendHealthy u))
  ∧ (∀ u, preserves (allHealth (healthInvariant config)) (markBackendUnhealthy config u))
  ∧ (∀ backend, preserves (allHealth (healthInvariant config))
                  (checkBackendHealth host config backend))
  ∧ (∀ request, preserves (allHealth (healthInvariant config))
                  (handleRequest host config request))
  ∧ (∀ u w h, healthStatus w !! u = Some h →
       ∃ h', healthStatus (exec (markBackendUnhealthy config u) w) !! u = Some h'
         ∧ consecutiveFailures h' = consecutiveFailures h + 1
         ∧ isHealthy h' = (consecutiveFailures h' <? circuitBreakerThreshold config))
  ∧ (∀ u w h, healthStatus w !! u = Some h →
       ∃ h', healthStatus (exec (markBackendHealthy u) w) !! u = Some h'
         ∧ consecutiveFailures h' = 0
         ∧ isHealthy h' = (consecutiveFailures h' <? circuitBreakerThreshold config)).
Proof.
  intros HT.
  assert (Hhealthy : ∀ u, preserves (allHealth (healthInvariant config))
                            (markBackendHealthy u)).
  { intros u w. apply allHealth_alter. intros h _. by apply healthInvariant_healthy. }
  assert (Hfailed : ∀ u, preserves (allHealth (healthInvariant config))
                           (markBackendUnhealthy config u)).
  { intros u w. apply allHealth_alter. intros h _. apply healthInvariant_failed. }
  split.
  { intros cache0 w0. apply allHealth_constructor.
    unfold healthInvariant. simpl. done. }
  split; [done|]. split; [done|]. split.
  { intros backend. apply preserves_checkBackendHealth.
    - intros w w' Hh _ _ Hw u h. rewrite Hh. apply Hw.
    - apply Hhealthy.
    - apply Hfailed.
    - intros now u w. apply allHealth_alter. intros h. apply healthInvariant_checked. }
  split; [intros request; by apply health_invariant_preserved|].
  split.
  - intros u w h Hh. eexists. split.
    { unfold exec, markBackendUnhealthy, modify. simpl.
      rewrite lookup_alter, decide_True by done. rewrite Hh. reflexivity. }
    done.
  - intros u w h Hh. eexists. split.
    { unfold exec, markBackendHealthy, modify. simpl.
      rewrite lookup_alter, decide_True by done. rewrite Hh. reflexivity. }
    simpl. split; [done|]. symmetry. by apply Z.ltb_lt.
Qed.

(** C3 as stated fails for the threshold 0: the configuration is
    loaded and accepted, and the freshly built Health record is healthy
    with a counter, 0, that is not below the threshold. *)
Lemma health_invariant_threshold_zero :
  ConfigLoader.loadConfig ThresholdScenario.env = ThresholdScenario.config
  ∧ ConfigLoader.validateConfig ThresholdScenario.config = Ok tt
  ∧ constructor ThresholdScenario.config ∅ = Ok ThresholdScenario.world
  ∧ healthStatus ThresholdScenario.world !! "https://a.example" = Some initialHealth
  ∧ isHealthy initialHealth = true
  ∧ ¬ (consecutiveFailures initialHealth
       < circuitBreakerThreshold ThresholdScenario.config)
  ∧ ¬ healthInvariant ThresholdScenario.config initialHealth.
Proof.
  split; [vm_compute; reflexivity|].
  split; [reflexivity|]. split; [vm_compute; reflexivity|].
  split; [vm_compute; reflexivity|]. split; [reflexivity|].
  split; [simpl; lia|]. unfold healthInvariant. simpl. intros [H _].
  specialize (H eq_refl). lia.
Qed.

(** ** Metrics *)

Lemma recordOutcomes_cons o rest w :
  exec (recordOutcomes (o :: rest)) w
  = exec (recordOutcomes rest)
      (exec (updateMetrics (backendUrl o) (duration o) (success o)) w).
Proof. reflexivity. Qed.

Lemma updateMetrics_invariant u d s w :
  allMetrics metricsInvariant w →
  allMetrics metricsInvariant (exec (updateMetrics u d s) w).
Proof.
  intros Hw. rewrite updateMetrics_exec. intros k m. simpl. revert k m.
  apply (allMetrics_alter metricsInvariant); [|exact Hw].
  intros m Hm. unfold metricsInvariant in *. simpl. destruct s; simpl; lia.
Qed.

Lemma updateMetrics_totalTime u d s w k m :
  0 ≤ d → metrics w !! k = Some m →
  ∃ m', metrics (exec (updateMetrics u d s) w) !! k = Some m'
        ∧ totalTime m ≤ totalTime m'.
Proof.
  intros Hd Hm. rewrite updateMetrics_exec. simpl. rewrite lookup_alter.
  case_decide as Hk.
  - subst k. rewrite Hm. eexists. split; [reflexivity|]. simpl. lia.
  - exists m. split; [done | lia].
Qed.

Lemma recordOutcomes_invariant outcomes w :
  allMetrics metricsInvariant w →
  allMetrics metricsInvariant (exec (recordOutcomes outcomes) w).
Proof.
  revert w. induction outcomes as [|o rest IH]; intros w Hw; [done|].
  rewrite recordOutcomes_cons. apply IH. by apply updateMetrics_invariant.
Qed.

Lemma recordOutcomes_totalTime outcomes w k m :
  Forall (λ o, 0 ≤ duration o) outcomes → metrics w !! k = Some m →
  ∃ m', metrics (exec (recordOutcomes outcomes) w) !! k = Some m'
        ∧ totalTime m ≤ totalTime m'.
Proof.
  intros Hd. revert w m. induction Hd as [|o rest Ho Hrest IH]; intros w m Hm.
  - exists m. split; [done | lia].
  - rewrite recordOutcomes_cons.
    destruct (updateMetrics_totalTime (backendUrl o) (duration o) (success o) w k m
                Ho Hm) as (m1 & Hm1 & Hle1).
    destruct (IH _ _ Hm1) as (m2 & Hm2 & Hle2).
    exists m2. split; [done | lia].
Qed.

(** The handling of a whole request keeps [errors ≤ requests]. *)
Lemma metrics_invariant_preserved host config request :
  preserves (allMetrics metricsInvariant) (handleRequest host config request).
Proof.
  apply preserves_handleRequest.
  - intros w w' _ Hm _ Hw u m. rewrite Hm. apply Hw.
  - by intros f w.
  - by intros u w.
  - by intros u w.
  - by intros now u w.
  - intros u d s w. apply updateMetrics_invariant.
Qed.

(** C7: from the records of a fresh handler (all counters 0), after any
    updates [before] every Metrics record has [errors ≤ requests]; and
    after any further updates [after] with non-negative durations the
    record still has it and its [totalTime] has not decreased.  The
    handling of a whole request keeps [errors ≤ requests] too. *)
Theorem metrics_invariant (config : ProxyConfig) (cache0 : gmap string Response)
    (w0 : World) (before after : list Outcome) :
  constructor config cache0 = Ok w0 →
  Forall (λ o, 0 ≤ duration o) after →
  allMetrics (λ m, requests m = 0 ∧ errors m = 0 ∧ totalTime m = 0) w0
  ∧ (∀ u m1, metrics (exec (recordOutcomes before) w0) !! u = Some m1 →
      errors m1 ≤ requests m1
      ∧ ∃ m2, metrics (exec (recordOutcomes after) (exec (recordOutcomes before) w0)) !! u
              = Some m2
          ∧ errors m2 ≤ requests m2
          ∧ totalTime m1 ≤ totalTime m2)
  ∧ (∀ host request,
       preserves (allMetrics metricsInvariant) (handleRequest host config request)).
Proof.
  intros Hc Hd. split; [by eapply allMetrics_constructor|].
  split; [|intros host request; apply metrics_invariant_preserved].
  assert (H0 : allMetrics metricsInvariant w0).
  { eapply allMetrics_constructor; [|exact Hc]. unfold metricsInvariant. simpl. lia. }
  pose proof (recordOutcomes_invariant before w0 H0) as H1.
  intros u m1 Hm1. split; [by apply (H1 u)|].
  destruct (recordOutcomes_totalTime after _ u m1 Hd Hm1) as (m2 & Hm2 & Hle).
  exists m2. split; [done|]. split; [|done].
  by apply (recordOutcomes_invariant after _ H1 u).
Qed.

(** ** The smoothed response time *)

(** C8: recording an outcome of duration [d] replaces [avgResponseTime]
    [a] by [(a + d) / 2] and leaves the rest of the Health record; on
    the record of a fresh handler the result is [d / 2], which differs
    from [d] unless [d] is 0. *)
Theorem avgResponseTime_recurrence (config : ProxyConfig)
    (cache0 : gmap string Response) (w0 w : World) (backend : BackendConfig)
    (u : string) (h : BackendHealth) (d : Z) (s : bool) :
  healthStatus w !! u = Some h →
  constructor config cache0 = Ok w0 →
  In backend (backends config) →
  (∃ h', healthStatus (exec (updateMetrics u d s) w) !! u = Some h'
     ∧ avgResponseTime h' = ((avgResponseTime h + inject_Z d) / 2)%Q
     ∧ isHealthy h' = isHealthy h
     ∧ consecutiveFailures h' = consecutiveFailures h
     ∧ lastCheck h' = lastCheck h)
  ∧ (∃ h0 h1, healthStatus w0 !! url backend = Some h0
       ∧ (avgResponseTime h0 == 0)%Q
       ∧ healthStatus (exec (updateMetrics (url backend) d s) w0) !! url backend = Some h1
       ∧ (avgResponseTime h1 == inject_Z d / 2)%Q
       ∧ (d ≠ 0 → ¬ (avgResponseTime h1 == inject_Z d)%Q)).
Proof.
  intros Hh Hc Hin. split.
  - eexists. split.
    { rewrite updateMetrics_exec. simpl.
      rewrite lookup_alter, decide_True by done. rewrite Hh. reflexivity. }
    done.
  - destruct (constructor_tables _ _ _ Hc) as (Hh0 & _).
    assert (H0 : healthStatus w0 !! url backend = Some initialHealth).
    { rewrite Hh0, decide_True; [done|].
      apply list_elem_of_In, in_map_iff. by exists backend. }
    eexists _, _. split; [exact H0|]. split; [reflexivity|]. split.
    { rewrite updateMetrics_exec. simpl.
      rewrite lookup_alter, decide_True by done. rewrite H0. reflexivity. }
    cbn [avgResponseTime initialHealth]. split.
    { unfold Qeq, Qdiv, Qmult, Qplus, Qinv, inject_Z. simpl. lia. }
    intros Hd Heq. apply Hd.
    unfold Qeq, Qdiv, Qmult, Qplus, Qinv, inject_Z in Heq. simpl in Heq. lia.
Qed.

(** ** The oversize check *)

(** C9: a request whose Content-Length parses to more than 10 MiB is
    answered 413 with the JSON error body; the history gains no event
    (no cache lookup, no fetch, no probe), the only random draw is the
    one of the request id (no selection), and the Health, Metrics and
    cache tables are left as they were. *)
Theorem oversize_rejected (host : Host) (config : ProxyConfig) (request : Request)
    (w : World) (contentLength : string) (n : Z) :
  headers_get (req_headers request) "Content-Length" = Some contentLength →
  parseInt contentLength None = Some n →
  10 * 1024 * 1024 < n →
  ∃ response w',
    handleRequest host config request w = (Ok response, w')
    ∧ status response = 413
    ∧ headers_get (headers response) "Content-Type" = Some "application/json"
    ∧ body response
      = JsonText [("error", JString "Request too large");
                  ("status", JNumber 413);
                  ("timestamp",
                   JString (toISOString host (Date_now host (length (history w)))))]
    ∧ history w' = history w
    ∧ draws w' = S (draws w)
    ∧ healthStatus w' = healthStatus w
    ∧ metrics w' = metrics w
    ∧ cache w' = cache w.
Proof.
  intros Hget Hparse Hn.
  assert (Hlarge : isRequestTooLarge request = true).
  { unfold isRequestTooLarge.
    change (headers_get (req_headers request) "content-length")
      with (headers_get (req_headers request) "Content-Length").
    rewrite Hget.
    destruct (String.eqb_spec contentLength "") as [->|_]; [discriminate|].
    rewrite Hparse. by apply Z.ltb_lt. }
  unfold handleRequest, handleRequestBody. rewrite Hlarge.
  eexists _, _. split; [reflexivity|]. simpl.
  repeat split; reflexivity.
Qed.

(** ** The forwarder's retries *)

Lemma bodyUsed_cons (b : Body) (e : Event) (events : list Event) :
  bodyUsed b events = true → bodyUsed b (e :: events) = true.
Proof.
  destruct b; [done| |]; cbn [bodyUsed existsb]; intros ->; apply orb_true_r.
Qed.

Lemma bodyUsed_sent (rq : FetchRequest) (events : list Event) :
  fetch_body rq ≠ NoBody → bodyUsed (fetch_body rq) (EvFetch rq :: events) = true.
Proof.
  intros Hb. destruct (fetch_body rq) eqn:E; [done| |];
    cbn [bodyUsed existsb]; rewrite E, bool_decide_eq_true_2 by done; reflexivity.
Qed.

(** One turn of the loop builds the request and sends it, unless the
    body is a stream that was sent before. *)
Lemma send_cases host rq w :
  (proxyRequest <- newRequest rq ;; fetch host proxyRequest) w
  = if bodyUsed (fetch_body rq) (history w) then (Throw disturbedStream, w)
    else (net_fetch host (length (history w)) rq, emit (EvFetch rq) w).
Proof. unfold newRequest, bind, get. cbn beta iota. by destruct (bodyUsed _ _). Qed.

Lemma send_bodiless host rq w :
  fetch_body rq = NoBody →
  (proxyRequest <- newRequest rq ;; fetch host proxyRequest) w
  = (net_fetch host (length (history w)) rq, emit (EvFetch rq) w).
Proof. intros H. by rewrite send_cases, H. Qed.

Lemma disturbedStream_retryable : isRetryableError disturbedStream = true.
Proof. reflexivity. Qed.

(** The loop, one turn unfolded. *)
Lemma attempts_step host config fuel attempt rq lastError w :
  attempts host config (S fuel) attempt rq lastError w
  = match (proxyRequest <- newRequest rq ;; fetch host proxyRequest) w with
    | (Ok response, w') => (Ok response, w')
    | (Throw error, w') =>
        if isRetryableError error
        then ((if attempt <? retryAttempts config - 1
               then sleep (2 ^ attempt * 1000) else ret tt) ;;;
              attempts host config fuel (attempt + 1) rq (Some error)) w'
        else (Throw error, w')
    end.
Proof.
  cbn [attempts]. unfold bind at 1. unfold settle.
  destruct ((proxyRequest <- newRequest rq ;; fetch host proxyRequest) w)
    as [[response|error] w']; [done|].
  cbn beta iota. by destruct (isRetryableError error).
Qed.

Lemma attempts_run host config rq (k : nat) :
  fetch_body rq = NoBody →
  ∀ (fuel : nat) (attempt : Z) (lastError : option JsError) (w : World),
  (k < fuel)%nat →
  attempt + Z.of_nat fuel = retryAttempts config →
  (∀ j, (j < k)%nat →
        ∃ e, net_fetch host (length (history w) + 2 * j) rq = Throw e
             ∧ isRetryableError e = true) →
  match net_fetch host (length (history w) + 2 * k) rq with
  | Ok response =>
      attempts host config fuel attempt rq lastError w
      = (Ok response, emitAll (retryEvents rq attempt k) w)
  | Throw e =>
      isRetryableError e = false ∨ S k = fuel →
      attempts host config fuel attempt rq lastError w
      = (Throw e, emitAll (retryEvents rq attempt k) w)
  end.
Proof.
  intros Hnb.
  induction k as [|k IH]; intros fuel attempt lastError w Hk Hfuel Hbefore.
  - destruct fuel as [|fuel]; [lia|].
    replace (length (history w) + 2 * 0)%nat with (length (history w)) by lia.
    rewrite !attempts_step, !(send_bodiless _ _ _ Hnb).
    destruct (net_fetch host (length (history w)) rq) as [response|e]; [done|].
    intros Hlast.
    destruct (isRetryableError e) eqn:He; [|done].
    destruct Hlast as [?|Hlast]; [done|].
    assert (fuel = 0%nat) as -> by lia.
    rewrite (proj2 (Z.ltb_ge _ _)) by lia.
    reflexivity.
  - destruct fuel as [|fuel]; [lia|].
    destruct (Hbefore 0%nat ltac:(lia)) as (e & He & Hretry).
    replace (length (history w) + 2 * 0)%nat with (length (history w)) in He by lia.
    assert (Hsleep : (attempt <? retryAttempts config - 1) = true)
      by (apply Z.ltb_lt; lia).
    set (w2 := emit (EvSleep (2 ^ attempt * 1000)) (emit (EvFetch rq) w)).
    assert (Hstep : ∀ le, attempts host config (S fuel) attempt rq le w
                    = attempts host config fuel (attempt + 1) rq (Some e) w2).
    { intros le. rewrite attempts_step, (send_bodiless _ _ _ Hnb), He, Hretry, Hsleep.
      reflexivity. }
    rewrite Hstep.
    specialize (IH fuel (attempt + 1) (Some e) w2 ltac:(lia) ltac:(lia)).
    assert (Hlen : ∀ j, (length (history w2) + 2 * j
                         = length (history w) + 2 * S j)%nat).
    { intros j. unfold w2. simpl. lia. }
    rewrite Hlen in IH.
    assert (Hfuel' : S (S k) = S fuel ↔ S k = fuel) by lia.
    destruct (net_fetch host (length (history w) + 2 * S k) rq) as [response|e'].
    + apply IH. intros j Hj. rewrite Hlen. apply Hbefore. lia.
    + intros Hlast. apply IH.
      * intros j Hj. rewrite Hlen. apply Hbefore. lia.
      * destruct Hlast as [?|Hlast]; [by left | right; lia].
Qed.

Lemma emitAll_retry rq attempt k w :
  emitAll (retryEvents rq attempt (S k)) w
  = emitAll (retryEvents rq (attempt + 1) k)
      (emit (EvSleep (2 ^ attempt * 1000)) (emit (EvFetch rq) w)).
Proof. reflexivity. Qed.



(** ** The failover loop *)

Lemma withBackendInfo_headers response backend :
  headers_get (headers (withBackendInfo response backend)) "X-Backend-URL"
    = Some (url backend)
  ∧ headers_get (headers (withBackendInfo response backend)) "X-Backend-Region"
    = Some (region backend).
Proof.
  unfold withBackendInfo, headers_get, headers_set. simpl. split.
  - rewrite lookup_insert_ne by done. apply lookup_insert_eq.
  - apply lookup_insert_eq.
Qed.

(** C1, as the code has it: in any turn of the failover loop in which
    the selected backend is forwarded to and answers with a status
    below 500, the loop ends with that response, annotated with
    X-Backend-URL and X-Backend-Region; the backend is marked healthy
    (counter 0, flag true) when the status is 2xx, and the Health table
    is left as it was for any other status below 500. *)
Theorem failover_below_500 (host : Host) (config : ProxyConfig) (fuel : nat)
    (i count : Z) (request : Request) (requestInfo : RequestInfo)
    (bs : list BackendConfig) (lastError : option JsError)
    (w w1 w2 : World) (backend : BackendConfig) (response : Response) :
  selectBackend host bs requestInfo (Some (metrics w)) w = (Ok (Some backend), w1) →
  proxyRequest host config request backend w1 = (Ok response, w2) →
  status response < 500 →
  ∃ w',
    failover host config (S fuel) i count request requestInfo bs lastError w
    = (Ok (withBackendInfo response backend), w')
    ∧ status (withBackendInfo response backend) = status response
    ∧ body (withBackendInfo response backend) = body response
    ∧ headers_get (headers (withBackendInfo response backend)) "X-Backend-URL"
      = Some (url backend)
    ∧ headers_get (headers (withBackendInfo response backend)) "X-Backend-Region"
      = Some (region backend)
    ∧ (ok response = true →
       w' = set_healthStatus (alter healthy (url backend)) w2
       ∧ ∀ h, healthStatus w2 !! url backend = Some h →
           ∃ h', healthStatus w' !! url backend = Some h'
                 ∧ consecutiveFailures h' = 0 ∧ isHealthy h' = true)
    ∧ (ok response = false → w' = w2).
Proof.
  intros Hsel Hfwd Hst.
  destruct (withBackendInfo_headers response backend) as [Hu Hr].
  cbn [failover]. unfold bind at 1. unfold get at 1. cbn beta iota.
  unfold bind at 1. rewrite Hsel. cbn beta iota.
  unfold bind at 1. unfold settle. rewrite Hfwd. cbn beta iota.
  destruct (ok response) eqn:Hok.
  - eexists. split; [reflexivity|]. repeat (split; [done|]). split; [|done].
    intros _. split; [reflexivity|]. intros h Hh. eexists. split.
    { simpl. rewrite lookup_alter, decide_True by done. rewrite Hh. reflexivity. }
    done.
  - rewrite (proj2 (Z.leb_gt 500 (status response))) by lia.
    eexists. split; [reflexivity|]. repeat (split; [done|]).
    by intros _.
Qed.

(** C1 as stated fails for a 4xx: in a fresh handler with backends A
    and B, A answers 503 (one failure is counted) and, selected again,
    answers 404.  The 404 is returned with A's headers, and A's counter
    is still 1: the backend was not marked healthy. *)
Lemma failover_404_not_marked_healthy :
  constructor PassThroughScenario.config ∅ = Ok PassThroughScenario.world
  ∧ fst (proxyRequestWithFallback PassThroughScenario.host PassThroughScenario.config
           PassThroughScenario.request 0%Q
           [PassThroughScenario.A; PassThroughScenario.B] PassThroughScenario.world)
    = Ok (withBackendInfo (PassThroughScenario.answer 404) PassThroughScenario.A)
  ∧ healthStatus
      (exec (proxyRequestWithFallback PassThroughScenario.host PassThroughScenario.config
               PassThroughScenario.request 0%Q
               [PassThroughScenario.A; PassThroughScenario.B])
         PassThroughScenario.world)
      !! url PassThroughScenario.A
    = Some {| isHealthy := true; lastCheck := 0; consecutiveFailures := 1;
              avgResponseTime := 0 |}.
Proof. repeat split; vm_compute; reflexivity. Qed.

(** ** What reaches the cache *)

Lemma cache_kept_by {A} (m : M A) w r w' :
  (∀ c, preserves (λ w, cache w = c) m) → m w = (r, w') → cache w' = cache w.
Proof.
  intros H E. specialize (H (cache w) w eq_refl). unfold exec in H.
  by rewrite E in H.
Qed.

(** The side conditions of the preservation lemmas for the property
    that the cache has a given content. *)
Ltac cache_side := first [ done | (intros; congruence) ].

Lemma createErrorResponse_cache host msg st c :
  preserves (λ w, cache w = c) (Helpers.createErrorResponse host msg st).
Proof. apply preserves_createErrorResponse; cache_side. Qed.

Lemma getCachedResponse_cache request c :
  preserves (λ w, cache w = c) (getCachedResponse request).
Proof. apply preserves_getCachedResponse; cache_side. Qed.

Lemma getHealthyBackends_cache host config c :
  preserves (λ w, cache w = c) (getHealthyBackends host config).
Proof. apply preserves_getHealthyBackends; cache_side. Qed.

Lemma proxyRequestWithFallback_cache host config request requestId bs c :
  preserves (λ w, cache w = c) (proxyRequestWithFallback host config request requestId bs).
Proof. apply preserves_proxyRequestWithFallback; cache_side. Qed.

(** A cache write always returns: the stamped copy is stored, or the
    failure of the write is ignored. *)
Lemma cacheResponse_run host config request response w :
  cacheResponse host config request response w
  = (Ok tt,
     let key := href (req_url request) in
     let copy :=
       cachedCopy config response (toISOString host (Date_now host (length (history w)))) in
     match cache_put host (length (history w)) key copy with
     | Ok _ => set_cache (insert key copy) (emit (EvCachePut key) w)
     | Throw _ => emit (EvCachePut key) w
     end).
Proof.
  unfold cacheResponse, try_catch, bind, dateNow, cachePut, cachedCopy. cbn beta iota zeta.
  by destruct (cache_put host _ _ _) as [[]|e].
Qed.

(** The [try] block stores nothing unless it returns a response that
    [shouldCacheResponse] accepts. *)
Lemma handleRequestBody_cache host config request requestId startTime w r w' :
  handleRequestBody host config request requestId startTime w = (r, w') →
  cache w' = cache w
  ∨ ∃ response, r = Ok response ∧ shouldCacheResponse config request response = true.
Proof.
  unfold handleRequestBody. intros H.
  destruct (isRequestTooLarge request).
  { left. eapply cache_kept_by; [|exact H]. intros c. apply createErrorResponse_cache. }
  unfold bind at 1 in H.
  match type of H with
  | context [match ?m w with _ => _ end] =>
      assert (Hm : ∀ c, preserves (λ w, cache w = c) m)
        by (intros c; destruct (_ && _);
            [apply getCachedResponse_cache | apply preserves_ret]);
      destruct (m w) as [[cached|e] w1] eqn:E1
  end.
  2: { injection H as <- <-. left. by eapply cache_kept_by. }
  pose proof (cache_kept_by _ _ _ _ Hm E1) as C1. clear Hm E1.
  destruct cached as [cached|].
  { injection H as <- <-. by left. }
  unfold bind at 1 in H.
  destruct (getHealthyBackends host config w1) as [[healthyBackends|e] w2] eqn:E2;
    pose proof (cache_kept_by _ _ _ _ (getHealthyBackends_cache host config) E2) as C2.
  2: { injection H as <- <-. left. congruence. }
  destruct (Nat.eqb (length healthyBackends) 0).
  { left. rewrite <- C1, <- C2. eapply cache_kept_by; [|exact H].
    intros c. apply createErrorResponse_cache. }
  unfold bind at 1 in H.
  destruct (proxyRequestWithFallback host config request requestId healthyBackends w2)
    as [[response|e] w3] eqn:E3;
    pose proof (cache_kept_by _ _ _ _
                  (proxyRequestWithFallback_cache host config request requestId
                     healthyBackends) E3) as C3.
  2: { injection H as <- <-. left. congruence. }
  unfold bind, dateNow, updateMetrics, modify in H. cbn beta iota in H.
  destruct (shouldCacheResponse config request response) eqn:Hshould.
  - right. exists response. split; [|done].
    unfold cacheResponse, try_catch, cachePut, bind, dateNow, modify, ret in H.
    cbn beta iota in H.
    destruct (cache_put host _ _ _) in H; by injection H as <- _.
  - left. unfold ret in H. injection H as _ <-. simpl. congruence.
Qed.

(** A request handled without the returned response being accepted by
    [shouldCacheResponse] leaves the cache as it was. *)
Lemma handleRequest_cache host config request w response w' :
  handleRequest host config request w = (Ok response, w') →
  shouldCacheResponse config request response = false →
  cache w' = cache w.
Proof.
  unfold handleRequest, Helpers.generateRequestId, bind, mathRandom, dateNow, try_catch.
  cbn beta iota.
  match goal with
  | |- context [handleRequestBody host config request ?rid ?st ?w1] =>
      destruct (handleRequestBody host config request rid st w1) as [[a|e] w2] eqn:EB;
      pose proof (handleRequestBody_cache _ _ _ _ _ _ _ _ EB) as [Hc|(resp & Hr & Hs)]
  end.
  - intros [= <- <-] _. exact Hc.
  - injection Hr as <-. intros [= <- <-] Hno. congruence.
  - intros Herr _. transitivity (cache w2); [|exact Hc].
    eapply cache_kept_by; [|exact Herr]. intros c. apply createErrorResponse_cache.
  - discriminate.
Qed.

(** C5, as the code has it: the predicate holds exactly when caching is
    enabled, the method is GET, the status is 2xx, Cache-Control
    contains neither [no-cache] nor [private], and Content-Type
    contains (anywhere, not only at its start) one of
    [application/json], [text/], [application/xml]; and a request
    whose returned response the predicate rejects leaves the cache as
    it was. *)
Theorem cache_store_policy (config : ProxyConfig) (request : Request)
    (response : Response) :
  (shouldCacheResponse config request response = true ↔
     enableCaching config = true
     ∧ req_method request = "GET"
     ∧ 200 ≤ status response ≤ 299
     ∧ (∀ cc, headers_get (headers response) "Cache-Control" = Some cc →
              ¬ occursIn cc "no-cache" ∧ ¬ occursIn cc "private")
     ∧ (∃ ct, headers_get (headers response) "Content-Type" = Some ct
              ∧ (occursIn ct "application/json" ∨ occursIn ct "text/"
                 ∨ occursIn ct "application/xml")))
  ∧ (∀ host w w',
       handleRequest host config request w = (Ok response, w') →
       shouldCacheResponse config request response = false →
       cache w' = cache w).
Proof.
  split; [apply shouldCacheResponse_spec|].
  intros host w w'. apply handleRequest_cache.
Qed.

(** ** The theorems at concrete inputs

    Each theorem that has hypotheses is applied once to a scenario in
    which the hypotheses hold by computation. *)

(** A 200 from backend A in the first turn of the loop. *)
Lemma failover_below_500_witness :
  selectBackend Witness.host200 [PassThroughScenario.A; PassThroughScenario.B]
    (parseRequest PassThroughScenario.request) (Some (metrics PassThroughScenario.world))
    PassThroughScenario.world
  = (Ok (Some PassThroughScenario.A), Witness.afterSelect)
  ∧ proxyRequest Witness.host200 PassThroughScenario.config PassThroughScenario.request
      PassThroughScenario.A Witness.afterSelect
    = (Ok (PassThroughScenario.answer 200), Witness.afterForward)
  ∧ status (PassThroughScenario.answer 200) < 500
  ∧ ∃ w', failover Witness.host200 PassThroughScenario.config 2 0 2
            PassThroughScenario.request (parseRequest PassThroughScenario.request)
            [PassThroughScenario.A; PassThroughScenario.B] None PassThroughScenario.world
          = (Ok (withBackendInfo (PassThroughScenario.answer 200) PassThroughScenario.A),
             w')
        ∧ healthStatus w' !! url PassThroughScenario.A = Some initialHealth.
Proof.
  assert (H1 : selectBackend Witness.host200
                 [PassThroughScenario.A; PassThroughScenario.B]
                 (parseRequest PassThroughScenario.request)
                 (Some (metrics PassThroughScenario.world)) PassThroughScenario.world
               = (Ok (Some PassThroughScenario.A), Witness.afterSelect))
    by (vm_compute; reflexivity).
  assert (H2 : proxyRequest Witness.host200 PassThroughScenario.config
                 PassThroughScenario.request PassThroughScenario.A Witness.afterSelect
               = (Ok (PassThroughScenario.answer 200), Witness.afterForward))
    by (vm_compute; reflexivity).
  assert (H3 : status (PassThroughScenario.answer 200) < 500) by (simpl; lia).
  split; [exact H1|]. split; [exact H2|]. split; [exact H3|].
  destruct (failover_below_500 Witness.host200 PassThroughScenario.config 1 0 2
              PassThroughScenario.request (parseRequest PassThroughScenario.request)
              [PassThroughScenario.A; PassThroughScenario.B]
              None PassThroughScenario.world Witness.afterSelect Witness.afterForward
              PassThroughScenario.A (PassThroughScenario.answer 200)
              H1 H2 H3) as (w' & Hrun & _ & _ & _ & _ & Hok & _).
  exists w'. split; [exact Hrun|].
  destruct (Hok eq_refl) as [-> _]. vm_compute. reflexivity.
Defined.



(** Threshold 5: the invariant after construction and after a failure mark. *)
Lemma health_invariant_witness :
  0 < circuitBreakerThreshold PassThroughScenario.config
  ∧ constructor PassThroughScenario.config ∅ = Ok PassThroughScenario.world
  ∧ allHealth (healthInvariant PassThroughScenario.config) PassThroughScenario.world
  ∧ allHealth (healthInvariant PassThroughScenario.config)
      (exec (markBackendUnhealthy PassThroughScenario.config "https://a.example")
         PassThroughScenario.world).
Proof.
  assert (HT : 0 < circuitBreakerThreshold PassThroughScenario.config) by (simpl; lia).
  assert (Hc : constructor PassThroughScenario.config ∅ = Ok PassThroughScenario.world)
    by (vm_compute; reflexivity).
  destruct (health_invariant Witness.host200 PassThroughScenario.config HT)
    as (Hinit & _ & Hfail & _).
  split; [exact HT|]. split; [exact Hc|]. split; [exact (Hinit _ _ Hc)|].
  apply Hfail. exact (Hinit _ _ Hc).
Defined.

(** Country jp, in lower case, with A in us-west and B in asia-east;
    and with B listed first, where the selection is B again and not
    the last backend. *)
Lemma regional_narrowing_witness :
  REGION_MAP !! toUpperCase (country (Witness.requestInfo "jp")) = Some "asia-northeast"
  ∧ toUpperCase (country (Witness.requestInfo "jp")) = "JP"
  ∧ sublist (candidateBackendsOf [GeoScenario.A; GeoScenario.B] (Witness.requestInfo "jp"))
      [GeoScenario.A; GeoScenario.B]
  ∧ candidateBackendsOf [GeoScenario.A; GeoScenario.B] (Witness.requestInfo "jp")
    = [GeoScenario.B]
  ∧ (∃ w', selectBackend Witness.host200 [GeoScenario.A; GeoScenario.B]
             (Witness.requestInfo "jp") (Some (metrics PassThroughScenario.world))
             PassThroughScenario.world
           = (Ok (Some GeoScenario.B), w'))
  ∧ ∃ b w', selectBackend Witness.host200 [GeoScenario.B; GeoScenario.A]
              (Witness.requestInfo "jp") (Some (metrics PassThroughScenario.world))
              PassThroughScenario.world
            = (Ok (Some b), w')
            ∧ sameBackendIn b [GeoScenario.B].
Proof.
  assert (H : REGION_MAP !! toUpperCase (country (Witness.requestInfo "jp"))
              = Some "asia-northeast") by reflexivity.
  assert (HJP : toUpperCase (country (Witness.requestInfo "jp")) = "JP") by reflexivity.
  destruct (regional_narrowing Witness.host200 [GeoScenario.A; GeoScenario.B]
              (Witness.requestInfo "jp") "asia-northeast"
              (Some (metrics PassThroughScenario.world)) PassThroughScenario.world H)
    as (Hsub & _ & _ & _ & _ & Hscenario).
  destruct (regional_narrowing Witness.host200 [GeoScenario.B; GeoScenario.A]
              (Witness.requestInfo "jp") "asia-northeast"
              (Some (metrics PassThroughScenario.world)) PassThroughScenario.world H)
    as (_ & _ & _ & _ & Hamong & _).
  destruct (Hscenario HJP) as [Hcand Hsel].
  split; [exact H|]. split; [exact HJP|]. split; [exact Hsub|].
  split; [exact Hcand|]. split; [exact Hsel|].
  exact (Hamong ltac:(discriminate)).
Defined.

(** A success of 120 ms followed by a failure of 30 ms on backend A. *)
Lemma metrics_invariant_witness :
  constructor PassThroughScenario.config ∅ = Ok PassThroughScenario.world
  ∧ Forall (λ o, 0 ≤ duration o) [Witness.failedFast]
  ∧ metrics (exec (recordOutcomes [Witness.slow]) PassThroughScenario.world)
      !! "https://a.example"
    = Some {| requests := 1; errors := 0; totalTime := 120 |}
  ∧ ∃ m2, metrics (exec (recordOutcomes [Witness.failedFast])
                     (exec (recordOutcomes [Witness.slow]) PassThroughScenario.world))
            !! "https://a.example" = Some m2
        ∧ errors m2 ≤ requests m2
        ∧ 120 ≤ totalTime m2.
Proof.
  assert (Hc : constructor PassThroughScenario.config ∅ = Ok PassThroughScenario.world)
    by (vm_compute; reflexivity).
  assert (Hd : Forall (λ o, 0 ≤ duration o) [Witness.failedFast]).
  { constructor; [simpl; lia | constructor]. }
  assert (Hm1 : metrics (exec (recordOutcomes [Witness.slow]) PassThroughScenario.world)
                  !! "https://a.example"
                = Some {| requests := 1; errors := 0; totalTime := 120 |})
    by (vm_compute; reflexivity).
  destruct (metrics_invariant PassThroughScenario.config ∅ PassThroughScenario.world
              [Witness.slow] [Witness.failedFast] Hc Hd) as (_ & Hall & _).
  destruct (Hall _ _ Hm1) as (_ & m2 & Hm2 & Hinv & Hmono).
  split; [exact Hc|]. split; [exact Hd|]. split; [exact Hm1|].
  exists m2. split; [exact Hm2|]. split; [exact Hinv | exact Hmono].
Defined.

(** A first duration of 120 ms gives the average 60. *)
Lemma avgResponseTime_recurrence_witness :
  healthStatus PassThroughScenario.world !! "https://a.example" = Some initialHealth
  ∧ constructor PassThroughScenario.config ∅ = Ok PassThroughScenario.world
  ∧ In PassThroughScenario.A (backends PassThroughScenario.config)
  ∧ ∃ h1, healthStatus (exec (updateMetrics (url PassThroughScenario.A) 120 true)
                          PassThroughScenario.world) !! url PassThroughScenario.A
          = Some h1
        ∧ (avgResponseTime h1 == 60)%Q
        ∧ ¬ (avgResponseTime h1 == 120)%Q.
Proof.
  assert (Hh : healthStatus PassThroughScenario.world !! "https://a.example"
               = Some initialHealth) by (vm_compute; reflexivity).
  assert (Hc : constructor PassThroughScenario.config ∅ = Ok PassThroughScenario.world)
    by (vm_compute; reflexivity).
  assert (Hin : In PassThroughScenario.A (backends PassThroughScenario.config))
    by (simpl; left; reflexivity).
  destruct (avgResponseTime_recurrence PassThroughScenario.config ∅
              PassThroughScenario.world PassThroughScenario.world PassThroughScenario.A
              "https://a.example" initialHealth 120 true Hh Hc Hin)
    as (_ & h0 & h1 & _ & _ & Hh1 & Havg & Hne).
  split; [exact Hh|]. split; [exact Hc|]. split; [exact Hin|].
  exists h1. split; [exact Hh1|]. split.
  - rewrite Havg. reflexivity.
  - apply Hne. lia.
Defined.

(** A POST with Content-Length 20971520. *)
Lemma oversize_rejected_witness :
  headers_get (req_headers Witness.oversize) "Content-Length" = Some "20971520"
  ∧ parseInt "20971520" None = Some 20971520
  ∧ 10 * 1024 * 1024 < 20971520
  ∧ ∃ response w',
      handleRequest Witness.host200 PassThroughScenario.config Witness.oversize
        PassThroughScenario.world = (Ok response, w')
      ∧ status response = 413
      ∧ history w' = []
      ∧ healthStatus w' = healthStatus PassThroughScenario.world
      ∧ metrics w' = metrics PassThroughScenario.world.
Proof.
  assert (H1 : headers_get (req_headers Witness.oversize) "Content-Length"
               = Some "20971520") by (vm_compute; reflexivity).
  assert (H2 : parseInt "20971520" None = Some 20971520) by reflexivity.
  assert (H3 : 10 * 1024 * 1024 < 20971520) by lia.
  destruct (oversize_rejected Witness.host200 PassThroughScenario.config
              Witness.oversize PassThroughScenario.world "20971520" 20971520 H1 H2 H3)
    as (response & w' & Hrun & Hst & _ & _ & Hhist & _ & Hh & Hm & _).
  split; [exact H1|]. split; [exact H2|]. split; [exact H3|].
  exists response, w'. split; [exact Hrun|]. split; [exact Hst|].
  split; [exact Hhist|]. split; [exact Hh | exact Hm].
Defined.

(** Two backends, unknown country, no metrics. *)
Lemma selectBackend_returns_member_witness :
  [GeoScenario.A; GeoScenario.B] ≠ []
  ∧ ∃ b w',
      selectBackend Witness.host200 [GeoScenario.A; GeoScenario.B]
        (Witness.requestInfo "unknown") None PassThroughScenario.world
      = (Ok (Some b), w')
      ∧ sameBackendIn b [GeoScenario.A; GeoScenario.B].
Proof.
  assert (Hne : [GeoScenario.A; GeoScenario.B] ≠ []) by discriminate.
  destruct (selectBackend_returns_member Witness.host200 [GeoScenario.A; GeoScenario.B]
              (Witness.requestInfo "unknown") None PassThroughScenario.world Hne)
    as (b & w' & Hrun & Hsame & _).
  split; [exact Hne|]. exists b, w'. split; [exact Hrun | exact Hsame].
Defined.

(** A GET answered 200 without Content-Type: returned, not stored. *)
Lemma cache_store_policy_witness :
  handleRequest Witness.host200 PassThroughScenario.config PassThroughScenario.request
    PassThroughScenario.world
  = (Ok (withBackendInfo (PassThroughScenario.answer 200) PassThroughScenario.A),
     Witness.afterRequest)
  ∧ shouldCacheResponse PassThroughScenario.config PassThroughScenario.request
      (withBackendInfo (PassThroughScenario.answer 200) PassThroughScenario.A) = false
  ∧ cache Witness.afterRequest = cache PassThroughScenario.world.
Proof.
  assert (H1 : handleRequest Witness.host200 PassThroughScenario.config
                 PassThroughScenario.request PassThroughScenario.world
               = (Ok (withBackendInfo (PassThroughScenario.answer 200)
                        PassThroughScenario.A),
                  Witness.afterRequest)) by (vm_compute; reflexivity).
  assert (H2 : shouldCacheResponse PassThroughScenario.config PassThroughScenario.request
                 (withBackendInfo (PassThroughScenario.answer 200) PassThroughScenario.A)
               = false) by (vm_compute; reflexivity).
  split; [exact H1|]. split; [exact H2|].
  destruct (cache_store_policy PassThroughScenario.config PassThroughScenario.request
              (withBackendInfo (PassThroughScenario.answer 200) PassThroughScenario.A))
    as [_ Hkept].
  exact (Hkept Witness.host200 PassThroughScenario.world Witness.afterRequest H1 H2).
Defined.

(* ===================================================================== *)
(** * Further properties of the code *)
(* ===================================================================== *)

Import Helpers ConfigLoader.

(** ** The weighted walk *)

Lemma fold_weight_acc (l : list BackendConfig) (a : Q) :
  (fold_left (λ sum backend, sum + weight backend) l a
   == a + fold_left (λ sum backend, sum + weight backend) l 0)%Q.
Proof.
  revert a. induction l as [|b l IH]; intros a; simpl; [ring|].
  rewrite (IH (a + weight b)%Q), (IH (0 + weight b)%Q). ring.
Qed.

Lemma totalWeightOf_cons (b : BackendConfig) (rest : list BackendConfig) :
  (totalWeightOf (b :: rest) == weight b + totalWeightOf rest)%Q.
Proof.
  unfold totalWeightOf. simpl. rewrite fold_weight_acc. ring.
Qed.

Lemma walk_within (bs : list BackendConfig) :
  ∀ random : Q,
  bs ≠ [] → (random <= totalWeightOf bs)%Q → ∃ b, walk random bs = Some b.
Proof.
  induction bs as [|b rest IH]; intros random Hne Hle; [done|].
  simpl. destruct (Qle_bool (random - weight b) 0) eqn:E; [eauto|].
  assert (Hpos : ¬ (random - weight b <= 0)%Q).
  { intros H. apply Qle_bool_iff in H. congruence. }
  rewrite totalWeightOf_cons in Hle.
  destruct rest as [|c rest].
  - exfalso. apply Hpos. change (totalWeightOf []) with 0%Q in Hle. lra.
  - apply IH; [done|]. lra.
Qed.

(** ** Performance weighting: the range of scores and weights *)

Lemma transientWeight_ge_1 maxScore s : 1 ≤ transientWeight maxScore s.
Proof. unfold transientWeight. destruct maxScore; lia. Qed.

Lemma totalWeightOf_ge_length (l : list BackendConfig) :
  Forall (λ b, (1 <= weight b)%Q) l → (inject_Z (Z.of_nat (length l)) <= totalWeightOf l)%Q.
Proof.
  induction 1 as [|b l Hb Hl IH]; [done|].
  rewrite totalWeightOf_cons. cbn [length]. rewrite Nat2Z.inj_succ.
  unfold Z.succ. rewrite inject_Z_plus. change (inject_Z 1) with 1%Q. lra.
Qed.

Lemma weightedBackendsOf_weights bs m :
  Forall (λ b, ∃ z, weight b = inject_Z z ∧ 1 ≤ z) (weightedBackendsOf bs m).
Proof.
  unfold weightedBackendsOf. apply Forall_forall. intros b' Hin.
  apply list_elem_of_In, in_map_iff in Hin. destruct Hin as (b & <- & _).
  eexists. split; [reflexivity|]. apply transientWeight_ge_1.
Qed.

(** X2: performance weighting keeps the candidates, their order, urls
    and regions, and gives each an integer weight of at least 1; so
    the total weight is at least the number of candidates and the walk
    over a non-empty list, with a draw of at most 1, stops at a
    candidate (neither the zero-total nor the last-candidate exit). *)
Theorem selectByPerformance_weights (host : Host) (bs : list BackendConfig)
    (m : gmap string BackendMetrics) (w : World) :
  map url (weightedBackendsOf bs m) = map url bs
  ∧ map region (weightedBackendsOf bs m) = map region bs
  ∧ Forall (λ b, ∃ z, weight b = inject_Z z ∧ 1 ≤ z) (weightedBackendsOf bs m)
  ∧ (inject_Z (Z.of_nat (length bs)) <= totalWeightOf (weightedBackendsOf bs m))%Q
  ∧ (bs ≠ [] → (Math_random host (draws w) <= 1)%Q →
     ∃ b, fst (selectByPerformance host bs m w) = Ok (Some b)
          ∧ walk (Math_random host (draws w) * totalWeightOf (weightedBackendsOf bs m))
              (weightedBackendsOf bs m) = Some b).
Proof.
  pose proof (weightedBackendsOf_weights bs m) as Hw.
  assert (Hlen : length (weightedBackendsOf bs m) = length bs).
  { unfold weightedBackendsOf. apply length_map. }
  assert (Htot : (inject_Z (Z.of_nat (length bs))
                  <= totalWeightOf (weightedBackendsOf bs m))%Q).
  { rewrite <- Hlen. apply totalWeightOf_ge_length.
    eapply Forall_impl; [exact Hw|]. intros b (z & -> & Hz).
    change 1%Q with (inject_Z 1). by rewrite <- Zle_Qle. }
  split; [|split; [|split; [done|split; [done|]]]].
  - unfold weightedBackendsOf. rewrite map_map. done.
  - unfold weightedBackendsOf. rewrite map_map. done.
  - intros Hne Hr.
    assert (Hpos : (0 < totalWeightOf (weightedBackendsOf bs m))%Q).
    { eapply Qlt_le_trans; [|exact Htot].
      change 0%Q with (inject_Z 0). rewrite <- Zlt_Qlt.
      destruct bs; [done | simpl; lia]. }
    set (r := Math_random host (draws w)) in *.
    assert (Hle : (r * totalWeightOf (weightedBackendsOf bs m)
                   <= totalWeightOf (weightedBackendsOf bs m))%Q) by nra.
    assert (Hne' : weightedBackendsOf bs m ≠ []) by (by apply weightedBackendsOf_nonempty).
    destruct (walk_within _ _ Hne' Hle) as [b Hb].
    exists b. split; [|exact Hb].
    unfold selectByPerformance, weightedRandomSelect.
    destruct (Qeq_bool _ 0) eqn:E; [apply Qeq_bool_iff in E; lra|].
    unfold bind, mathRandom. cbn beta iota. fold r. by rewrite Hb.
Qed.

Lemma ratio_range (a b : Z) :
  0 ≤ a ≤ b → 0 < b → (0 <= inject_Z a / inject_Z b <= 1)%Q.
Proof.
  intros Ha Hb.
  assert (Hb' : (0 < inject_Z b)%Q) by (change 0%Q with (inject_Z 0); by rewrite <- Zlt_Qlt).
  assert (Ha0 : (0 <= inject_Z a)%Q) by (change 0%Q with (inject_Z 0); rewrite <- Zle_Qle; lia).
  assert (Hab : (inject_Z a <= inject_Z b)%Q) by (rewrite <- Zle_Qle; lia).
  split.
  - apply Qle_shift_div_l; [done|]. lra.
  - apply Qle_shift_div_r; [done|]. lra.
Qed.

Lemma ratio_nonneg (a b : Z) : 0 ≤ a → 0 < b → (0 <= inject_Z a / inject_Z b)%Q.
Proof.
  intros Ha Hb.
  assert (Hb' : (0 < inject_Z b)%Q) by (change 0%Q with (inject_Z 0); by rewrite <- Zlt_Qlt).
  assert (Ha0 : (0 <= inject_Z a)%Q) by (change 0%Q with (inject_Z 0); rewrite <- Zle_Qle; lia).
  apply Qle_shift_div_l; [done|]. lra.
Qed.

Lemma scoreStep_range m scores b :
  map_Forall (λ _, metricsPlausible) m →
  map_Forall (λ _ s, (0 <= s <= 85)%Q) scores →
  map_Forall (λ _ s, (0 <= s <= 85)%Q) (scoreStep m scores b).
Proof.
  intros Hm Hs. unfold scoreStep.
  destruct (m !! url b) as [metric|] eqn:E.
  2: { apply map_Forall_insert_2; [lra | done]. }
  destruct (Z.eqb_spec (requests metric) 0) as [Hz|Hz].
  { apply map_Forall_insert_2; [lra | done]. }
  apply map_Forall_insert_2; [|done].
  destruct (Hm _ _ E) as [[He1 He2] Ht].
  assert (Hr : 0 < requests metric) by lia.
  pose proof (ratio_range _ _ (conj He1 He2) Hr) as Hrate.
  pose proof (ratio_nonneg _ _ Ht Hr) as Havg.
  set (rate := (inject_Z (errors metric) / inject_Z (requests metric))%Q) in *.
  set (avg := (inject_Z (totalTime metric) / inject_Z (requests metric))%Q) in *.
  assert (Hmin : (0 <= Qmin (avg / 100) 50 <= 50)%Q).
  { split; [|apply Q.le_min_r].
    apply Q.min_glb; [|lra].
    apply Qle_shift_div_l; [reflexivity | lra]. }
  set (mn := Qmin (avg / 100) 50) in *. lra.
Qed.

Lemma scoresOf_range bs m :
  map_Forall (λ _, metricsPlausible) m →
  map_Forall (λ _ s, (0 <= s <= 85)%Q) (scoresOf bs m).
Proof.
  intros Hm. unfold scoresOf.
  assert (H0 : map_Forall (λ (_ : string) s, (0 <= s <= 85)%Q) (∅ : gmap string Q))
    by apply map_Forall_empty.
  revert H0. generalize (∅ : gmap string Q).
  induction bs as [|b bs IH]; intros scores Hs; [done|].
  simpl. apply IH. by apply scoreStep_range.
Qed.

Lemma fold_Qmax_le (c : Q) (xs : list Q) (x : Q) :
  (x <= c)%Q → Forall (λ y, (y <= c)%Q) xs → (fold_left Qmax xs x <= c)%Q.
Proof.
  intros Hx Hxs. revert x Hx. induction Hxs as [|y ys Hy Hys IH]; intros x Hx; [done|].
  simpl. apply IH. by apply Q.max_lub.
Qed.

Lemma maxScoreOf_le scores M :
  map_Forall (λ _ s, (0 <= s <= 85)%Q) scores →
  maxScoreOf scores = Some M → (M <= 86)%Q.
Proof.
  intros Hs. unfold maxScoreOf, Math_max.
  assert (Hall : Forall (λ y, (y <= 85)%Q) (map_to_list scores).*2).
  { apply Forall_forall. intros y Hy.
    apply list_elem_of_fmap in Hy. destruct Hy as ([u s] & -> & Hin).
    apply elem_of_map_to_list in Hin. by destruct (Hs _ _ Hin). }
  destruct ((map_to_list scores).*2) as [|x xs]; [done|].
  intros [= <-]. apply Forall_cons in Hall. destruct Hall as [Hx Hxs].
  pose proof (fold_Qmax_le 85 xs x Hx Hxs). lra.
Qed.

(** X3: when every Metrics record has [0 ≤ errors ≤ requests] and a
    total time that is not negative, every score lies between 0 and
    85 (at most 70 from the error rate and 15 from the response time)
    and every transient weight is an integer between 1 and 86. *)
Theorem performance_score_range (bs : list BackendConfig)
    (m : gmap string BackendMetrics) :
  map_Forall (λ _, metricsPlausible) m →
  map_Forall (λ _ s, (0 <= s <= 85)%Q) (scoresOf bs m)
  ∧ Forall (λ b, ∃ z, weight b = inject_Z z ∧ 1 ≤ z ≤ 86) (weightedBackendsOf bs m).
Proof.
  intros Hm. pose proof (scoresOf_range bs m Hm) as Hs. split; [done|].
  unfold weightedBackendsOf. apply Forall_forall. intros b' Hin.
  apply list_elem_of_In, in_map_iff in Hin. destruct Hin as (b & <- & _).
  eexists. split; [reflexivity|]. split; [apply transientWeight_ge_1|].
  unfold transientWeight.
  destruct (maxScoreOf (scoresOf bs m)) as [M|] eqn:EM; [|lia].
  pose proof (maxScoreOf_le _ _ Hs EM) as HM.
  apply Z.max_lub; [lia|].
  change 86 with (Qfloor (inject_Z 86)). apply Qfloor_resp_le.
  change (inject_Z 86) with 86%Q.
  destruct (scoresOf bs m !! url b) as [s|] eqn:Es.
  - destruct (Hs _ _ Es). destruct (Qeq_bool s 0); lra.
  - lra.
Qed.

(** ** Regional narrowing for every country *)

Lemma getRegionalBackends_sublist backends c : sublist (getRegionalBackends backends c) backends.
Proof.
  unfold getRegionalBackends.
  destruct (_ || _); [apply sublist_nil_l|].
  destruct (REGION_MAP !! toUpperCase c) as [p|]; [|apply sublist_nil_l].
  destruct (Nat.eqb _ 0); apply filter_sublist.
Qed.

(** X4: whatever the country, the candidates are taken from the given
    backends in their order, a non-empty list is never narrowed to
    nothing, and a country that is absent, [unknown] or not in the
    region table leaves the list as it is. *)
Theorem narrowing_keeps_a_candidate (backends : list BackendConfig)
    (requestInfo : RequestInfo) :
  sublist (candidateBackendsOf backends requestInfo) backends
  ∧ (backends ≠ [] → candidateBackendsOf backends requestInfo ≠ [])
  ∧ (country requestInfo = "" ∨ country requestInfo = "unknown"
     ∨ REGION_MAP !! toUpperCase (country requestInfo) = None →
     candidateBackendsOf backends requestInfo = backends).
Proof.
  split; [|split].
  - unfold candidateBackendsOf. destruct (Nat.ltb _ _); [|done].
    apply getRegionalBackends_sublist.
  - apply candidateBackendsOf_nonempty.
  - intros H. unfold candidateBackendsOf, getRegionalBackends.
    destruct H as [-> | [-> | H]]; [done | done |].
    destruct (_ || _); [done|]. by rewrite H.
Qed.

(** ** The forwarded request *)

(** X5: the request sent upstream goes to the backend's url followed
    by the path and query, with the client's method; X-Forwarded-For
    and X-Real-IP both carry the CF-Connecting-IP value of the client
    (or [unknown]), X-Forwarded-Proto the scheme without its colon and
    X-Forwarded-Host the host name, whatever the client sent under
    these names; the four ingress headers are absent under any
    spelling of their names;
    every other header is passed on unchanged; the body is sent unless
    the method is GET or HEAD. *)
Theorem forwarded_request (request : Request) (backend : BackendConfig) :
  let rq := forwardedRequest request backend in
  let ip := orElse (headers_get (req_headers request) "CF-Connecting-IP") "unknown" in
  fetch_url rq = url backend ++ pathname (req_url request) ++ search (req_url request)
  ∧ fetch_method rq = req_method request
  ∧ headers_get (fetch_headers rq) "X-Forwarded-For" = Some ip
  ∧ headers_get (fetch_headers rq) "X-Real-IP" = Some ip
  ∧ headers_get (fetch_headers rq) "X-Forwarded-Proto"
    = Some (dropLast (protocol (req_url request)))
  ∧ headers_get (fetch_headers rq) "X-Forwarded-Host" = Some (hostname (req_url request))
  ∧ (∀ name, In (toLowerCase name) ["cf-connecting-ip"; "cf-ray"; "cf-visitor"; "cf-ipcountry"] →
       headers_get (fetch_headers rq) name = None)
  ∧ (∀ name, ¬ In (toLowerCase name) rewrittenHeaders →
       headers_get (fetch_headers rq) name = headers_get (req_headers request) name)
  ∧ (req_method request = "GET" ∨ req_method request = "HEAD" → fetch_body rq = NoBody)
  ∧ (req_method request ≠ "GET" → req_method request ≠ "HEAD" →
     fetch_body rq = req_body request).
Proof.
  intros rq ip. unfold rq, forwardedRequest. cbn [fetch_url fetch_method fetch_headers fetch_body].
  fold ip. unfold headers_get, headers_set, headers_delete. cbn [fold_left].
  change (toLowerCase "X-Forwarded-For") with "x-forwarded-for".
  change (toLowerCase "X-Forwarded-Proto") with "x-forwarded-proto".
  change (toLowerCase "X-Forwarded-Host") with "x-forwarded-host".
  change (toLowerCase "X-Real-IP") with "x-real-ip".
  change (toLowerCase "cf-connecting-ip") with "cf-connecting-ip".
  change (toLowerCase "cf-ray") with "cf-ray".
  change (toLowerCase "cf-visitor") with "cf-visitor".
  change (toLowerCase "cf-ipcountry") with "cf-ipcountry".
  split; [done|]. split; [done|].
  split; [by rewrite !lookup_delete_ne, !lookup_insert_ne, lookup_insert_eq by done|].
  split; [by rewrite !lookup_delete_ne, lookup_insert_eq by done|].
  split; [by rewrite !lookup_delete_ne, !lookup_insert_ne, lookup_insert_eq by done|].
  split; [by rewrite !lookup_delete_ne, lookup_insert_ne, lookup_insert_eq by done|].
  split.
  { intros name Hin. simpl in Hin.
    destruct Hin as [<-|[<-|[<-|[<-|[]]]]].
    - by rewrite !lookup_delete_ne, lookup_delete_eq by done.
    - by rewrite !lookup_delete_ne, lookup_delete_eq by done.
    - by rewrite !lookup_delete_ne, lookup_delete_eq by done.
    - by rewrite lookup_delete_eq. }
  split.
  { intros name Hnot. unfold rewrittenHeaders in Hnot. simpl in Hnot.
    rewrite !lookup_delete_ne, !lookup_insert_ne by (intros E; apply Hnot; tauto).
    done. }
  split.
  - intros [-> | ->]; done.
  - intros H1 H2.
    destruct (String.eqb_spec (req_method request) "GET"); [done|].
    destruct (String.eqb_spec (req_method request) "HEAD"); done.
Qed.

(** ** What a request can end in *)

Lemma head_Some_In {A} (l : list A) (x : A) : head l = Some x → In x l.
Proof. destruct l as [|y l]; [done|]. intros [= ->]. by left. Qed.

Lemma weightedRandomSelect_Some host bs w b w' :
  weightedRandomSelect host bs w = (Ok (Some b), w') → In b bs.
Proof.
  unfold weightedRandomSelect.
  destruct (Qeq_bool (totalWeightOf bs) 0).
  { intros [= H _]. by apply head_Some_In. }
  unfold bind, mathRandom. cbn beta iota.
  destruct (walk _ bs) as [b0|] eqn:Hwalk.
  - intros [= <- _]. destruct (walk_Some _ _ _ Hwalk) as (pre & post & -> & _).
    apply in_or_app. right. by left.
  - intros [= H _]. by apply last_In.
Qed.

Lemma selectBackend_Some host bs info ms w b w' :
  selectBackend host bs info ms w = (Ok (Some b), w') → sameBackendIn b bs.
Proof.
  unfold selectBackend. destruct (Nat.eqb (length bs) 1).
  { intros [= H _]. apply sameBackendIn_here. by apply head_Some_In. }
  assert (Hplain : ∀ w w', weightedRandomSelect host (candidateBackendsOf bs info) w
                           = (Ok (Some b), w') → sameBackendIn b bs).
  { intros w0 w0' H. apply weightedRandomSelect_Some in H.
    apply sameBackendIn_here. by eapply candidateBackendsOf_sub. }
  destruct ms as [m|]; [|apply Hplain].
  destruct (Nat.ltb 0 (size m)); [|apply Hplain].
  unfold selectByPerformance. intros H. apply weightedRandomSelect_Some in H.
  apply weightedBackendsOf_same in H.
  eapply sameBackendIn_sub; [|exact H]. apply candidateBackendsOf_sub.
Qed.

(** The side conditions of the preservation lemmas for a property that
    fixes the content of a table which the step at hand does not write. *)
Ltac frame_side := first [ done | (intros; congruence) ].

Lemma proxyRequestWithFallback_metrics host config request requestId bs c :
  preserves (λ w, metrics w = c) (proxyRequestWithFallback host config request requestId bs).
Proof. apply preserves_proxyRequestWithFallback; frame_side. Qed.

Lemma getHealthyBackends_metrics host config c :
  preserves (λ w, metrics w = c) (getHealthyBackends host config).
Proof. apply preserves_getHealthyBackends; frame_side. Qed.

Lemma kept_by {A B} (f : World → B) (m : M A) w r w' :
  (∀ c, preserves (λ w, f w = c) m) → m w = (r, w') → f w' = f w.
Proof.
  intros H E. specialize (H (f w) w eq_refl). unfold exec in H.
  by rewrite E in H.
Qed.

Lemma attempts_fetched host config fuel :
  ∀ attempt rq lastError w response w',
  attempts host config fuel attempt rq lastError w = (Ok response, w') →
  ∃ k, net_fetch host k rq = Ok response.
Proof.
  induction fuel as [|fuel IH]; intros attempt rq lastError w response w'; [done|].
  rewrite attempts_step, send_cases.
  destruct (bodyUsed _ _).
  { rewrite disturbedStream_retryable. unfold bind at 1.
    destruct (_ <? _); cbn beta iota; apply IH. }
  destruct (net_fetch host (length (history w)) rq) as [r|e] eqn:E.
  { intros [= <- _]. by eexists. }
  destruct (isRetryableError e); [|done]. unfold bind at 1.
  destruct (_ <? _); cbn beta iota; apply IH.
Qed.

(** A response returned by the failover loop is a backend's response
    to the forwarded request, with a status below 500, annotated with
    that backend. *)
Lemma failover_returns host config fuel :
  ∀ i count request info bs lastError w response w',
  failover host config fuel i count request info bs lastError w = (Ok response, w') →
  ∃ up b, response = withBackendInfo up b
          ∧ (∃ k, net_fetch host k (forwardedRequest request b) = Ok up)
          ∧ status up < 500 ∧ sameBackendIn b bs.
Proof.
  induction fuel as [|fuel IH]; intros i count request info bs lastError w response w';
    [done|].
  cbn [failover]. unfold bind at 1. unfold get at 1. cbn beta iota.
  unfold bind at 1.
  destruct (selectBackend host bs info (Some (metrics w)) w) as [[selected|e] w1] eqn:Es;
    [|done].
  destruct selected as [backend|]; [|done].
  pose proof (selectBackend_Some _ _ _ _ _ _ _ Es) as Hsame.
  unfold bind at 1. unfold settle.
  destruct (proxyRequest host config request backend w1) as [[up|e] w2] eqn:Ep.
  - apply attempts_fetched in Ep.
    cbn beta iota. destruct (ok up) eqn:Hok.
    + intros [= <- _]. exists up, backend. split; [done|]. split; [done|].
      split; [|done]. apply ok_spec in Hok. lia.
    + destruct (Z.leb_spec 500 (status up)) as [Hge|Hlt].
      * unfold bind at 1. cbn beta iota. apply IH.
      * intros [= <- _]. exists up, backend. done.
  - cbn beta iota. unfold bind at 1. cbn beta iota.
    destruct (_ && _); [apply IH | done].
Qed.

Lemma checkBackendHealth_returns host config backend w :
  ∃ w', checkBackendHealth host config backend w = (Ok tt, w').
Proof.
  unfold checkBackendHealth, bind, get. cbn beta iota.
  destruct (healthStatus w !! url backend); [|by eexists].
  unfold settle, fetch. cbn beta iota.
  destruct (net_fetch host _ _) as [response|e]; [destruct (ok response)|];
    by eexists.
Qed.

Lemma checkStale_returns host config now bs :
  ∀ w, ∃ w', checkStale host config now bs w = (Ok tt, w').
Proof.
  induction bs as [|backend rest IH]; intros w; [by eexists|].
  cbn [checkStale]. unfold bind at 1. unfold get at 1. cbn beta iota.
  unfold bind at 1.
  destruct (healthStatus w !! url backend) as [health|].
  - destruct (_ <? _).
    + destruct (checkBackendHealth_returns host config backend w) as [w1 ->]. apply IH.
    + apply IH.
  - apply IH.
Qed.

Lemma getHealthyBackends_returns host config w :
  ∃ w', getHealthyBackends host config w
        = (Ok (List.filter (notMarkedUnhealthy (healthStatus w')) (backends config)), w').
Proof.
  unfold getHealthyBackends. unfold bind at 1. unfold dateNow at 1. cbn beta iota.
  unfold bind at 1.
  destruct (checkStale_returns host config (Date_now host (length (history w)))
              (backends config) w) as [w1 ->].
  by exists w1.
Qed.

Lemma createErrorResponse_run host msg st w :
  createErrorResponse host msg st w
  = (Ok {| status := st; statusText := "";
           headers := headers_set (headers_set ∅ "Content-Type" "application/json")
                        "Access-Control-Allow-Origin" "*";
           body := JsonText [("error", JString msg); ("status", JNumber st);
                             ("timestamp",
                              JString (toISOString host
                                         (Date_now host (length (history w)))))] |}, w).
Proof. reflexivity. Qed.

Lemma refused_by host config request msg st w0 w response w' :
  refusalStatus st → metrics w = metrics w0 → cache w = cache w0 →
  createErrorResponse host msg st w = (Ok response, w') →
  Ending host config request w0 w' response.
Proof.
  intros Hst Hm Hc. rewrite createErrorResponse_run. intros [= <- <-].
  apply Refused; [exact Hst | reflexivity | by eexists _, _ | exact Hm | exact Hc].
Qed.

Lemma getErrorStatus_refusal error : refusalStatus (getErrorStatus error).
Proof.
  unfold getErrorStatus, refusalStatus.
  repeat destruct (includes _ _); tauto.
Qed.

Lemma withBackendInfo_url upstream backend :
  orElse (headers_get (headers (withBackendInfo upstream backend)) "X-Backend-URL") ""
  = url backend.
Proof.
  unfold withBackendInfo, headers_get, headers_set. cbn [headers].
  rewrite lookup_insert_ne by (vm_compute; discriminate).
  rewrite lookup_insert_eq. unfold orElse.
  destruct (String.eqb (url backend) "") eqn:E; [|done].
  apply String.eqb_eq in E. by rewrite E.
Qed.

Lemma filter_In_sub {A} (f : A → bool) (l : list A) x : In x (List.filter f l) → In x l.
Proof. intros H. by apply filter_In in H as [? _]. Qed.

(** ** What a run adds to the history *)

Section Adds.
Context (P : Event → Prop).

Lemma adds_ret {A} (a : A) : adds P (ret a).
Proof. intros w. by exists []. Qed.

Lemma adds_throw {A} (e : JsError) : adds P (@throw A e).
Proof. intros w. by exists []. Qed.

Lemma adds_get : adds P get.
Proof. intros w. by exists []. Qed.

Lemma adds_quiet (f : World → World) :
  (∀ w, history (f w) = history w) → adds P (modify f).
Proof. intros Hf w. exists []. unfold exec. simpl. by rewrite Hf. Qed.

Lemma adds_emit (e : Event) : P e → adds P (modify (emit e)).
Proof. intros He w. exists [e]. split; [done|]. by apply Forall_singleton. Qed.

Lemma adds_bind_when {A B} (Q : A → Prop) (m : M A) (k : A → M B) :
  adds P m → (∀ w x w', m w = (Ok x, w') → Q x) → (∀ x, Q x → adds P (k x)) →
  adds P (bind m k).
Proof.
  intros Hm HQ Hk w. destruct (Hm w) as (a1 & H1 & F1). specialize (HQ w).
  unfold exec, bind in *.
  destruct (m w) as [[x|e] w1]; simpl in *; [|by exists a1].
  destruct (Hk x (HQ _ _ eq_refl) w1) as (a2 & H2 & F2). unfold exec in H2.
  exists (a2 ++ a1)%list. split; [|by apply Forall_app].
  by rewrite H2, H1, app_assoc.
Qed.

Lemma adds_bind {A B} (m : M A) (k : A → M B) :
  adds P m → (∀ x, adds P (k x)) → adds P (bind m k).
Proof.
  intros Hm Hk. apply (adds_bind_when (λ _, True)); [exact Hm | done |].
  intros x _. apply Hk.
Qed.

Lemma adds_try_catch {A} (m : M A) (h : JsError → M A) :
  adds P m → (∀ e, adds P (h e)) → adds P (try_catch m h).
Proof.
  intros Hm Hh w. destruct (Hm w) as (a1 & H1 & F1).
  unfold exec, try_catch in *.
  destruct (m w) as [[x|e] w1]; simpl in *; [by exists a1|].
  destruct (Hh e w1) as (a2 & H2 & F2). unfold exec in H2.
  exists (a2 ++ a1)%list. split; [|by apply Forall_app].
  by rewrite H2, H1, app_assoc.
Qed.

Lemma adds_settle {A} (m : M A) : adds P m → adds P (settle m).
Proof.
  intros Hm w. destruct (Hm w) as (a1 & H1 & F1). exists a1.
  unfold exec, settle in *. by destruct (m w).
Qed.

Lemma adds_fetch host rq : P (EvFetch rq) → adds P (fetch host rq).
Proof. intros He w. exists [EvFetch rq]. split; [done|]. by apply Forall_singleton. Qed.

Lemma adds_send host rq :
  P (EvFetch rq) → adds P (proxyRequest <- newRequest rq ;; fetch host proxyRequest).
Proof.
  intros He w. unfold exec. rewrite send_cases. destruct (bodyUsed _ _); [by exists []|].
  exists [EvFetch rq]. split; [done|]. by apply Forall_singleton.
Qed.

Lemma adds_cachePut host key response :
  P (EvCachePut key) → adds P (cachePut host key response).
Proof.
  intros He w. exists [EvCachePut key]. split; [|by apply Forall_singleton].
  unfold exec, cachePut. by destruct (cache_put host _ _ _).
Qed.

Lemma adds_dateNow host : adds P (dateNow host).
Proof. intros w. by exists []. Qed.

Lemma adds_mathRandom host : adds P (mathRandom host).
Proof. intros w. by exists []. Qed.

Lemma adds_createErrorResponse host msg st : adds P (createErrorResponse host msg st).
Proof. intros w. exists []. unfold exec. by rewrite createErrorResponse_run. Qed.

Lemma adds_weightedRandomSelect host bs : adds P (weightedRandomSelect host bs).
Proof.
  unfold weightedRandomSelect. destruct (Qeq_bool _ _); [apply adds_ret|].
  apply adds_bind; [apply adds_mathRandom|].
  intros r. destruct (walk _ _); apply adds_ret.
Qed.

Lemma adds_selectBackend host bs info ms : adds P (selectBackend host bs info ms).
Proof.
  unfold selectBackend. destruct (Nat.eqb _ _); [apply adds_ret|].
  destruct ms as [m|]; [destruct (Nat.ltb _ _)|];
    first [ apply adds_weightedRandomSelect
          | unfold selectByPerformance; apply adds_weightedRandomSelect ].
Qed.

Lemma adds_attempts host config rq fuel :
  P (EvFetch rq) → (∀ ms, P (EvSleep ms)) →
  ∀ attempt lastError, adds P (attempts host config fuel attempt rq lastError).
Proof.
  intros Hrq Hsleep.
  induction fuel as [|fuel IH]; intros attempt lastError; [apply adds_throw|].
  cbn [attempts]. apply adds_bind; [by apply adds_settle, adds_send|].
  intros [response|error]; [apply adds_ret|].
  destruct (negb _); [apply adds_throw|].
  apply adds_bind; [|intros _; apply IH].
  destruct (_ <? _); [by apply adds_emit | apply adds_ret].
Qed.

Lemma adds_failover host config request bs fuel :
  (∀ b, sameBackendIn b bs → P (EvFetch (forwardedRequest request b))) →
  (∀ ms, P (EvSleep ms)) →
  ∀ i count info lastError,
  adds P (failover host config fuel i count request info bs lastError).
Proof.
  intros Hrq Hsleep.
  induction fuel as [|fuel IH]; intros i count info lastError; [apply adds_throw|].
  cbn [failover]. apply adds_bind; [apply adds_get|].
  intros w0.
  apply (adds_bind_when (λ o, ∀ b, o = Some b → sameBackendIn b bs));
    [apply adds_selectBackend| |].
  { intros w o w' E b ->. by eapply selectBackend_Some. }
  intros [backend|] Hsel; [|apply adds_throw].
  apply adds_bind.
  { apply adds_settle, adds_attempts; [|exact Hsleep]. by apply Hrq, Hsel. }
  intros [response|error].
  - destruct (ok response); [|destruct (_ <=? _)].
    + apply adds_bind; [by apply adds_quiet|]. intros _. apply adds_ret.
    + apply adds_bind; [by apply adds_quiet|]. intros _. apply IH.
    + apply adds_ret.
  - apply adds_bind; [by apply adds_quiet|].
    intros _. destruct (_ && _); [apply IH | apply adds_throw].
Qed.

Lemma adds_checkBackendHealth host config backend :
  P (EvFetch (probeOf backend)) → adds P (checkBackendHealth host config backend).
Proof.
  intros Hp. unfold checkBackendHealth. apply adds_bind; [apply adds_get|].
  intros w0. destruct (_ !! _); [|apply adds_ret].
  apply adds_bind; [by apply adds_settle, adds_fetch|].
  intros r. apply adds_bind.
  - destruct r as [response|e]; [destruct (ok response)|]; by apply adds_quiet.
  - intros _. apply adds_bind; [apply adds_dateNow|].
    intros now. by apply adds_quiet.
Qed.

Lemma adds_checkStale host config now bs :
  (∀ b, In b bs → P (EvFetch (probeOf b))) → adds P (checkStale host config now bs).
Proof.
  induction bs as [|backend rest IH]; intros Hp; [apply adds_ret|].
  cbn [checkStale]. apply adds_bind; [apply adds_get|].
  intros w0. apply adds_bind.
  - destruct (_ !! _); [destruct (_ <? _)|];
      first [ apply adds_checkBackendHealth; apply Hp; by left | apply adds_ret ].
  - intros _. apply IH. intros b Hb. apply Hp. by right.
Qed.

Lemma adds_getHealthyBackends host config :
  (∀ b, In b (backends config) → P (EvFetch (probeOf b))) →
  adds P (getHealthyBackends host config).
Proof.
  intros Hp. unfold getHealthyBackends. apply adds_bind; [apply adds_dateNow|].
  intros now. apply adds_bind; [by apply adds_checkStale|].
  intros _. apply adds_bind; [apply adds_get|]. intros w0. apply adds_ret.
Qed.

Lemma adds_handleRequest host config request :
  (∀ b, In b (backends config) → P (EvFetch (probeOf b))) →
  (∀ b, sameBackendIn b (backends config) → P (EvFetch (forwardedRequest request b))) →
  (∀ ms, P (EvSleep ms)) →
  P (EvCacheMatch (href (req_url request))) →
  P (EvCachePut (href (req_url request))) →
  adds P (handleRequest host config request).
Proof.
  intros Hprobe Hforward Hsleep Hmatch Hput. unfold handleRequest.
  apply adds_bind; [apply adds_mathRandom|]. intros requestId.
  apply adds_bind; [apply adds_dateNow|]. intros startTime.
  apply adds_try_catch; [|intros e; apply adds_createErrorResponse].
  unfold handleRequestBody.
  destruct (isRequestTooLarge request); [apply adds_createErrorResponse|].
  apply adds_bind.
  { destruct (_ && _); [|apply adds_ret]. unfold getCachedResponse.
    apply adds_bind; [by apply adds_emit|]. intros _.
    apply adds_bind; [apply adds_get|]. intros w0. apply adds_ret. }
  intros [cached|]; [apply adds_ret|].
  apply (adds_bind_when (λ hb, ∀ x, In x hb → In x (backends config)));
    [by apply adds_getHealthyBackends| |].
  { intros w hb w' E.
    destruct (getHealthyBackends_returns host config w) as [w2 E2].
    rewrite E2 in E. injection E as <- _. intros x. apply filter_In_sub. }
  intros hb Hhb. destruct (Nat.eqb _ _); [apply adds_createErrorResponse|].
  apply adds_bind.
  { unfold proxyRequestWithFallback. apply adds_failover; [|exact Hsleep].
    intros b Hb. apply Hforward. by eapply sameBackendIn_sub. }
  intros response. apply adds_bind; [apply adds_dateNow|]. intros now.
  apply adds_bind.
  { unfold updateMetrics. apply adds_bind; [by apply adds_quiet|].
    intros _. by apply adds_quiet. }
  intros _. apply adds_bind; [|intros _; apply adds_ret].
  destruct (shouldCacheResponse _ _ _); [|apply adds_ret].
  unfold cacheResponse. apply adds_try_catch; [|intros e; apply adds_ret].
  apply adds_bind; [apply adds_dateNow|]. intros now'. by apply adds_cachePut.
Qed.

End Adds.

Lemma adds_grows {A} (P : Event → Prop) (m : M A) : adds P m → grows m.
Proof.
  intros H w. destruct (H w) as (added & -> & _). rewrite length_app. lia.
Qed.

Lemma forwardedRequest_url request b b' :
  url b = url b' → forwardedRequest request b = forwardedRequest request b'.
Proof. intros E. unfold forwardedRequest. by rewrite E. Qed.

Lemma grows_getHealthyBackends host config : grows (getHealthyBackends host config).
Proof. apply (adds_grows (λ _, True)). by apply adds_getHealthyBackends. Qed.

Lemma grows_failover host config fuel i count request info bs lastError :
  grows (failover host config fuel i count request info bs lastError).
Proof. apply (adds_grows (λ _, True)). by apply adds_failover. Qed.

Lemma grown {A} (m : M A) w r w' :
  grows m → m w = (r, w') → (length (history w) ≤ length (history w'))%nat.
Proof. intros H E. specialize (H w). unfold exec in H. by rewrite E in H. Qed.

Lemma handleRequestBody_ending host config request requestId startTime w r w' :
  startTime = Date_now host (length (history w)) →
  handleRequestBody host config request requestId startTime w = (r, w') →
  match r with
  | Ok response => Ending host config request w w' response
  | Throw _ => metrics w' = metrics w ∧ cache w' = cache w
  end.
Proof.
  unfold handleRequestBody. intros Hstart H.
  destruct (isRequestTooLarge request) eqn:Hsmall.
  { rewrite createErrorResponse_run in H. injection H as <- <-.
    eapply (refused_by host); [| | |apply createErrorResponse_run]; try done.
    unfold refusalStatus. tauto. }
  set (cond := enableCaching config && String.eqb (req_method request) "GET") in *.
  assert (Hm : ∃ w1,
             (if cond then getCachedResponse request else ret None) w
             = (Ok (if cond then cache w !! href (req_url request) else None), w1)
             ∧ healthStatus w1 = healthStatus w ∧ metrics w1 = metrics w
             ∧ cache w1 = cache w
             ∧ (length (history w) ≤ length (history w1))%nat).
  { destruct cond; eexists; (split; [reflexivity|]); simpl; repeat split; lia. }
  destruct Hm as (w1 & E1 & H1 & M1 & C1 & L1).
  unfold bind at 1 in H. rewrite E1 in H. clear E1.
  assert (Hrest : ∀ k,
             (bind (getHealthyBackends host config) k) w1 = (r, w') →
             (∀ hb w2, metrics w2 = metrics w → cache w2 = cache w →
                       (length (history w) ≤ length (history w2))%nat →
                       (∀ x, In x hb → In x (backends config)) →
                       k hb w2 = (r, w') →
                       match r with
                       | Ok response => Ending host config request w w' response
                       | Throw _ => metrics w' = metrics w ∧ cache w' = cache w
                       end) →
             match r with
             | Ok response => Ending host config request w w' response
             | Throw _ => metrics w' = metrics w ∧ cache w' = cache w
             end).
  { intros k Hk Hcont. unfold bind in Hk.
    destruct (getHealthyBackends_returns host config w1) as [w2 E2].
    pose proof (kept_by metrics _ _ _ _ (getHealthyBackends_metrics host config) E2) as M2.
    pose proof (cache_kept_by _ _ _ _ (getHealthyBackends_cache host config) E2) as C2.
    pose proof (grown _ _ _ _ (grows_getHealthyBackends host config) E2) as L2.
    rewrite E2 in Hk. eapply Hcont; [| | | |exact Hk]; [congruence | congruence | lia |].
    intros x. apply filter_In_sub. }
  assert (Hserve : ∀ hb w2, metrics w2 = metrics w → cache w2 = cache w →
             (length (history w) ≤ length (history w2))%nat →
             (∀ x, In x hb → In x (backends config)) →
             (if Nat.eqb (length hb) 0
              then createErrorResponse host "All backends unavailable" 503
              else
                response <- proxyRequestWithFallback host config request requestId hb ;;
                now <- dateNow host ;;
                updateMetrics (orElse (headers_get (headers response) "X-Backend-URL") "")
                  (now - startTime) (ok response) ;;;
                (if shouldCacheResponse config request response
                 then cacheResponse host config request response else ret tt) ;;;
                ret response) w2 = (r, w') →
             match r with
             | Ok response => Ending host config request w w' response
             | Throw _ => metrics w' = metrics w ∧ cache w' = cache w
             end).
  { clear H Hrest. intros hb w2 M2 C2 L2 Hsub H.
    destruct (Nat.eqb (length hb) 0).
    { rewrite createErrorResponse_run in H. injection H as <- <-.
      eapply (refused_by host); [| | |apply createErrorResponse_run]; try done.
      unfold refusalStatus. tauto. }
    unfold bind at 1 in H.
    destruct (proxyRequestWithFallback host config request requestId hb w2)
      as [[response|e] w3] eqn:E3;
      pose proof (kept_by metrics _ _ _ _
                    (proxyRequestWithFallback_metrics host config request requestId hb)
                    E3) as M3;
      pose proof (cache_kept_by _ _ _ _
                    (proxyRequestWithFallback_cache host config request requestId hb)
                    E3) as C3.
    2: { injection H as <- <-. split; congruence. }
    unfold proxyRequestWithFallback in E3.
    pose proof (grown _ _ _ _ (grows_failover _ _ _ _ _ _ _ _ _) E3) as L3.
    apply failover_returns in E3 as (upstream & backend & -> & Hfetched & Hlt & Hsame).
    rewrite withBackendInfo_url in H.
    unfold bind, dateNow, updateMetrics, modify in H. cbn beta iota in H.
    assert (Hsame' : sameBackendIn backend (backends config))
      by (eapply sameBackendIn_sub; [exact Hsub | exact Hsame]).
    destruct (shouldCacheResponse config request _) eqn:Hshould.
    - unfold cacheResponse, try_catch, cachePut, bind, dateNow, modify, ret in H.
      cbn beta iota in H.
      match type of H with
      | context [cache_put host ?k ?key ?copy] =>
          destruct (cache_put host k key copy) as [[]|e] eqn:Eput
      end; injection H as <- <-;
      (eapply (FromBackend _ _ _ _ _ _ upstream backend (length (history w3)));
       [exact Hsmall | reflexivity | exact Hfetched | exact Hlt | exact Hsame' | lia | |]).
      + simpl. unfold recorded. rewrite M3, M2, Hstart. reflexivity.
      + rewrite Hshould. left. simpl. unfold cachedCopy. rewrite C3, C2. reflexivity.
      + simpl. unfold recorded. rewrite M3, M2, Hstart. reflexivity.
      + rewrite Hshould. right. split; [simpl; congruence|].
        eexists _, _. unfold cachedCopy. exact Eput.
    - unfold ret in H. injection H as <- <-.
      eapply (FromBackend _ _ _ _ _ _ upstream backend (length (history w3)) "");
        [exact Hsmall | reflexivity | exact Hfetched | exact Hlt | exact Hsame' | lia | |].
      + simpl. unfold recorded. rewrite M3, M2, Hstart. reflexivity.
      + rewrite Hshould. simpl. congruence. }
  destruct cond eqn:Hcond.
  - destruct (cache w !! href (req_url request)) as [cached|] eqn:Hhit.
    + injection H as <- <-. apply andb_prop in Hcond as [Hen Hget].
      apply String.eqb_eq in Hget. by apply FromCache.
    + eapply Hrest; [exact H|]. intros hb w2 M2 C2 L2 Hsub. by apply Hserve.
  - eapply Hrest; [exact H|]. intros hb w2 M2 C2 L2 Hsub. by apply Hserve.
Qed.

Lemma handleRequest_responds (host : Host) (config : ProxyConfig) (request : Request)
    (w : World) :
  ∃ response w',
    handleRequest host config request w = (Ok response, w')
    ∧ Ending host config request w w' response.
Proof.
  unfold handleRequest, generateRequestId, bind, mathRandom, dateNow, try_catch.
  cbn beta iota.
  match goal with
  | |- context [handleRequestBody host config request ?rid ?st ?w1] =>
      destruct (handleRequestBody host config request rid st w1) as [[a|e] w2] eqn:EB;
      pose proof (handleRequestBody_ending _ _ _ _ _ _ _ _ eq_refl EB) as HE
  end.
  - exists a, w2. split; [done|].
    destruct HE as [? ? ? Hm Hc|? ? ? ? ? Hm Hc
                   |upstream backend events stamp ? ? ? ? ? ? Hm Hc].
    + by apply Refused.
    + by apply FromCache.
    + by eapply FromBackend.
  - destruct HE as [Hm Hc]. rewrite createErrorResponse_run.
    eexists _, _. split; [reflexivity|].
    eapply (refused_by host); [| | |apply createErrorResponse_run]; try done.
    apply getErrorStatus_refusal.
Qed.

(** X6: [handleRequest] never throws. What it returns is (a) a JSON
    error response that it made itself, with status 413, 503, 504, 502
    or 499, the Metrics table and the cache left as they were; or
    (b) for a GET with caching enabled, the response stored in the
    cache under the request's URL, with health, metrics and cache left
    as they were; or (c) the response of a backend, with a status below
    500 and the headers X-Backend-URL and X-Backend-Region of a
    backend that has the url and region of a configured one, and then
    exactly one outcome is recorded in the Metrics table, for that
    url, and the write to the cache is best-effort: if
    [shouldCacheResponse] accepts the response, the cache gains its
    stamped copy under the request's URL or, the write having failed,
    is left as it was without the client seeing the failure; if not,
    the cache is left as it was.  A backend's response with status 500
    or more is never handed to the client, and an answer with such a
    status leaves the Metrics table as it was: the failures of the
    backends are not counted in it. *)
Theorem handleRequest_ending (host : Host) (config : ProxyConfig) (request : Request)
    (w : World) :
  ∃ response w',
    handleRequest host config request w = (Ok response, w')
    ∧ Ending host config request w w' response
    ∧ (500 ≤ status response → metrics w' = metrics w).
Proof.
  destruct (handleRequest_responds host config request w) as (response & w' & E & HE).
  exists response, w'. split; [exact E|]. split; [exact HE|].
  intros Hst.
  destruct HE as [_ _ _ Hm _|_ _ _ _ _ Hm _
                  |upstream backend events stamp _ Hr _ Hlt _ _ _ _];
    [exact Hm | exact Hm |].
  subst response. unfold withBackendInfo in Hst. cbn [status] in Hst. lia.
Qed.

(** ** Whom a request reaches *)

(** X7: whatever the backends answer, the only requests that
    [handleRequest] sends are health probes of configured backends and
    the forwarded form of the client's request to the url of a
    configured backend; and the only cache entry it reads or writes is
    the one under the request's URL. *)
Theorem only_configured_backends_contacted (host : Host) (config : ProxyConfig)
    (request : Request) (w : World) :
  ∃ added,
    history (exec (handleRequest host config request) w) = (added ++ history w)%list
    ∧ Forall (contacts config request) added.
Proof.
  apply adds_handleRequest; try done.
  - intros b Hb. exists b. split; [exact Hb | by left].
  - intros b (b' & Hin & Hurl & _). exists b'. split; [exact Hin|].
    right. by apply forwardedRequest_url.
Qed.

(** ** A cache hit *)

(** X8: with caching enabled, a GET whose URL is in the cache (and
    whose declared length is not above the limit) is answered with the
    stored response as it is; the cache lookup is the only thing the
    handler does: no backend is selected, probed or contacted, and the
    Health and Metrics tables and the cache stay as they were. *)
Theorem cache_hit_served (host : Host) (config : ProxyConfig) (request : Request)
    (w : World) (cached : Response) :
  enableCaching config = true →
  req_method request = "GET" →
  isRequestTooLarge request = false →
  cache w !! href (req_url request) = Some cached →
  ∃ w', handleRequest host config request w = (Ok cached, w')
        ∧ history w' = EvCacheMatch (href (req_url request)) :: history w
        ∧ healthStatus w' = healthStatus w
        ∧ metrics w' = metrics w
        ∧ cache w' = cache w.
Proof.
  intros Hen Hget Hsmall Hhit.
  unfold handleRequest, handleRequestBody, generateRequestId, try_catch.
  rewrite Hsmall, Hen, Hget.
  unfold bind, mathRandom, dateNow, getCachedResponse, modify, get, ret.
  cbn. rewrite Hhit. eexists. split; [reflexivity|]. done.
Qed.

(** ** Metrics that stay plausible *)

(** X10: on a host whose clock does not run backwards, [handleRequest]
    keeps every Metrics record plausible: counters and total time not
    negative, errors among the requests.  (These are the records for
    which the performance scores are within their range.) *)
Theorem metrics_stay_plausible (host : Host) (config : ProxyConfig) (request : Request)
    (w : World) :
  monotoneClock host →
  map_Forall (λ _, metricsPlausible) (metrics w) →
  map_Forall (λ _, metricsPlausible)
    (metrics (exec (handleRequest host config request) w)).
Proof.
  intros Hclock Hw.
  destruct (handleRequest_responds host config request w) as (response & w' & E & HE).
  unfold exec. rewrite E. cbn [snd].
  destruct HE as [_ _ _ Hm _|_ _ _ _ _ Hm _
                  |upstream backend events stamp _ _ _ _ _ Hev Hm _];
    [by rewrite Hm | by rewrite Hm |].
  rewrite Hm. unfold recorded. intros u m Hl.
  destruct (decide (u = url backend)) as [->|Hne].
  - rewrite lookup_alter_eq in Hl.
    destruct (metrics w !! url backend) as [m0|] eqn:Hm0; [|done].
    injection Hl as <-. specialize (Hw _ _ Hm0). simpl in Hw.
    pose proof (Hclock _ _ Hev) as Hd.
    unfold metricsPlausible in *. cbn [requests errors totalTime].
    destruct (negb (ok upstream)); lia.
  - rewrite lookup_alter_ne in Hl by done. exact (Hw _ _ Hl).
Qed.

(** ** The backends in rotation *)

Lemma getHealthyBackends_dom host config D :
  preserves (λ w, dom (healthStatus w) = D) (getHealthyBackends host config).
Proof.
  apply preserves_getHealthyBackends;
    first [ done | (intros; simpl; rewrite ?dom_alter_L; congruence) ].
Qed.

(** X11: [getHealthyBackends] never throws, whatever the probes do.  It
    returns, in the configured order, the configured backends that the
    Health table, as the probes left it, does not mark unhealthy; a
    backend without a Health record is always among them.  The run
    adds and removes no Health record and leaves the Metrics table and
    the cache as they were. *)
Theorem getHealthyBackends_result (host : Host) (config : ProxyConfig) (w : World) :
  ∃ w',
    let inRotation :=
      List.filter (notMarkedUnhealthy (healthStatus w')) (backends config) in
    getHealthyBackends host config w = (Ok inRotation, w')
    ∧ sublist inRotation (backends config)
    ∧ (∀ backend, In backend (backends config) →
                  healthStatus w !! url backend = None → In backend inRotation)
    ∧ dom (healthStatus w') = dom (healthStatus w)
    ∧ metrics w' = metrics w
    ∧ cache w' = cache w.
Proof.
  destruct (getHealthyBackends_returns host config w) as [w' E].
  pose proof (kept_by (λ w, dom (healthStatus w)) _ _ _ _
                (getHealthyBackends_dom host config) E) as Hdom.
  exists w'. cbv zeta. split; [exact E|]. split; [apply filter_sublist|].
  split; [|split; [exact Hdom|split]].
  - intros backend Hin Hnone. apply filter_In. split; [exact Hin|].
    unfold notMarkedUnhealthy.
    apply not_elem_of_dom in Hnone. rewrite <- Hdom in Hnone.
    apply not_elem_of_dom in Hnone. by rewrite Hnone.
  - exact (kept_by metrics _ _ _ _ (getHealthyBackends_metrics host config) E).
  - exact (cache_kept_by _ _ _ _ (getHealthyBackends_cache host config) E).
Qed.

Lemma checkStale_fresh host config now bs w :
  (∀ backend health, In backend bs → healthStatus w !! url backend = Some health →
                     now - lastCheck health ≤ healthCheckInterval config) →
  checkStale host config now bs w = (Ok tt, w).
Proof.
  induction bs as [|backend rest IH]; intros Hfresh; [done|].
  cbn [checkStale]. unfold bind at 1. unfold get at 1. cbn beta iota.
  unfold bind at 1.
  assert (Hrest : checkStale host config now rest w = (Ok tt, w))
    by (apply IH; intros b h Hin; apply Hfresh; by right).
  destruct (healthStatus w !! url backend) as [health|] eqn:Hl.
  - rewrite (proj2 (Z.ltb_ge _ _)) by (eapply Hfresh; [by left | exact Hl]).
    exact Hrest.
  - exact Hrest.
Qed.

(** X12: while no configured backend's last check is older than
    [healthCheckInterval], [getHealthyBackends] sends no probe and
    changes nothing: the answer is read off the Health table as it
    is. *)
Theorem getHealthyBackends_fresh (host : Host) (config : ProxyConfig) (w : World) :
  (∀ backend health,
      In backend (backends config) → healthStatus w !! url backend = Some health →
      Date_now host (length (history w)) - lastCheck health
      ≤ healthCheckInterval config) →
  getHealthyBackends host config w
  = (Ok (List.filter (notMarkedUnhealthy (healthStatus w)) (backends config)), w).
Proof.
  intros Hfresh. unfold getHealthyBackends. unfold bind at 1. unfold dateNow at 1.
  cbn beta iota. unfold bind at 1. by rewrite checkStale_fresh.
Qed.

Lemma checkBackendHealth_effect (host : Host) (config : ProxyConfig)
    (backend : BackendConfig) (w : World) (health : BackendHealth) :
  healthStatus w !! url backend = Some health →
  ∃ w',
    checkBackendHealth host config backend w = (Ok tt, w')
    ∧ history w' = EvFetch (probeOf backend) :: history w
    ∧ healthStatus w' !! url backend
      = Some (checked (Date_now host (S (length (history w))))
                (match net_fetch host (length (history w)) (probeOf backend) with
                 | Ok response =>
                     if ok response then healthy health else failed config health
                 | Throw _ => failed config health
                 end))
    ∧ (∀ u, u ≠ url backend → healthStatus w' !! u = healthStatus w !! u).
Proof.
  intros Hl. unfold checkBackendHealth, bind, get. cbn beta iota. rewrite Hl.
  unfold settle, fetch. fold (probeOf backend). cbn beta iota.
  destruct (net_fetch host (length (history w)) (probeOf backend)) as [response|e];
    [destruct (ok response)|];
    (eexists; split; [reflexivity|]; simpl;
     split; [reflexivity|]; split; [by rewrite !lookup_alter_eq, Hl|];
     intros u Hne; by rewrite !lookup_alter_ne).
Qed.

(** X13: a health check of a backend that has a Health record sends
    one bodiless HEAD request to the backend's url followed by /health
    and never throws.  An answer with a 2xx status sets isHealthy and
    puts the failure count at zero, whatever the count was; any other
    answer, or a failed request, adds one to the failure count and
    sets isHealthy to whether the new count is below the threshold.
    In both cases lastCheck becomes the clock value read after the
    probe and avgResponseTime stays; the records of other urls, the
    Metrics table and the cache are left as they were. *)
Theorem checkBackendHealth_probe (host : Host) (config : ProxyConfig)
    (backend : BackendConfig) (w : World) (health : BackendHealth) :
  healthStatus w !! url backend = Some health →
  ∃ w',
    checkBackendHealth host config backend w = (Ok tt, w')
    ∧ history w' = EvFetch (probeOf backend) :: history w
    ∧ fetch_method (probeOf backend) = "HEAD"
    ∧ fetch_url (probeOf backend) = url backend ++ "/health"
    ∧ fetch_body (probeOf backend) = NoBody
    ∧ healthStatus w' !! url backend
      = Some (let up := {| isHealthy := true;
                           lastCheck := Date_now host (S (length (history w)));
                           consecutiveFailures := 0;
                           avgResponseTime := avgResponseTime health |} in
              let down := {| isHealthy := consecutiveFailures health + 1
                                          <? circuitBreakerThreshold config;
                             lastCheck := Date_now host (S (length (history w)));
                             consecutiveFailures := consecutiveFailures health + 1;
                             avgResponseTime := avgResponseTime health |} in
              match net_fetch host (length (history w)) (probeOf backend) with
              | Ok response => if ok response then up else down
              | Throw _ => down
              end)
    ∧ (∀ u, u ≠ url backend → healthStatus w' !! u = healthStatus w !! u)
    ∧ metrics w' = metrics w
    ∧ cache w' = cache w.
Proof.
  intros Hl.
  destruct (checkBackendHealth_effect host config backend w health Hl)
    as (w' & E & Hhist & Hrec & Hother).
  exists w'. split; [exact E|]. split; [exact Hhist|].
  split; [done|]. split; [done|]. split; [done|].
  split; [|split; [exact Hother|split]].
  - rewrite Hrec. cbn zeta.
    destruct (net_fetch host (length (history w)) (probeOf backend)) as [response|e];
      [destruct (ok response)|]; reflexivity.
  - eapply (kept_by metrics); [|exact E]. intros c.
    apply preserves_checkBackendHealth; frame_side.
  - eapply (kept_by cache); [|exact E]. intros c.
    apply preserves_checkBackendHealth; frame_side.
Qed.

(** ** The failure count *)

Lemma markAll_lookup config marks u :
  ∀ w, healthStatus (exec (markAll config marks u) w) !! u
       = fold_left (λ h (mark : bool), if mark then healthy h else failed config h) marks
         <$> healthStatus w !! u.
Proof.
  induction marks as [|mark rest IH]; intros w.
  { unfold exec. simpl. by destruct (healthStatus w !! u). }
  cbn [markAll fold_left]. unfold exec, bind.
  destruct mark; cbn; unfold exec in IH; rewrite IH; simpl; rewrite lookup_alter_eq;
    by destruct (healthStatus w !! u).
Qed.

Lemma failures_counted config (k : nat) :
  ∀ h, (0 < k)%nat →
       fold_left (λ h (mark : bool), if mark then healthy h else failed config h)
         (repeat false k) h
       = {| isHealthy := consecutiveFailures h + Z.of_nat k <? circuitBreakerThreshold config;
            lastCheck := lastCheck h;
            consecutiveFailures := consecutiveFailures h + Z.of_nat k;
            avgResponseTime := avgResponseTime h |}.
Proof.
  induction k as [|k IH]; intros h Hk; [lia|].
  cbn [repeat fold_left]. destruct k as [|k].
  - simpl. unfold failed. reflexivity.
  - rewrite IH by lia. unfold failed. cbn [consecutiveFailures lastCheck avgResponseTime].
    replace (consecutiveFailures h + 1 + Z.of_nat (S k))
      with (consecutiveFailures h + Z.of_nat (S (S k))) by lia.
    reflexivity.
Qed.

(** X14: the failure count of a backend is the number of failures
    marked since its last success, and the backend is in rotation
    exactly when there was none, or fewer than
    [circuitBreakerThreshold]: after any marks, a success followed by
    [k] failures leaves the count at [k] and the backend healthy iff
    [k = 0] or [k < circuitBreakerThreshold]; the time of the last
    check and the average response time are not touched. *)
Theorem failures_since_last_success (config : ProxyConfig) (u : string)
    (earlier : list bool) (k : nat) (w : World) (health : BackendHealth) :
  healthStatus w !! u = Some health →
  healthStatus (exec (markAll config (earlier ++ true :: repeat false k)%list u) w) !! u
  = Some {| isHealthy :=
              (Z.of_nat k =? 0) || (Z.of_nat k <? circuitBreakerThreshold config);
            lastCheck := lastCheck health;
            consecutiveFailures := Z.of_nat k;
            avgResponseTime := avgResponseTime health |}.
Proof.
  intros Hl. rewrite markAll_lookup, Hl. cbn [fmap option_fmap option_map]. f_equal.
  rewrite fold_left_app. cbn [fold_left].
  set (h0 := fold_left _ earlier health).
  assert (Hkeep : lastCheck h0 = lastCheck health
                  ∧ avgResponseTime h0 = avgResponseTime health).
  { subst h0. clear Hl. revert health.
    induction earlier as [|mark rest IH]; intros health; [done|].
    cbn [fold_left]. destruct (IH (if mark then healthy health else failed config health))
      as [-> ->]. by destruct mark. }
  destruct Hkeep as [Hlc Havg].
  destruct k as [|k].
  - simpl. unfold healthy. by rewrite Hlc, Havg.
  - rewrite failures_counted by lia. unfold healthy.
    cbn [consecutiveFailures lastCheck avgResponseTime]. rewrite Hlc, Havg.
    replace (Z.of_nat (S k) =? 0) with false by (symmetry; apply Z.eqb_neq; lia).
    reflexivity.
Qed.

(** ** The calls of [fetch] that a request can cost *)

Lemma spends_weaken {A} (a b : nat) (m : M A) : (a ≤ b)%nat → spends a m → spends b m.
Proof. intros Hab Hm w. specialize (Hm w). lia. Qed.

Lemma spends_ret {A} (a : A) : spends 0 (ret a).
Proof. intros w. unfold exec. simpl. lia. Qed.

Lemma spends_throw {A} (e : JsError) : spends 0 (@throw A e).
Proof. intros w. unfold exec. simpl. lia. Qed.

Lemma spends_quiet (f : World → World) :
  (∀ w, fetchCount (history (f w)) = fetchCount (history w)) → spends 0 (modify f).
Proof. intros Hf w. unfold exec. simpl. rewrite Hf. lia. Qed.

Lemma spends_bind {A B} (a b : nat) (m : M A) (k : A → M B) :
  spends a m → (∀ x, spends b (k x)) → spends (a + b) (bind m k).
Proof.
  intros Hm Hk w. specialize (Hm w). unfold exec, bind in *.
  destruct (m w) as [[x|e] w1]; simpl in *; [|lia].
  specialize (Hk x w1). unfold exec in Hk. lia.
Qed.

Lemma spends_try_catch {A} (a b : nat) (m : M A) (h : JsError → M A) :
  spends a m → (∀ e, spends b (h e)) → spends (a + b) (try_catch m h).
Proof.
  intros Hm Hh w. specialize (Hm w). unfold exec, try_catch in *.
  destruct (m w) as [[x|e] w1]; simpl in *; [lia|].
  specialize (Hh e w1). unfold exec in Hh. lia.
Qed.

Lemma spends_settle {A} (a : nat) (m : M A) : spends a m → spends a (settle m).
Proof. intros Hm w. specialize (Hm w). unfold exec, settle in *. by destruct (m w). Qed.

Lemma spends_fetch host rq : spends 1 (fetch host rq).
Proof. intros w. unfold exec, fetch, fetchCount. simpl. lia. Qed.

Lemma spends_send host rq :
  spends 1 (proxyRequest <- newRequest rq ;; fetch host proxyRequest).
Proof.
  intros w. unfold exec. rewrite send_cases.
  destruct (bodyUsed _ _); unfold fetchCount; simpl; lia.
Qed.

Lemma spends_dateNow host : spends 0 (dateNow host).
Proof. intros w. unfold exec. simpl. lia. Qed.

Lemma spends_mathRandom host : spends 0 (mathRandom host).
Proof. intros w. unfold exec. simpl. lia. Qed.

Lemma spends_sleep ms : spends 0 (sleep ms).
Proof. by apply spends_quiet. Qed.

Lemma spends_markBackendHealthy u : spends 0 (markBackendHealthy u).
Proof. by apply spends_quiet. Qed.

Lemma spends_markBackendUnhealthy config u : spends 0 (markBackendUnhealthy config u).
Proof. by apply spends_quiet. Qed.

Lemma spends_createErrorResponse host msg st : spends 0 (createErrorResponse host msg st).
Proof. intros w. unfold exec. rewrite createErrorResponse_run. simpl. lia. Qed.

Lemma spends_weightedRandomSelect host bs : spends 0 (weightedRandomSelect host bs).
Proof.
  unfold weightedRandomSelect. destruct (Qeq_bool _ _); [apply spends_ret|].
  apply (spends_bind 0 0); [apply spends_mathRandom|].
  intros r. destruct (walk _ _); apply spends_ret.
Qed.

Lemma spends_selectBackend host bs info ms : spends 0 (selectBackend host bs info ms).
Proof.
  unfold selectBackend. destruct (Nat.eqb _ _); [apply spends_ret|].
  destruct ms as [m|]; [destruct (Nat.ltb _ _)|];
    first [ apply spends_weightedRandomSelect
          | unfold selectByPerformance; apply spends_weightedRandomSelect ].
Qed.

Lemma spends_attempts host config fuel :
  ∀ attempt rq lastError, spends fuel (attempts host config fuel attempt rq lastError).
Proof.
  induction fuel as [|fuel IH]; intros attempt rq lastError; [apply spends_throw|].
  cbn [attempts]. apply (spends_bind 1 fuel).
  { apply spends_settle, spends_send. }
  intros [response|error].
  - eapply spends_weaken; [|apply spends_ret]. lia.
  - destruct (negb _).
    + eapply spends_weaken; [|apply spends_throw]. lia.
    + apply (spends_bind 0 fuel); [|intros _; apply IH].
      destruct (_ <? _); [apply spends_sleep | apply spends_ret].
Qed.

Lemma spends_proxyRequest host config request backend :
  spends (Z.to_nat (retryAttempts config)) (proxyRequest host config request backend).
Proof. apply spends_attempts. Qed.

Lemma spends_failover host config fuel :
  ∀ i count request info bs lastError,
  spends (fuel * Z.to_nat (retryAttempts config))
    (failover host config fuel i count request info bs lastError).
Proof.
  induction fuel as [|fuel IH]; intros i count request info bs lastError;
    [apply spends_throw|].
  cbn [failover]. set (n := Z.to_nat (retryAttempts config)).
  apply (spends_bind 0 (S fuel * n)); [intros w; unfold exec; simpl; lia|].
  intros w0. apply (spends_bind 0 (S fuel * n)); [apply spends_selectBackend|].
  intros [backend|]; [|eapply spends_weaken; [|apply spends_throw]; lia].
  replace (S fuel * n)%nat with (n + fuel * n)%nat by lia.
  apply spends_bind; [apply spends_settle, spends_proxyRequest|].
  intros [response|error].
  - destruct (ok response); [|destruct (_ <=? _)].
    + eapply spends_weaken;
        [|apply (spends_bind 0 0);
          [apply spends_markBackendHealthy | intros _; apply spends_ret]]. lia.
    + apply (spends_bind 0 (fuel * n));
        [apply spends_markBackendUnhealthy | intros _; apply IH].
    + eapply spends_weaken; [|apply spends_ret]. lia.
  - apply (spends_bind 0 (fuel * n)); [apply spends_markBackendUnhealthy|].
    intros _. destruct (_ && _); [apply IH|].
    eapply spends_weaken; [|apply spends_throw]. lia.
Qed.

Lemma spends_checkBackendHealth host config backend :
  spends 1 (checkBackendHealth host config backend).
Proof.
  unfold checkBackendHealth.
  apply (spends_bind 0 1); [intros w; unfold exec; simpl; lia|].
  intros w0. destruct (_ !! _); [|eapply spends_weaken; [|apply spends_ret]; lia].
  apply (spends_bind 1 0); [apply spends_settle, spends_fetch|].
  intros r. apply (spends_bind 0 0).
  - destruct r as [response|e]; [destruct (ok response)|];
      first [apply spends_markBackendHealthy | apply spends_markBackendUnhealthy].
  - intros _. apply (spends_bind 0 0); [apply spends_dateNow|].
    intros now. by apply spends_quiet.
Qed.

Lemma spends_checkStale host config now bs :
  spends (length bs) (checkStale host config now bs).
Proof.
  induction bs as [|backend rest IH]; [apply spends_ret|].
  cbn [checkStale length].
  apply (spends_bind 0 (S (length rest))); [intros w; unfold exec; simpl; lia|].
  intros w0. apply (spends_bind 1 (length rest)); [|intros _; exact IH].
  destruct (_ !! _); [destruct (_ <? _)|];
    first [ apply spends_checkBackendHealth
          | (eapply spends_weaken; [|apply spends_ret]; lia) ].
Qed.

Lemma spends_getHealthyBackends host config :
  spends (length (backends config)) (getHealthyBackends host config).
Proof.
  unfold getHealthyBackends.
  apply (spends_bind 0 (length (backends config))); [apply spends_dateNow|].
  intros now. replace (length (backends config)) with (length (backends config) + 0)%nat
    by lia.
  apply spends_bind; [apply spends_checkStale|].
  intros _. apply (spends_bind 0 0); [intros w; unfold exec; simpl; lia|].
  intros w0. apply spends_ret.
Qed.

Lemma spends_proxyRequestWithFallback host config request requestId bs :
  spends (Z.to_nat (Z.min (Z.of_nat (length bs)) 3) * Z.to_nat (retryAttempts config))
    (proxyRequestWithFallback host config request requestId bs).
Proof. apply spends_failover. Qed.

Lemma spends_bind_when {A B} (Q : A → Prop) (a b : nat) (m : M A) (k : A → M B) :
  spends a m → (∀ w x w', m w = (Ok x, w') → Q x) → (∀ x, Q x → spends b (k x)) →
  spends (a + b) (bind m k).
Proof.
  intros Hm HQ Hk w. specialize (Hm w). specialize (HQ w). unfold exec, bind in *.
  destruct (m w) as [[x|e] w1]; simpl in *; [|lia].
  specialize (Hk x (HQ _ _ eq_refl) w1). unfold exec in Hk. lia.
Qed.

Lemma spends_getCachedResponse request : spends 0 (getCachedResponse request).
Proof.
  unfold getCachedResponse. apply (spends_bind 0 0); [by apply spends_quiet|].
  intros _. apply (spends_bind 0 0); [intros w; unfold exec; simpl; lia|].
  intros w0. apply spends_ret.
Qed.

Lemma spends_updateMetrics u d s : spends 0 (updateMetrics u d s).
Proof.
  unfold updateMetrics. apply (spends_bind 0 0); [by apply spends_quiet|].
  intros _. by apply spends_quiet.
Qed.

Lemma spends_cacheResponse host config request response :
  spends 0 (cacheResponse host config request response).
Proof.
  intros w. unfold exec. rewrite cacheResponse_run. cbn zeta.
  destruct (cache_put host _ _ _); unfold fetchCount; simpl; lia.
Qed.

(** X15: one call of [handleRequest] calls [fetch] at most once per
    configured backend for the health probes, and at most
    [retryAttempts] times for each of at most [min(backends, 3)] turns
    of the failover loop, whatever the backends answer. *)
Theorem handleRequest_fetch_budget (host : Host) (config : ProxyConfig)
    (request : Request) (w : World) :
  (fetchCount (history (exec (handleRequest host config request) w))
   ≤ fetchCount (history w)
     + (length (backends config)
        + Nat.min (length (backends config)) 3 * Z.to_nat (retryAttempts config)))%nat.
Proof.
  set (B := length (backends config)). set (n := Z.to_nat (retryAttempts config)).
  revert w. change (spends (B + Nat.min B 3 * n) (handleRequest host config request)).
  unfold handleRequest.
  apply (spends_bind 0 (B + Nat.min B 3 * n)); [apply spends_mathRandom|].
  intros requestId.
  apply (spends_bind 0 (B + Nat.min B 3 * n)); [apply spends_dateNow|].
  intros startTime.
  replace (B + Nat.min B 3 * n)%nat with (B + Nat.min B 3 * n + 0)%nat by lia.
  apply spends_try_catch; [|intros e; apply spends_createErrorResponse].
  unfold handleRequestBody.
  destruct (isRequestTooLarge request).
  { eapply spends_weaken; [|apply spends_createErrorResponse]. lia. }
  apply (spends_bind 0 (B + Nat.min B 3 * n)).
  { destruct (_ && _); [apply spends_getCachedResponse | apply spends_ret]. }
  intros [cached|]; [eapply spends_weaken; [|apply spends_ret]; lia|].
  apply (spends_bind_when (λ hb, (length hb ≤ B)%nat));
    [apply spends_getHealthyBackends| |].
  { intros w hb w' E.
    destruct (getHealthyBackends_returns host config w) as [w2 E2].
    rewrite E2 in E. injection E as <- _. apply filter_length_le. }
  intros hb Hhb. destruct (Nat.eqb _ _).
  { eapply spends_weaken; [|apply spends_createErrorResponse]. lia. }
  replace (Nat.min B 3 * n)%nat with (Nat.min B 3 * n + 0)%nat by lia.
  apply spends_bind.
  { eapply spends_weaken; [|apply spends_proxyRequestWithFallback].
    fold n. apply Nat.mul_le_mono_r. lia. }
  intros response. apply (spends_bind 0 0); [apply spends_dateNow|].
  intros now. apply (spends_bind 0 0); [apply spends_updateMetrics|].
  intros _. apply (spends_bind 0 0); [|intros _; apply spends_ret].
  destruct (shouldCacheResponse _ _ _); [apply spends_cacheResponse | apply spends_ret].
Qed.

(** ** A configuration that allows no attempt *)

Lemma selectBackend_nonempty host bs info ms w :
  bs ≠ [] →
  ∃ b w', selectBackend host bs info ms w = (Ok (Some b), w') ∧ onlyDraws w w'.
Proof.
  intros Hne. unfold selectBackend. destruct (Nat.eqb (length bs) 1).
  { destruct bs as [|b rest]; [done|]. by exists b, w. }
  assert (Hplain : ∃ b w', weightedRandomSelect host (candidateBackendsOf bs info) w
                           = (Ok (Some b), w') ∧ onlyDraws w w').
  { destruct (weightedRandomSelect_spec host (candidateBackendsOf bs info) w
                (candidateBackendsOf_nonempty _ _ Hne)) as (b & w' & E & _ & Hd & _).
    by exists b, w'. }
  destruct ms as [m|]; [|exact Hplain].
  destruct (Nat.ltb 0 (size m)); [|exact Hplain].
  unfold selectByPerformance.
  destruct (weightedRandomSelect_spec host
              (weightedBackendsOf (candidateBackendsOf bs info) m) w
              (weightedBackendsOf_nonempty _ _ (candidateBackendsOf_nonempty _ _ Hne)))
    as (b & w' & E & _ & Hd & _).
  by exists b, w'.
Qed.

(** X16: with [retryAttempts] at zero or below (RETRY_ATTEMPTS=0 is
    accepted by the loader) the forwarder makes no request and throws
    "All retry attempts failed".  The failover loop then gives up at
    its first turn with that error, without having contacted anyone,
    and still counts a failure against the backend it had selected. *)
Theorem no_attempt_allowed (host : Host) (config : ProxyConfig) (request : Request)
    (requestId : Q) (bs : list BackendConfig) (w : World) :
  retryAttempts config ≤ 0 →
  bs ≠ [] →
  (∀ backend w0,
      proxyRequest host config request backend w0
      = (Throw (newError "All retry attempts failed"), w0))
  ∧ ∃ backend w',
      proxyRequestWithFallback host config request requestId bs w
      = (Throw (newError "All retry attempts failed"), w')
      ∧ sameBackendIn backend bs
      ∧ healthStatus w' = alter (failed config) (url backend) (healthStatus w)
      ∧ history w' = history w
      ∧ metrics w' = metrics w
      ∧ cache w' = cache w.
Proof.
  intros Hn Hne.
  assert (Hfw : ∀ backend w0,
             proxyRequest host config request backend w0
             = (Throw (newError "All retry attempts failed"), w0)).
  { intros backend w0. unfold proxyRequest.
    replace (Z.to_nat (retryAttempts config)) with 0%nat by lia. reflexivity. }
  split; [exact Hfw|].
  unfold proxyRequestWithFallback.
  destruct (Z.to_nat (Z.min (Z.of_nat (length bs)) 3)) as [|fuel] eqn:Hfuel.
  { destruct bs; [done|]. simpl length in Hfuel. lia. }
  cbn [failover]. unfold bind at 1. unfold get at 1. cbn beta iota.
  destruct (selectBackend_nonempty host bs (parseRequest request) (Some (metrics w)) w Hne)
    as (backend & w1 & E & Hh & Hm & Hc & Hhist).
  pose proof (selectBackend_Some _ _ _ _ _ _ _ E) as Hsame.
  unfold bind at 1. rewrite E. unfold bind at 1. unfold settle. rewrite Hfw.
  cbn beta iota.
  assert (Hnn : isNetworkError (newError "All retry attempts failed") = false)
    by (vm_compute; reflexivity).
  rewrite Hnn. unfold bind, markBackendUnhealthy, modify, throw. cbn.
  exists backend. eexists. split; [reflexivity|]. simpl.
  split; [exact Hsame|]. by rewrite Hh.
Qed.

(** ** An outage *)

Lemma fetchCount_retryEvents rq (k : nat) :
  ∀ attempt w,
  fetchCount (history (emitAll (retryEvents rq attempt k) w))
  = (fetchCount (history w) + S k)%nat.
Proof.
  induction k as [|k IH]; intros attempt w.
  - unfold emitAll, fetchCount. simpl. lia.
  - rewrite emitAll_retry, IH. unfold fetchCount. simpl. lia.
Qed.

Lemma forwardedRequest_body request backend :
  fetch_body (forwardedRequest request backend) = sentBody request.
Proof. reflexivity. Qed.

Lemma proxyRequest_down host config request backend e w :
  networkDown host e → 1 ≤ retryAttempts config → sentBody request = NoBody →
  ∃ w', proxyRequest host config request backend w = (Throw e, w')
        ∧ fetchCount (history w')
          = (fetchCount (history w)
             + (if isRetryableError e then Z.to_nat (retryAttempts config) else 1))%nat.
Proof.
  intros Hdown Hn Hnb. unfold proxyRequest.
  set (rq := forwardedRequest request backend).
  set (k := if isRetryableError e then (Z.to_nat (retryAttempts config) - 1)%nat
            else 0%nat).
  pose proof (attempts_run host config rq k Hnb (Z.to_nat (retryAttempts config)) 0 None w)
    as Hrun.
  rewrite Hdown in Hrun.
  exists (emitAll (retryEvents rq 0 k) w). split.
  - apply Hrun.
    + subst k. destruct (isRetryableError e); lia.
    + lia.
    + intros j Hj. exists e. split; [apply Hdown|].
      subst k. destruct (isRetryableError e); [done | lia].
    + subst k. destruct (isRetryableError e); [right; lia | by left].
  - rewrite fetchCount_retryEvents. subst k. destruct (isRetryableError e); lia.
Qed.

Lemma failover_down host config request info bs e :
  networkDown host e → 1 ≤ retryAttempts config → bs ≠ [] →
  sentBody request = NoBody →
  ∀ (fuel : nat) i count lastError w,
  (0 < fuel)%nat → i + Z.of_nat fuel = count →
  ∃ w', failover host config fuel i count request info bs lastError w = (Throw e, w')
        ∧ fetchCount (history w')
          = (fetchCount (history w)
             + (if isNetworkError e then fuel else 1%nat)
               * (if isRetryableError e then Z.to_nat (retryAttempts config) else 1))%nat.
Proof.
  intros Hdown Hn Hne Hnb.
  induction fuel as [|fuel IH]; intros i count lastError w Hpos Hcount; [lia|].
  cbn [failover]. unfold bind at 1. unfold get at 1. cbn beta iota.
  destruct (selectBackend_nonempty host bs info (Some (metrics w)) w Hne)
    as (backend & w1 & E & _ & _ & _ & Hhist).
  unfold bind at 1. rewrite E. unfold bind at 1. unfold settle.
  destruct (proxyRequest_down host config request backend e w1 Hdown Hn Hnb)
    as (w2 & -> & Hc2).
  cbn beta iota. unfold bind at 1. unfold markBackendUnhealthy at 1, modify at 1.
  cbn beta iota.
  set (w3 := set_healthStatus _ w2).
  assert (Hc3 : fetchCount (history w3)
                = (fetchCount (history w)
                   + (if isRetryableError e then Z.to_nat (retryAttempts config)
                      else 1))%nat)
    by (subst w3; simpl; by rewrite Hc2, Hhist).
  destruct (isNetworkError e) eqn:Hnet; cbn [andb].
  - destruct fuel as [|fuel].
    + rewrite (proj2 (Z.ltb_ge _ _)) by lia. exists w3. split; [done|].
      rewrite Hc3. lia.
    + rewrite (proj2 (Z.ltb_lt _ _)) by lia.
      destruct (IH (i + 1) count (Some e) w3 ltac:(lia) ltac:(lia)) as (w' & -> & Hc).
      exists w'. split; [done|]. rewrite Hc, Hc3. lia.
  - exists w3. split; [done|]. rewrite Hc3. lia.
Qed.

(** Once the body was sent, no turn of the retry loop sends anything:
    each fails to build its request. *)
Lemma attempts_used host config rq fuel :
  ∀ attempt lastError w,
  bodyUsed (fetch_body rq) (history w) = true → (0 < fuel)%nat →
  ∃ w', attempts host config fuel attempt rq lastError w = (Throw disturbedStream, w')
        ∧ fetchCount (history w') = fetchCount (history w)
        ∧ bodyUsed (fetch_body rq) (history w') = true.
Proof.
  induction fuel as [|fuel IH]; intros attempt lastError w Hused Hpos; [lia|].
  rewrite attempts_step, send_cases, Hused, disturbedStream_retryable.
  unfold bind at 1.
  assert (Hs : ∃ w1,
             (if attempt <? retryAttempts config - 1
              then sleep (2 ^ attempt * 1000) else ret tt) w = (Ok tt, w1)
             ∧ fetchCount (history w1) = fetchCount (history w)
             ∧ bodyUsed (fetch_body rq) (history w1) = true).
  { destruct (_ <? _); eexists; (split; [reflexivity|]); (split; [done|]);
      [by apply bodyUsed_cons | done]. }
  destruct Hs as (w1 & -> & Hc1 & Hu1).
  destruct fuel as [|fuel]; [by exists w1|].
  destruct (IH (attempt + 1) (Some disturbedStream) w1 Hu1 ltac:(lia))
    as (w' & -> & Hc & Hu).
  exists w'. split; [done|]. split; [lia | done].
Qed.

(** With the network down, a body that was not sent before is sent
    once. *)
Lemma attempts_down_fresh host config rq e fuel attempt lastError w :
  networkDown host e → fetch_body rq ≠ NoBody →
  bodyUsed (fetch_body rq) (history w) = false →
  ∃ w', attempts host config (S fuel) attempt rq lastError w
        = (Throw (if isRetryableError e && negb (Nat.eqb fuel 0)
                  then disturbedStream else e), w')
        ∧ fetchCount (history w') = S (fetchCount (history w))
        ∧ bodyUsed (fetch_body rq) (history w') = true.
Proof.
  intros Hdown Hbody Hfresh.
  rewrite attempts_step, send_cases, Hfresh, Hdown.
  assert (Hu : bodyUsed (fetch_body rq) (history (emit (EvFetch rq) w)) = true)
    by by apply bodyUsed_sent.
  destruct (isRetryableError e); [|by eexists].
  unfold bind at 1.
  assert (Hs : ∃ w1,
             (if attempt <? retryAttempts config - 1
              then sleep (2 ^ attempt * 1000) else ret tt) (emit (EvFetch rq) w)
             = (Ok tt, w1)
             ∧ fetchCount (history w1) = S (fetchCount (history w))
             ∧ bodyUsed (fetch_body rq) (history w1) = true).
  { destruct (_ <? _); eexists; (split; [reflexivity|]); (split; [done|]);
      [by apply bodyUsed_cons | done]. }
  destruct Hs as (w1 & -> & Hc1 & Hu1).
  destruct fuel as [|fuel]; [by exists w1|].
  destruct (attempts_used host config rq (S fuel) (attempt + 1) (Some e) w1 Hu1
              ltac:(lia)) as (w' & -> & Hc & Hu').
  exists w'. split; [done|]. split; [lia | done].
Qed.

Lemma disturbedStream_network : isNetworkError disturbedStream = true.
Proof. reflexivity. Qed.

Lemma failover_used host config request info bs :
  1 ≤ retryAttempts config → bs ≠ [] →
  ∀ (fuel : nat) i count lastError w,
  bodyUsed (sentBody request) (history w) = true →
  (0 < fuel)%nat → i + Z.of_nat fuel = count →
  ∃ w', failover host config fuel i count request info bs lastError w
        = (Throw disturbedStream, w')
        ∧ fetchCount (history w') = fetchCount (history w).
Proof.
  intros Hn Hne.
  induction fuel as [|fuel IH]; intros i count lastError w Hused Hpos Hcount; [lia|].
  cbn [failover]. unfold bind at 1. unfold get at 1. cbn beta iota.
  destruct (selectBackend_nonempty host bs info (Some (metrics w)) w Hne)
    as (backend & w1 & E & _ & _ & _ & Hhist).
  unfold bind at 1. rewrite E. unfold bind at 1. unfold settle, proxyRequest.
  destruct (attempts_used host config (forwardedRequest request backend)
              (Z.to_nat (retryAttempts config)) 0 None w1
              ltac:(by rewrite forwardedRequest_body, Hhist) ltac:(lia))
    as (w2 & -> & Hc2 & Hu2).
  cbn beta iota. unfold bind at 1. unfold markBackendUnhealthy at 1, modify at 1.
  cbn beta iota. rewrite disturbedStream_network. cbn [andb].
  set (w3 := set_healthStatus _ w2).
  destruct fuel as [|fuel].
  - rewrite (proj2 (Z.ltb_ge _ _)) by lia. exists w3. split; [done|].
    subst w3. simpl. by rewrite Hc2, Hhist.
  - rewrite (proj2 (Z.ltb_lt _ _)) by lia.
    destruct (IH (i + 1) count (Some disturbedStream) w3 Hu2 ltac:(lia) ltac:(lia))
      as (w' & -> & Hc).
    exists w'. split; [done|]. rewrite Hc. subst w3. simpl. by rewrite Hc2, Hhist.
Qed.

(** X17: when every request to a backend fails with the same error and
    at least one attempt is allowed, what the failover loop costs
    depends on the body of the request.  A request that is forwarded
    without a body (a GET, a HEAD, or no body at all) ends with that
    error after exactly (turns x attempts) requests: [min(backends, 3)]
    turns if the error is a network error and one turn otherwise,
    [retryAttempts] attempts in each turn if the error is retryable
    and one otherwise; the bound on the requests of a call is reached.
    A request whose body is a stream that was not sent before is sent
    exactly once: every later attempt and turn fails on building its
    request from the stream that was sent, and the loop ends with that
    failure whenever there was a later attempt or turn. *)
Theorem outage_cost (host : Host) (config : ProxyConfig) (request : Request)
    (requestId : Q) (bs : list BackendConfig) (e : JsError) (w : World) :
  networkDown host e →
  1 ≤ retryAttempts config →
  bs ≠ [] →
  (sentBody request = NoBody →
   ∃ w', proxyRequestWithFallback host config request requestId bs w = (Throw e, w')
         ∧ fetchCount (history w')
           = (fetchCount (history w)
              + (if isNetworkError e then Nat.min (length bs) 3 else 1%nat)
                * (if isRetryableError e then Z.to_nat (retryAttempts config)
                   else 1))%nat)
  ∧ (sentBody request ≠ NoBody →
     bodyUsed (sentBody request) (history w) = false →
     ∃ w', proxyRequestWithFallback host config request requestId bs w
           = (Throw (if (isRetryableError e && (2 <=? retryAttempts config))
                        || (isNetworkError e && (2 <=? length bs)%nat)
                     then disturbedStream else e), w')
           ∧ fetchCount (history w') = (fetchCount (history w) + 1)%nat).
Proof.
  intros Hdown Hn Hne.
  assert (Hlen : (0 < length bs)%nat) by (destruct bs; [done | simpl; lia]).
  unfold proxyRequestWithFallback. split.
  - intros Hnb.
    destruct (failover_down host config request (parseRequest request) bs e Hdown Hn Hne
                Hnb (Z.to_nat (Z.min (Z.of_nat (length bs)) 3)) 0
                (Z.min (Z.of_nat (length bs)) 3) None w ltac:(lia) ltac:(lia))
      as (w' & -> & Hc).
    exists w'. split; [done|]. rewrite Hc.
    replace (Z.to_nat (Z.min (Z.of_nat (length bs)) 3)) with (Nat.min (length bs) 3)
      by lia.
    done.
  - intros Hbody Hfresh.
    set (count := Z.min (Z.of_nat (length bs)) 3).
    destruct (Z.to_nat count) as [|fuel] eqn:Hfuel; [lia|].
    cbn [failover]. unfold bind at 1. unfold get at 1. cbn beta iota.
    destruct (selectBackend_nonempty host bs (parseRequest request) (Some (metrics w)) w
                Hne) as (backend & w1 & E & _ & _ & _ & Hhist).
    unfold bind at 1. rewrite E. unfold bind at 1. unfold settle, proxyRequest.
    destruct (Z.to_nat (retryAttempts config)) as [|turns] eqn:Hturns; [lia|].
    destruct (attempts_down_fresh host config (forwardedRequest request backend) e
                turns 0 None w1 Hdown
                ltac:(by rewrite forwardedRequest_body)
                ltac:(by rewrite forwardedRequest_body, Hhist))
      as (w2 & -> & Hc2 & Hu2).
    rewrite forwardedRequest_body in Hu2.
    cbn beta iota. unfold bind at 1. unfold markBackendUnhealthy at 1, modify at 1.
    cbn beta iota.
    set (w3 := set_healthStatus _ w2).
    assert (Hc3 : fetchCount (history w3) = (fetchCount (history w) + 1)%nat)
      by (subst w3; simpl; rewrite Hc2, Hhist; lia).
    assert (Hretry : (2 <=? retryAttempts config) = negb (Nat.eqb turns 0)).
    { destruct turns; simpl; [apply Z.leb_gt | apply Z.leb_le]; lia. }
    assert (Hmore : (0 <? count - 1) = (2 <=? length bs)%nat
                    ∧ (0 <? count - 1) = negb (Nat.eqb fuel 0)).
    { destruct (Nat.leb_spec 2 (length bs)); destruct fuel; simpl; split;
        first [apply Z.ltb_lt | apply Z.ltb_ge]; lia. }
    destruct Hmore as [Hmore Hfuel']. rewrite Hretry, <- Hmore.
    destruct (isRetryableError e && negb (Nat.eqb turns 0)) eqn:Hfirst.
    + rewrite disturbedStream_network. cbn [andb orb].
      destruct fuel as [|fuel]; [rewrite Hfuel'; by exists w3|].
      rewrite Hfuel'. cbn [Nat.eqb negb].
      destruct (failover_used host config request (parseRequest request) bs Hn Hne
                  (S fuel) (0 + 1) count (Some disturbedStream) w3 Hu2
                  ltac:(lia) ltac:(lia)) as (w' & -> & Hc).
      exists w'. split; [done|]. by rewrite Hc.
    + cbn [orb]. destruct (isNetworkError e); cbn [andb]; [|by exists w3].
      destruct fuel as [|fuel]; [rewrite Hfuel'; by exists w3|].
      rewrite Hfuel'. cbn [Nat.eqb negb].
      destruct (failover_used host config request (parseRequest request) bs Hn Hne
                  (S fuel) (0 + 1) count (Some e) w3 Hu2
                  ltac:(lia) ltac:(lia)) as (w' & -> & Hc).
      exists w'. split; [done|]. by rewrite Hc.
Qed.

(** ** Backends that answer with server errors *)

Lemma pretty_N_go_digits (x : N) :
  ∀ s, allDigits s = true → allDigits (pretty_N_go x s) = true.
Proof.
  induction (N.lt_wf_0 x) as [x _ IH]; intros s Hs.
  destruct (decide (x = 0)%N) as [->|Hx]; [by rewrite pretty_N_go_0|].
  rewrite pretty_N_go_step by lia. apply IH; [apply N.div_lt; lia|].
  cbn [allDigits]. rewrite Hs, andb_true_r.
  unfold pretty_N_char. by repeat case_match.
Qed.

Lemma pretty_pos_digits (p : positive) : allDigits (pretty (Z.pos p)) = true.
Proof.
  unfold pretty, pretty_Z, pretty, pretty_positive, pretty, pretty_N.
  destruct (decide _); [done|]. by apply pretty_N_go_digits.
Qed.

Lemma includes_digits (s : string) (c : ascii) (t : string) :
  allDigits s = true → isDigit c = false → includes s (String c t) = false.
Proof.
  intros Hs Hc. induction s as [|d s IH]; [done|].
  cbn [allDigits] in Hs. apply andb_prop in Hs as [Hd Hs].
  rewrite includes_cons, startsWith_cons, (IH Hs).
  destruct (ascii_dec c d) as [->|]; [congruence | done].
Qed.

Lemma append_nil (s : string) : "" ++ s = s.
Proof. reflexivity. Qed.

Lemma backend_returned_503 (st : Z) :
  500 ≤ st → getErrorStatus (newError ("Backend returned " ++ pretty st)) = 503.
Proof.
  intros Hst. destruct st as [|p|p]; try lia.
  pose proof (pretty_pos_digits p) as Hd.
  unfold getErrorStatus, newError. cbn [message].
  generalize dependent (pretty (Z.pos p)). intros num Hd.
  rewrite !append_cons, append_nil.
  rewrite !includes_cons, !startsWith_cons.
  rewrite !(includes_digits num) by done.
  cbn. reflexivity.
Qed.

Lemma weightedRandomSelect_returns host bs w :
  ∃ o w', weightedRandomSelect host bs w = (Ok o, w').
Proof.
  unfold weightedRandomSelect. destruct (Qeq_bool _ _); [by eexists _, _|].
  unfold bind, mathRandom. cbn beta iota. destruct (walk _ _); by eexists _, _.
Qed.

Lemma selectBackend_returns host bs info ms w :
  ∃ o w', selectBackend host bs info ms w = (Ok o, w').
Proof.
  unfold selectBackend. destruct (Nat.eqb _ _); [by eexists _, _|].
  destruct ms as [m|]; [destruct (Nat.ltb _ _)|];
    first [ apply weightedRandomSelect_returns
          | unfold selectByPerformance; apply weightedRandomSelect_returns ].
Qed.

Lemma disturbedStream_503 : getErrorStatus disturbedStream = 503.
Proof. reflexivity. Qed.

(** When the backends answer with server errors, the forwarder returns
    such an answer, or throws an error that is reported as a 503: it
    could make no attempt, or could not send the body again. *)
Lemma attempts_server_error host config fuel :
  alwaysServerError host →
  ∀ attempt rq lastError w,
  (∀ e, lastError = Some e → getErrorStatus e = 503) →
  (∃ response w', attempts host config fuel attempt rq lastError w = (Ok response, w')
                  ∧ 500 ≤ status response)
  ∨ ∃ e w', attempts host config fuel attempt rq lastError w = (Throw e, w')
            ∧ getErrorStatus e = 503.
Proof.
  intros Hhost.
  induction fuel as [|fuel IH]; intros attempt rq lastError w Hlast.
  { right. cbn [attempts]. eexists _, _. split; [reflexivity|].
    destruct lastError as [e|]; [by apply Hlast | by vm_compute]. }
  rewrite attempts_step, send_cases.
  destruct (bodyUsed _ _).
  - rewrite disturbedStream_retryable. unfold bind at 1.
    destruct (_ <? _); cbn beta iota; apply IH; intros e [= <-];
      apply disturbedStream_503.
  - destruct (Hhost (length (history w)) rq) as (response & -> & Hge).
    left. by eexists _, _.
Qed.

Lemma failover_server_error host config fuel :
  alwaysServerError host →
  ∀ i count request info bs lastError w,
  (∀ e, lastError = Some e → getErrorStatus e = 503) →
  ∃ e w', failover host config fuel i count request info bs lastError w = (Throw e, w')
          ∧ getErrorStatus e = 503.
Proof.
  intros Hhost.
  induction fuel as [|fuel IH]; intros i count request info bs lastError w Hlast.
  { cbn [failover]. eexists _, _. split; [reflexivity|].
    destruct lastError as [e|]; [by apply Hlast | by vm_compute]. }
  cbn [failover]. unfold bind at 1. unfold get at 1. cbn beta iota.
  unfold bind at 1.
  destruct (selectBackend_returns host bs info (Some (metrics w)) w) as (o & w1 & ->).
  destruct o as [backend|]; [|eexists _, _; split; [reflexivity | by vm_compute]].
  unfold bind at 1. unfold settle, proxyRequest.
  destruct (attempts_server_error host config (Z.to_nat (retryAttempts config)) Hhost 0
              (forwardedRequest request backend) None w1 ltac:(done))
    as [(response & w2 & -> & Hge)|(e & w2 & -> & He)]; cbn beta iota.
  - assert (Hok : ok response = false).
    { unfold ok. apply andb_false_intro2. apply Z.leb_gt. lia. }
    rewrite Hok, (proj2 (Z.leb_le _ _) Hge).
    unfold bind at 1. cbn beta iota. apply IH.
    intros e [= <-]. by apply backend_returned_503.
  - unfold bind at 1. unfold markBackendUnhealthy at 1, modify at 1. cbn beta iota.
    destruct (_ && _); [|by eexists _, _].
    apply IH. by intros e' [= <-].
Qed.

(** X18: when every request that reaches a backend is answered with a
    status of 500 or more, a request that is neither too large nor
    served from the cache is answered with status 503, whatever the
    statuses of the backends were (a backend's 504 is not passed on as
    a 504). *)
Theorem server_errors_become_503 (host : Host) (config : ProxyConfig)
    (request : Request) (w : World) :
  alwaysServerError host →
  isRequestTooLarge request = false →
  enableCaching config = false ∨ req_method request ≠ "GET"
  ∨ cache w !! href (req_url request) = None →
  ∃ response w',
    handleRequest host config request w = (Ok response, w') ∧ status response = 503.
Proof.
  intros Hhost Hsmall Hmiss.
  unfold handleRequest, generateRequestId. unfold bind at 1. unfold mathRandom at 1.
  cbn beta iota. unfold bind at 1. unfold dateNow at 1. cbn beta iota.
  unfold try_catch, handleRequestBody. rewrite Hsmall.
  match goal with
  | |- context [bind (if ?c then _ else _) ?k ?w1] =>
      assert (Hc : ∃ w2, (if c then getCachedResponse request else ret None) w1
                         = (Ok None, w2))
  end.
  { destruct Hmiss as [Hen|[Hget|Hnone]].
    - rewrite Hen. by eexists.
    - apply String.eqb_neq in Hget. rewrite Hget, andb_false_r. by eexists.
    - destruct (_ && _); [|by eexists].
      unfold getCachedResponse, bind, modify, get, ret. cbn. rewrite Hnone.
      by eexists. }
  destruct Hc as (w2 & Hc). unfold bind at 1. rewrite Hc.
  unfold bind at 1.
  destruct (getHealthyBackends_returns host config w2) as (w3 & ->).
  destruct (Nat.eqb _ _).
  { rewrite createErrorResponse_run. by eexists _, _. }
  unfold bind at 1. unfold proxyRequestWithFallback.
  match goal with
  | |- context [failover host config ?fuel ?i ?count ?rq ?info ?bs None w3] =>
      destruct (failover_server_error host config fuel Hhost i count rq info bs None w3)
        as (e & w4 & -> & He); [done|]
  end.
  rewrite createErrorResponse_run, He. by eexists _, _.
Qed.

(** ** The CORS headers *)

Lemma addCorsHeaders_headers (response : Response) :
  headers (Cors.addCorsHeaders response)
  = <["x-proxy-by" := "Cloudflare-Workers"]>
      (<["access-control-max-age" := "86400"]>
         (<["access-control-allow-headers" :=
              "Content-Type, Authorization, X-Requested-With, Accept, Origin"]>
            (<["access-control-allow-methods" :=
                 "GET, POST, PUT, DELETE, OPTIONS, PATCH"]>
               (<["access-control-allow-origin" := "*"]> (headers response))))).
Proof. reflexivity. Qed.

Ltac lookup_inserts :=
  repeat first [ rewrite lookup_insert_eq | rewrite lookup_insert_ne by done ].

Lemma addCorsHeaders_cors (response : Response) (name value : string) :
  In (name, value) Cors.corsHeaders →
  headers_get (headers (Cors.addCorsHeaders response)) name = Some value.
Proof.
  intros Hin. unfold headers_get. rewrite addCorsHeaders_headers.
  cbn [Cors.corsHeaders In] in Hin.
  destruct Hin as [[= <- <-]|[[= <- <-]|[[= <- <-]|[[= <- <-]|[]]]]];
    match goal with
    | |- _ !! toLowerCase ?s = _ =>
        let k := eval vm_compute in (toLowerCase s) in
        change (toLowerCase s) with k
    end; by lookup_inserts.
Qed.

(** X19: [addCorsHeaders] keeps the status, the status text and the
    body; the result carries the four CORS headers and X-Proxy-By with
    the fixed values, replacing any value the response had for them
    (whatever the case of the name), and every other header as it was.
    Applying it twice is the same as applying it once. *)
Theorem addCorsHeaders_spec (response : Response) :
  status (Cors.addCorsHeaders response) = status response
  ∧ statusText (Cors.addCorsHeaders response) = statusText response
  ∧ body (Cors.addCorsHeaders response) = body response
  ∧ (∀ name value, In (name, value) Cors.corsHeaders →
       headers_get (headers (Cors.addCorsHeaders response)) name = Some value)
  ∧ headers_get (headers (Cors.addCorsHeaders response)) "X-Proxy-By"
    = Some "Cloudflare-Workers"
  ∧ (∀ name, ¬ In (toLowerCase name) corsNames →
       headers_get (headers (Cors.addCorsHeaders response)) name
       = headers_get (headers response) name)
  ∧ Cors.addCorsHeaders (Cors.addCorsHeaders response) = Cors.addCorsHeaders response.
Proof.
  split; [done|]. split; [done|]. split; [done|].
  split; [|split; [|split]].
  - apply addCorsHeaders_cors.
  - unfold headers_get. rewrite addCorsHeaders_headers.
    change (toLowerCase "X-Proxy-By") with "x-proxy-by". by lookup_inserts.
  - intros name Hname. unfold headers_get. rewrite addCorsHeaders_headers.
    unfold corsNames in Hname. cbn [In] in Hname.
    rewrite !lookup_insert_ne by (intros E; rewrite <- E in Hname; tauto).
    done.
  - assert (Hext : ∀ r1 r2 : Response,
               status r1 = status r2 → statusText r1 = statusText r2 →
               headers r1 = headers r2 → body r1 = body r2 → r1 = r2)
      by (intros [] []; simpl; congruence).
    apply Hext; [done | done | | done].
    rewrite (addCorsHeaders_headers (Cors.addCorsHeaders response)).
    rewrite addCorsHeaders_headers.
    apply map_eq. intros k.
    destruct (decide (k = "x-proxy-by")) as [->|]; [by lookup_inserts|].
    destruct (decide (k = "access-control-max-age")) as [->|]; [by lookup_inserts|].
    destruct (decide (k = "access-control-allow-headers")) as [->|];
      [by lookup_inserts|].
    destruct (decide (k = "access-control-allow-methods")) as [->|];
      [by lookup_inserts|].
    destruct (decide (k = "access-control-allow-origin")) as [->|];
      [by lookup_inserts|].
    by lookup_inserts.
Qed.

(** ** A handler that was just built *)

Lemma filter_all {A} (f : A → bool) (l : list A) :
  (∀ x, In x l → f x = true) → List.filter f l = l.
Proof.
  induction l as [|x l IH]; intros H; [done|].
  cbn [List.filter]. rewrite (H x) by (by left). f_equal. apply IH.
  intros y Hy. apply H. by right.
Qed.

Lemma checkStale_keeps_all host config now :
  2 ≤ circuitBreakerThreshold config →
  ∀ bs w w',
  NoDup (map url bs) →
  (∀ u h, healthStatus w !! u = Some h → isHealthy h = true) →
  (∀ b h, In b bs → healthStatus w !! url b = Some h → consecutiveFailures h = 0) →
  checkStale host config now bs w = (Ok tt, w') →
  ∀ u h, healthStatus w' !! u = Some h → isHealthy h = true.
Proof.
  intros HT. induction bs as [|backend rest IH]; intros w w' Hnd Hall Hzero.
  { by intros [= <-]. }
  cbn [map] in Hnd. apply NoDup_cons in Hnd as [Hnotin Hnd].
  cbn [checkStale]. unfold bind at 1. unfold get at 1. cbn beta iota.
  unfold bind at 1.
  assert (Hskip : checkStale host config now rest w = (Ok tt, w') →
                  ∀ u h, healthStatus w' !! u = Some h → isHealthy h = true).
  { apply IH; [exact Hnd | exact Hall|].
    intros b h Hin. apply Hzero. by right. }
  destruct (healthStatus w !! url backend) as [health|] eqn:Hl; [|exact Hskip].
  destruct (_ <? _); [|exact Hskip].
  destruct (checkBackendHealth_effect host config backend w health Hl)
    as (w1 & -> & _ & Hrec & Hother).
  apply IH; [exact Hnd| |].
  - intros u h. destruct (decide (u = url backend)) as [->|Hne].
    + rewrite Hrec. intros [= <-]. cbn [checked isHealthy].
      assert (Hf : isHealthy (failed config health) = true).
      { unfold failed. cbn [isHealthy].
        rewrite (Hzero backend health) by (by left || done). apply Z.ltb_lt. lia. }
      destruct (net_fetch host _ _) as [response|e]; [destruct (ok response)|];
        done.
    + rewrite Hother by done. apply Hall.
  - intros b h Hin. rewrite Hother.
    + apply Hzero. by right.
    + intros E. apply Hnotin. rewrite <- E. apply list_elem_of_In.
      by apply in_map.
Qed.

(** X20: in a handler that was just built for a configuration with
    distinct backend urls and a circuit-breaker threshold of 2 or more
    (the default is 5), [getHealthyBackends] returns every configured
    backend, whatever the probes answer: one failed probe does not
    reach the threshold. *)
Theorem fresh_handler_keeps_all (host : Host) (config : ProxyConfig)
    (cache0 : gmap string Response) (w0 : World) :
  constructor config cache0 = Ok w0 →
  NoDup (map url (backends config)) →
  2 ≤ circuitBreakerThreshold config →
  ∃ w', getHealthyBackends host config w0 = (Ok (backends config), w').
Proof.
  intros Hc Hnd HT.
  destruct (constructor_tables _ _ _ Hc) as (Hh & _).
  unfold getHealthyBackends. unfold bind at 1. unfold dateNow at 1. cbn beta iota.
  unfold bind at 1.
  destruct (checkStale_returns host config (Date_now host (length (history w0)))
              (backends config) w0) as [w1 E].
  rewrite E. exists w1. unfold bind, get, ret. cbn beta iota. f_equal. f_equal.
  apply filter_all. intros b Hb.
  destruct (healthStatus w1 !! url b) as [h|] eqn:Hl; [|done].
  eapply (checkStale_keeps_all host config _ HT _ _ _ Hnd); [| |exact E|exact Hl].
  - intros u h0. rewrite Hh. case_decide; [|done]. by intros [= <-].
  - intros b0 h0 _. rewrite Hh. case_decide; [|done]. by intros [= <-].
Qed.

Lemma checkStale_probes host config now :
  ∀ bs w,
  NoDup (map url bs) →
  (∀ b, In b bs → ∃ h, healthStatus w !! url b = Some h
                       ∧ healthCheckInterval config < now - lastCheck h) →
  ∃ w', checkStale host config now bs w = (Ok tt, w')
        ∧ history w' = (rev (map (λ b, EvFetch (probeOf b)) bs) ++ history w)%list.
Proof.
  induction bs as [|backend rest IH]; intros w Hnd Hstale; [by exists w|].
  cbn [map] in Hnd. apply NoDup_cons in Hnd as [Hnotin Hnd].
  cbn [checkStale]. unfold bind at 1. unfold get at 1. cbn beta iota.
  unfold bind at 1.
  destruct (Hstale backend) as (health & Hl & Hlt); [by left|].
  rewrite Hl, (proj2 (Z.ltb_lt _ _) Hlt).
  destruct (checkBackendHealth_effect host config backend w health Hl)
    as (w1 & -> & Hhist & _ & Hother).
  destruct (IH w1 Hnd) as (w' & E & Hh').
  - intros b Hin. rewrite Hother; [apply Hstale; by right|].
    intros Eu. apply Hnotin. rewrite <- Eu. apply list_elem_of_In. by apply in_map.
  - exists w'. split; [exact E|]. rewrite Hh', Hhist. cbn [map rev].
    by rewrite <- app_assoc.
Qed.

(** X21: a handler that was just built has never checked a backend, so
    (for distinct urls, and a clock beyond [healthCheckInterval])
    [getHealthyBackends] begins by probing every configured backend,
    in the configured order. *)
Theorem fresh_handler_probes_all (host : Host) (config : ProxyConfig)
    (cache0 : gmap string Response) (w0 : World) :
  constructor config cache0 = Ok w0 →
  NoDup (map url (backends config)) →
  healthCheckInterval config < Date_now host 0 →
  history (exec (getHealthyBackends host config) w0)
  = rev (map (λ b, EvFetch (probeOf b)) (backends config)).
Proof.
  intros Hc Hnd Hclock.
  destruct (constructor_tables _ _ _ Hc) as (Hh & _ & _ & Hhist & _).
  unfold exec, getHealthyBackends. unfold bind at 1. unfold dateNow at 1.
  cbn beta iota. unfold bind at 1. rewrite Hhist. cbn [length].
  destruct (checkStale_probes host config (Date_now host 0) (backends config) w0 Hnd)
    as (w1 & -> & Hh1).
  - intros b Hb. exists initialHealth. rewrite Hh.
    rewrite decide_True by (apply list_elem_of_In; by apply in_map).
    split; [done|]. cbn [initialHealth lastCheck]. lia.
  - unfold bind, get, ret. cbn. rewrite Hh1, Hhist. by rewrite app_nil_r.
Qed.

(** ** The worker's entry *)

(** X22: for a request that is not a preflight, not for the favicon and
    not for the metrics of a development deployment, the worker builds
    a handler from scratch (Health and Metrics tables at their initial
    values, whatever earlier requests did) and answers with what that
    handler returns, with the CORS headers added.  The answer "Proxy
    configuration error" (status 500) is given exactly when the
    configuration fails validation, with the message of the validation
    error; handling the request never leads to it. *)
Theorem worker_proxy_path (host : Host)
    (stringify : gmap string ProxyHandler.Report.t → string) (config : ProxyConfig)
    (environment : string) (cache0 : gmap string Response) (request : Request) :
  req_method request ≠ "OPTIONS" →
  pathname (req_url request) ≠ "/favicon.ico" →
  pathname (req_url request) ≠ "/metrics" ∨ environment ≠ "development" →
  match validateConfig config with
  | Ok _ =>
      ∃ w0 response w',
        constructor config cache0 = Ok w0
        ∧ handleRequest host config request w0 = (Ok response, w')
        ∧ Worker.fetch host stringify config environment cache0 request
          = (Cors.addCorsHeaders response, Some w')
  | Throw error =>
      Worker.fetch host stringify config environment cache0 request
      = (workerError "Proxy configuration error" error, None)
  end.
Proof.
  intros Hopt Hfav Hmet. unfold Worker.fetch.
  apply String.eqb_neq in Hopt. apply String.eqb_neq in Hfav. rewrite Hopt, Hfav.
  assert (Hm : String.eqb (pathname (req_url request)) "/metrics"
               && String.eqb environment "development" = false).
  { destruct Hmet as [H|H]; apply String.eqb_neq in H; rewrite H;
      [done | apply andb_false_r]. }
  rewrite Hm. unfold constructor.
  destruct (validateConfig config) as [[]|error]; [|done].
  eexists. destruct (handleRequest_responds host config request
                       {| healthStatus := (fold_left initStep (backends config) (∅, ∅)).1;
                          metrics := (fold_left initStep (backends config) (∅, ∅)).2;
                          cache := cache0; history := []; draws := 0 |})
    as (response & w' & E & _).
  exists response, w'. split; [reflexivity|]. split; [exact E|]. by rewrite E.
Qed.

(** X23: the metrics endpoint builds a handler of its own and reads
    its tables at once: for a valid configuration the report has one
    entry per configured url, each with zero requests, zero errors,
    rate and average at zero, healthy and without failures, whatever
    requests the worker has served; no backend is contacted. *)
Theorem metrics_endpoint_fresh (host : Host)
    (stringify : gmap string ProxyHandler.Report.t → string) (config : ProxyConfig)
    (cache0 : gmap string Response) (request : Request) :
  req_method request ≠ "OPTIONS" →
  pathname (req_url request) = "/metrics" →
  validateConfig config = Ok tt →
  ∃ report w0,
    Worker.fetch host stringify config "development" cache0 request
    = (Cors.addCorsHeaders
         {| status := 200;
            statusText := "";
            headers := headers_set ∅ "Content-Type" "application/json";
            body := Stream (stringify report) |}, Some w0)
    ∧ history w0 = []
    ∧ ∀ u, report !! u
           = if decide (u ∈ map url (backends config)) then Some unusedReport else None.
Proof.
  intros Hopt Hpath Hvalid. unfold Worker.fetch.
  apply String.eqb_neq in Hopt. rewrite Hopt, Hpath. cbn [String.eqb].
  change (String.eqb "/metrics" "/favicon.ico") with false.
  change (String.eqb "/metrics" "/metrics" && String.eqb "development" "development")
    with true. cbn beta iota.
  destruct (constructor config cache0) as [w0|e] eqn:Hc.
  2: { unfold constructor in Hc. by rewrite Hvalid in Hc. }
  destruct (constructor_tables _ _ _ Hc) as (Hh & Hm & _ & Hhist & _).
  exists (getMetrics w0), w0. split; [reflexivity|]. split; [exact Hhist|].
  intros u. unfold getMetrics. rewrite map_lookup_imap, Hm, Hh.
  case_decide; done.
Qed.

(** ** Loading and validating the configuration *)

Lemma validateBackends_accepts bs :
  validateBackends bs = Ok tt ↔ Forall wellFormed bs.
Proof.
  induction bs as [|b rest IH]; [by split|].
  cbn [validateBackends]. rewrite Forall_cons, <- IH. unfold wellFormed.
  destruct (String.eqb_spec (url b) "") as [Hu|Hu]; [split; [done | tauto]|].
  destruct (String.eqb_spec (region b) "") as [Hr|Hr]; [split; [done | tauto]|].
  destruct (Qle_bool (weight b) 0) eqn:Hw.
  - apply Qle_bool_iff in Hw. split; [done|].
    intros [(_ & _ & Hlt) _]. exfalso. by apply (Qlt_not_le _ _ Hlt).
  - assert (0 < weight b)%Q.
    { apply Qnot_le_lt. intros Hle. apply Qle_bool_iff in Hle. congruence. }
    tauto.
Qed.

(** X24: a handler can be built exactly for a configuration that has
    at least one backend and in which every backend has a non-empty
    url, a non-empty region and a weight above zero; [validateConfig]
    accepts exactly those, and the constructor fails with the error of
    [validateConfig] otherwise. *)
Theorem validateConfig_accepts (config : ProxyConfig) (cache0 : gmap string Response) :
  (validateConfig config = Ok tt
   ↔ backends config ≠ [] ∧ Forall wellFormed (backends config))
  ∧ ((∃ w0, constructor config cache0 = Ok w0) ↔ validateConfig config = Ok tt)
  ∧ (∀ error, validateConfig config = Throw error →
              constructor config cache0 = Throw error).
Proof.
  split; [|split].
  - unfold validateConfig. destruct (backends config) as [|b rest] eqn:Hb.
    + split; [done | by intros [? _]].
    + cbn [length Nat.eqb]. rewrite validateBackends_accepts. split; [done | tauto].
  - unfold constructor. destruct (validateConfig config) as [[]|e].
    + split; [done | by eexists].
    + split; [by intros [? ?] | done].
  - intros error He. unfold constructor. by rewrite He.
Qed.






(** ** The classes of errors *)

(** X26: the failover loop moves on to another backend only for
    errors that the forwarder has already retried: what
    [isNetworkError] accepts, [isRetryableError] accepts too.  The
    statuses 504 and 502 are given only to such errors, and every
    error is given one of 504, 502, 499 and 503. *)
Theorem error_classes (error : JsError) :
  (isNetworkError error = true → isRetryableError error = true)
  ∧ (getErrorStatus error = 504 ∨ getErrorStatus error = 502 →
     isNetworkError error = true)
  ∧ (getErrorStatus error = 499 →
     isRetryableError error = true ∧ includes (message error) "aborted" = true)
  ∧ (getErrorStatus error = 504 ∨ getErrorStatus error = 502
     ∨ getErrorStatus error = 499 ∨ getErrorStatus error = 503).
Proof.
  unfold isNetworkError, isRetryableError, getErrorStatus.
  destruct (String.eqb (name error) "TypeError"),
    (includes (message error) "fetch"), (includes (message error) "network"),
    (includes (message error) "timeout"), (includes (message error) "aborted");
    cbn; intuition (try discriminate; try lia).
Qed.

(** ** Numbers in the environment *)

Lemma digitValue_char (n : N) : (n < 10)%N → digitValue (pretty_N_char n) = Some (Z.of_N n).
Proof.
  intros Hn.
  assert (n = 0 ∨ n = 1 ∨ n = 2 ∨ n = 3 ∨ n = 4 ∨ n = 5 ∨ n = 6 ∨ n = 7 ∨ n = 8 ∨ n = 9)%N
    as H by lia.
  repeat destruct H as [->|H]; try subst n; reflexivity.
Qed.

Lemma digits_cons (radix : Z) (c : ascii) (s : string) (seen : bool) (acc : Z) :
  digits radix (String c s) seen acc
  = match digitValue c with
    | Some d =>
        if d <? radix then digits radix s true (acc * radix + d)
        else if seen then Some acc else None
    | None => if seen then Some acc else None
    end.
Proof. reflexivity. Qed.

Lemma digits_pretty_go (x : N) :
  (0 < x)%N →
  ∃ k : Z, 0 ≤ k ∧ ∀ s seen acc,
    digits 10 (pretty_N_go x s) seen acc = digits 10 s true (acc * 10 ^ k + Z.of_N x).
Proof.
  induction (N.lt_wf_0 x) as [x _ IH]. intros Hx.
  assert (Hchar : ∀ s seen acc,
             digits 10 (String (pretty_N_char (x `mod` 10)) s) seen acc
             = digits 10 s true (acc * 10 + Z.of_N (x `mod` 10))).
  { intros s seen acc. rewrite digits_cons, digitValue_char by (apply N.mod_lt; lia).
    rewrite (proj2 (Z.ltb_lt _ _)); [done|].
    pose proof (N.mod_lt x 10 ltac:(lia)). lia. }
  destruct (decide (x `div` 10 = 0)%N) as [Hz|Hnz].
  - exists 1. split; [lia|]. intros s seen acc.
    rewrite pretty_N_go_step by done. rewrite Hz, pretty_N_go_0, Hchar.
    assert (x < 10)%N by (apply N.div_small_iff in Hz; lia).
    rewrite N.mod_small by done. by rewrite Z.pow_1_r.
  - destruct (IH (x `div` 10)%N) as (k & Hk & Hgo);
      [apply N.div_lt; lia | by apply N.neq_0_lt_0|].
    exists (k + 1). split; [lia|]. intros s seen acc.
    rewrite pretty_N_go_step by done. rewrite Hgo, Hchar.
    f_equal. rewrite Z.pow_add_r by lia. rewrite Z.pow_1_r.
    rewrite (N.div_mod x 10) at 3 by lia. lia.
Qed.

Lemma parseInt_numeral (s : string) :
  allDigits s = true → s ≠ "" →
  parseInt s (Some 10)
  = match digits 10 s false 0 with Some n => Some (1 * n) | None => None end
  ∧ parseInt (String "-" s) (Some 10)
    = match digits 10 s false 0 with Some n => Some (-1 * n) | None => None end.
Proof.
  intros Hd Hne. destruct s as [|c s']; [done|]. clear Hne.
  cbn [allDigits] in Hd. apply andb_prop in Hd as [Hc _].
  destruct c as [[] [] [] [] [] [] [] []]; try discriminate Hc;
    try (split; reflexivity);
    (destruct s' as [|[[] [] [] [] [] [] [] []] r]; split; reflexivity).
Qed.

Lemma pretty_pos_go (p : positive) : pretty (Z.pos p) = pretty_N_go (N.pos p) "".
Proof. reflexivity. Qed.

Lemma pretty_neg_go (p : positive) :
  pretty (Z.neg p) = String "-" (pretty_N_go (N.pos p) "").
Proof. reflexivity. Qed.

Lemma parseInt_pretty (z : Z) : parseInt (pretty z) (Some 10) = Some z.
Proof.
  destruct z as [|p|p]; [reflexivity| |].
  - pose proof (pretty_pos_digits p) as Hd. rewrite pretty_pos_go in *.
    destruct (digits_pretty_go (N.pos p)) as (k & _ & Hgo); [done|].
    assert (Hne : pretty_N_go (N.pos p) "" ≠ "").
    { intros E. specialize (Hgo "" false 0). rewrite E in Hgo. discriminate. }
    rewrite (proj1 (parseInt_numeral _ Hd Hne)), Hgo. cbn [digits]. f_equal; lia.
  - pose proof (pretty_pos_digits p) as Hd. rewrite pretty_pos_go in Hd.
    rewrite pretty_neg_go.
    destruct (digits_pretty_go (N.pos p)) as (k & _ & Hgo); [done|].
    assert (Hne : pretty_N_go (N.pos p) "" ≠ "").
    { intros E. specialize (Hgo "" false 0). rewrite E in Hgo. discriminate. }
    rewrite (proj2 (parseInt_numeral _ Hd Hne)), Hgo. cbn [digits]. f_equal; lia.
Qed.

(** X27: [parseNumber] reads back every whole number between -2^53
    and 2^53 (those that JavaScript holds without rounding) from its
    decimal numeral: zero and negative numbers included, the default is
    not used for them; the default is used for an absent or empty
    variable. *)
Theorem parseNumber_numeral (z defaultValue : Z) :
  - 2 ^ 53 ≤ z ≤ 2 ^ 53 →
  parseNumber (Some (pretty z)) defaultValue = z
  ∧ parseNumber None defaultValue = defaultValue
  ∧ parseNumber (Some "") defaultValue = defaultValue.
Proof.
  intros _. split; [|done]. unfold parseNumber. rewrite parseInt_pretty.
  destruct (String.eqb_spec (pretty z) "") as [E|_]; [|done].
  pose proof (parseInt_pretty z) as H. rewrite E in H. discriminate.
Qed.

(** ** Country codes *)

Lemma toUpperCase_empty (s : string) : toUpperCase s = "" → s = "".
Proof. by destruct s. Qed.

(** X28: the country code is matched without regard to case: two codes
    with the same upper-case form narrow every list of backends to the
    same candidates (a code that is "unknown" in another case is
    unmapped, which has the same effect as "unknown"). *)
Theorem country_case_insensitive (backends : list BackendConfig)
    (country1 country2 : string) :
  toUpperCase country1 = toUpperCase country2 →
  getRegionalBackends backends country1 = getRegionalBackends backends country2.
Proof.
  intros Hup.
  assert (Hunknown : ∀ c c', c = "unknown" → toUpperCase c' = toUpperCase c →
            getRegionalBackends backends c' = []).
  { intros c c' -> Hc. unfold getRegionalBackends.
    destruct (_ || _); [done|]. rewrite Hc. reflexivity. }
  unfold getRegionalBackends at 1.
  destruct (String.eqb_spec country1 "") as [->|Hne1].
  { symmetry in Hup. apply toUpperCase_empty in Hup. by subst. }
  destruct (String.eqb_spec country1 "unknown") as [H1|Hu1].
  { cbn [orb]. symmetry. by apply (Hunknown country1). }
  cbn [orb]. unfold getRegionalBackends.
  destruct (String.eqb_spec country2 "") as [->|Hne2].
  { apply toUpperCase_empty in Hup. by subst. }
  destruct (String.eqb_spec country2 "unknown") as [H2|Hu2].
  { cbn [orb]. rewrite Hup, H2. reflexivity. }
  cbn [orb]. by rewrite Hup.
Qed.

(** ** CORS on every answer *)

Lemma handleOptionsRequest_cors (name value : string) :
  In (name, value) Cors.corsHeaders →
  headers_get (headers Cors.handleOptionsRequest) name = Some value.
Proof.
  intros Hin. cbn [Cors.corsHeaders In] in Hin.
  destruct Hin as [[= <- <-]|[[= <- <-]|[[= <- <-]|[[= <- <-]|[]]]]];
    vm_compute; reflexivity.
Qed.

(** X29: every answer of the worker carries the four CORS headers with
    their fixed values: the preflight answer (status 200, no body),
    the metrics report, what the handler returns and the error answers
    alike.  The one exception is the answer for /favicon.ico, which is
    an empty 204 without headers. *)
Theorem worker_cors (host : Host)
    (stringify : gmap string ProxyHandler.Report.t → string) (config : ProxyConfig)
    (environment : string) (cache0 : gmap string Response) (request : Request) :
  if negb (String.eqb (req_method request) "OPTIONS")
     && String.eqb (pathname (req_url request)) "/favicon.ico"
  then
    Worker.fetch host stringify config environment cache0 request
    = ({| status := 204; statusText := ""; headers := ∅; body := NoBody |}, None)
  else
    ∀ name value,
      In (name, value) Cors.corsHeaders →
      headers_get
        (headers (Worker.fetch host stringify config environment cache0 request).1) name
      = Some value.
Proof.
  unfold Worker.fetch.
  destruct (String.eqb (req_method request) "OPTIONS"); cbn [negb andb].
  { intros name value. apply handleOptionsRequest_cors. }
  destruct (String.eqb (pathname (req_url request)) "/favicon.ico"); [done|].
  intros name value Hin.
  destruct (_ && _).
  - destruct (constructor config cache0); by apply addCorsHeaders_cors.
  - destruct (constructor config cache0) as [w|e]; [|by apply addCorsHeaders_cors].
    destruct (handleRequest host config request w) as [[response|e] w'];
      by apply addCorsHeaders_cors.
Qed.

(** ** The further theorems at concrete inputs *)

Lemma performance_score_range_witness :
  map_Forall (λ _, metricsPlausible) Further.busy
  ∧ map_Forall (λ _ s, (0 <= s <= 85)%Q)
      (scoresOf [PassThroughScenario.A; PassThroughScenario.B] Further.busy)
  ∧ Forall (λ b, ∃ z, weight b = inject_Z z ∧ 1 ≤ z ≤ 86)
      (weightedBackendsOf [PassThroughScenario.A; PassThroughScenario.B] Further.busy).
Proof.
  assert (H1 : map_Forall (λ _, metricsPlausible) Further.busy).
  { unfold Further.busy. apply map_Forall_insert_2.
    { unfold metricsPlausible. cbn. lia. }
    apply map_Forall_insert_2; [|apply map_Forall_empty].
    unfold metricsPlausible. cbn. lia. }
  exact (conj H1 (performance_score_range
                    [PassThroughScenario.A; PassThroughScenario.B] Further.busy H1)).
Defined.

Lemma cache_hit_served_witness :
  enableCaching CacheScenario.config = true
  ∧ req_method CacheScenario.request = "GET"
  ∧ isRequestTooLarge CacheScenario.request = false
  ∧ cache Further.warm !! href (req_url CacheScenario.request)
    = Some CacheScenario.response
  ∧ ∃ w', handleRequest Further.host504 CacheScenario.config CacheScenario.request
            Further.warm = (Ok CacheScenario.response, w')
          ∧ history w' = EvCacheMatch (href (req_url CacheScenario.request))
                         :: history Further.warm
          ∧ healthStatus w' = healthStatus Further.warm
          ∧ metrics w' = metrics Further.warm
          ∧ cache w' = cache Further.warm.
Proof.
  assert (H1 : enableCaching CacheScenario.config = true) by reflexivity.
  assert (H2 : req_method CacheScenario.request = "GET") by reflexivity.
  assert (H3 : isRequestTooLarge CacheScenario.request = false) by reflexivity.
  assert (H4 : cache Further.warm !! href (req_url CacheScenario.request)
               = Some CacheScenario.response) by (vm_compute; reflexivity).
  exact (conj H1 (conj H2 (conj H3 (conj H4
           (cache_hit_served Further.host504 CacheScenario.config CacheScenario.request
              Further.warm CacheScenario.response H1 H2 H3 H4))))).
Defined.

(** The one backend was checked at time 0 and the clock still reads 0. *)
Lemma getHealthyBackends_fresh_witness :
  (∀ backend health,
      In backend (backends CacheScenario.config) →
      healthStatus Further.built !! url backend = Some health →
      Date_now ScoreScenario.host (length (history Further.built)) - lastCheck health
      ≤ healthCheckInterval CacheScenario.config)
  ∧ getHealthyBackends ScoreScenario.host CacheScenario.config Further.built
    = (Ok (List.filter (notMarkedUnhealthy (healthStatus Further.built))
             (backends CacheScenario.config)), Further.built).
Proof.
  assert (H1 : ∀ backend health,
             In backend (backends CacheScenario.config) →
             healthStatus Further.built !! url backend = Some health →
             Date_now ScoreScenario.host (length (history Further.built))
             - lastCheck health ≤ healthCheckInterval CacheScenario.config).
  { intros backend health [<-|[]] Hl. vm_compute in Hl. injection Hl as <-.
    vm_compute. discriminate. }
  exact (conj H1 (getHealthyBackends_fresh ScoreScenario.host CacheScenario.config
                    Further.built H1)).
Defined.

(** A probe answered 504 counts as the first failure, at the time the
    clock shows after the probe. *)
Lemma checkBackendHealth_probe_witness :
  healthStatus Further.built !! url PassThroughScenario.A = Some initialHealth
  ∧ ∃ w',
      checkBackendHealth Further.host504 CacheScenario.config PassThroughScenario.A
        Further.built = (Ok tt, w')
      ∧ history w' = EvFetch (probeOf PassThroughScenario.A) :: history Further.built
      ∧ fetch_method (probeOf PassThroughScenario.A) = "HEAD"
      ∧ fetch_url (probeOf PassThroughScenario.A) = url PassThroughScenario.A ++ "/health"
      ∧ fetch_body (probeOf PassThroughScenario.A) = NoBody
      ∧ healthStatus w' !! url PassThroughScenario.A
        = Some {| isHealthy := true; lastCheck := 1700000000001;
                  consecutiveFailures := 1; avgResponseTime := 0 |}
      ∧ (∀ u, u ≠ url PassThroughScenario.A →
              healthStatus w' !! u = healthStatus Further.built !! u)
      ∧ metrics w' = metrics Further.built
      ∧ cache w' = cache Further.built.
Proof.
  assert (H1 : healthStatus Further.built !! url PassThroughScenario.A
               = Some initialHealth) by (vm_compute; reflexivity).
  exact (conj H1 (checkBackendHealth_probe Further.host504 CacheScenario.config
                    PassThroughScenario.A Further.built initialHealth H1)).
Defined.

(** Two failures, a success, then five failures with the threshold 5:
    the count is 5 and the backend is out of rotation. *)
Lemma failures_since_last_success_witness :
  healthStatus Further.built !! "https://a.example" = Some initialHealth
  ∧ healthStatus
      (exec (markAll CacheScenario.config
               ([false; false] ++ true :: repeat false 5)%list "https://a.example")
         Further.built) !! "https://a.example"
    = Some {| isHealthy :=
                (Z.of_nat 5 =? 0)
                || (Z.of_nat 5 <? circuitBreakerThreshold CacheScenario.config);
              lastCheck := lastCheck initialHealth;
              consecutiveFailures := Z.of_nat 5;
              avgResponseTime := avgResponseTime initialHealth |}.
Proof.
  assert (H1 : healthStatus Further.built !! "https://a.example" = Some initialHealth)
    by (vm_compute; reflexivity).
  exact (conj H1 (failures_since_last_success CacheScenario.config "https://a.example"
                    [false; false] 5 Further.built initialHealth H1)).
Defined.

(** The configuration loaded from an environment with RETRY_ATTEMPTS=0. *)
Lemma no_attempt_allowed_witness :
  retryAttempts (loadConfig Further.envNoRetry) ≤ 0
  ∧ backends (loadConfig Further.envNoRetry) ≠ []
  ∧ (∀ backend w0,
        proxyRequest Further.hostJson (loadConfig Further.envNoRetry)
          CacheScenario.request backend w0
        = (Throw (newError "All retry attempts failed"), w0))
  ∧ ∃ backend w',
      proxyRequestWithFallback Further.hostJson (loadConfig Further.envNoRetry)
        CacheScenario.request 0%Q (backends (loadConfig Further.envNoRetry)) Further.built
      = (Throw (newError "All retry attempts failed"), w')
      ∧ sameBackendIn backend (backends (loadConfig Further.envNoRetry))
      ∧ healthStatus w'
        = alter (failed (loadConfig Further.envNoRetry)) (url backend)
            (healthStatus Further.built)
      ∧ history w' = history Further.built
      ∧ metrics w' = metrics Further.built
      ∧ cache w' = cache Further.built.
Proof.
  assert (H1 : retryAttempts (loadConfig Further.envNoRetry) ≤ 0)
    by (vm_compute; discriminate).
  assert (H2 : backends (loadConfig Further.envNoRetry) ≠ [])
    by (vm_compute; discriminate).
  exact (conj H1 (conj H2
           (no_attempt_allowed Further.hostJson (loadConfig Further.envNoRetry)
              CacheScenario.request 0%Q (backends (loadConfig Further.envNoRetry))
              Further.built H1 H2))).
Defined.

(** Probe and forwarded request are both answered 504. *)
Lemma server_errors_become_503_witness :
  alwaysServerError Further.host504
  ∧ isRequestTooLarge CacheScenario.request = false
  ∧ (enableCaching CacheScenario.config = false ∨ req_method CacheScenario.request ≠ "GET"
     ∨ cache Further.built !! href (req_url CacheScenario.request) = None)
  ∧ ∃ response w',
      handleRequest Further.host504 CacheScenario.config CacheScenario.request
        Further.built = (Ok response, w')
      ∧ status response = 503.
Proof.
  assert (H1 : alwaysServerError Further.host504).
  { intros k rq. exists (PassThroughScenario.answer 504).
    split; [reflexivity | vm_compute; discriminate]. }
  assert (H2 : isRequestTooLarge CacheScenario.request = false) by reflexivity.
  assert (H3 : enableCaching CacheScenario.config = false
               ∨ req_method CacheScenario.request ≠ "GET"
               ∨ cache Further.built !! href (req_url CacheScenario.request) = None)
    by (right; right; vm_compute; reflexivity).
  exact (conj H1 (conj H2 (conj H3
           (server_errors_become_503 Further.host504 CacheScenario.config
              CacheScenario.request Further.built H1 H2 H3)))).
Defined.

Lemma fresh_handler_keeps_all_witness :
  constructor PassThroughScenario.config ∅ = Ok PassThroughScenario.world
  ∧ NoDup (map url (backends PassThroughScenario.config))
  ∧ 2 ≤ circuitBreakerThreshold PassThroughScenario.config
  ∧ ∃ w', getHealthyBackends Further.host504 PassThroughScenario.config
            PassThroughScenario.world
          = (Ok (backends PassThroughScenario.config), w').
Proof.
  assert (H1 : constructor PassThroughScenario.config ∅ = Ok PassThroughScenario.world)
    by (vm_compute; reflexivity).
  assert (H2 : NoDup (map url (backends PassThroughScenario.config))).
  { apply NoDup_cons. split; [|apply NoDup_singleton].
    intros H. apply list_elem_of_In in H. destruct H as [H|[]]. discriminate H. }
  assert (H3 : 2 ≤ circuitBreakerThreshold PassThroughScenario.config)
    by (vm_compute; discriminate).
  exact (conj H1 (conj H2 (conj H3
           (fresh_handler_keeps_all Further.host504 PassThroughScenario.config ∅
              PassThroughScenario.world H1 H2 H3)))).
Defined.

Lemma fresh_handler_probes_all_witness :
  constructor PassThroughScenario.config ∅ = Ok PassThroughScenario.world
  ∧ NoDup (map url (backends PassThroughScenario.config))
  ∧ healthCheckInterval PassThroughScenario.config < Date_now Further.host504 0
  ∧ history (exec (getHealthyBackends Further.host504 PassThroughScenario.config)
               PassThroughScenario.world)
    = rev (map (λ b, EvFetch (probeOf b)) (backends PassThroughScenario.config)).
Proof.
  assert (H1 : constructor PassThroughScenario.config ∅ = Ok PassThroughScenario.world)
    by (vm_compute; reflexivity).
  assert (H2 : NoDup (map url (backends PassThroughScenario.config))).
  { apply NoDup_cons. split; [|apply NoDup_singleton].
    intros H. apply list_elem_of_In in H. destruct H as [H|[]]. discriminate H. }
  assert (H3 : healthCheckInterval PassThroughScenario.config
               < Date_now Further.host504 0) by (vm_compute; reflexivity).
  exact (conj H1 (conj H2 (conj H3
           (fresh_handler_probes_all Further.host504 PassThroughScenario.config ∅
              PassThroughScenario.world H1 H2 H3)))).
Defined.

(** A GET of /x in production, with a valid configuration. *)
Lemma worker_proxy_path_witness :
  req_method CacheScenario.request ≠ "OPTIONS"
  ∧ pathname (req_url CacheScenario.request) ≠ "/favicon.ico"
  ∧ (pathname (req_url CacheScenario.request) ≠ "/metrics" ∨ "production" ≠ "development")
  ∧ match validateConfig CacheScenario.config with
    | Ok _ =>
        ∃ w0 response w',
          constructor CacheScenario.config ∅ = Ok w0
          ∧ handleRequest Further.hostJson CacheScenario.config CacheScenario.request w0
            = (Ok response, w')
          ∧ Worker.fetch Further.hostJson Further.stringify CacheScenario.config
              "production" ∅ CacheScenario.request
            = (Cors.addCorsHeaders response, Some w')
    | Throw error =>
        Worker.fetch Further.hostJson Further.stringify CacheScenario.config
          "production" ∅ CacheScenario.request
        = (workerError "Proxy configuration error" error, None)
    end.
Proof.
  assert (H1 : req_method CacheScenario.request ≠ "OPTIONS") by discriminate.
  assert (H2 : pathname (req_url CacheScenario.request) ≠ "/favicon.ico")
    by discriminate.
  assert (H3 : pathname (req_url CacheScenario.request) ≠ "/metrics"
               ∨ "production" ≠ "development") by (left; discriminate).
  exact (conj H1 (conj H2 (conj H3
           (worker_proxy_path Further.hostJson Further.stringify CacheScenario.config
              "production" ∅ CacheScenario.request H1 H2 H3)))).
Defined.

(** A GET of /metrics in development, for two backends. *)
Lemma metrics_endpoint_fresh_witness :
  req_method Further.metricsRequest ≠ "OPTIONS"
  ∧ pathname (req_url Further.metricsRequest) = "/metrics"
  ∧ validateConfig PassThroughScenario.config = Ok tt
  ∧ ∃ report w0,
      Worker.fetch Further.hostJson Further.stringify PassThroughScenario.config
        "development" ∅ Further.metricsRequest
      = (Cors.addCorsHeaders
           {| status := 200;
              statusText := "";
              headers := headers_set ∅ "Content-Type" "application/json";
              body := Stream (Further.stringify report) |}, Some w0)
      ∧ history w0 = []
      ∧ ∀ u, report !! u
             = if decide (u ∈ map url (backends PassThroughScenario.config))
               then Some unusedReport else None.
Proof.
  assert (H1 : req_method Further.metricsRequest ≠ "OPTIONS") by discriminate.
  assert (H2 : pathname (req_url Further.metricsRequest) = "/metrics") by reflexivity.
  assert (H3 : validateConfig PassThroughScenario.config = Ok tt) by reflexivity.
  exact (conj H1 (conj H2 (conj H3
           (metrics_endpoint_fresh Further.hostJson Further.stringify
              PassThroughScenario.config ∅ Further.metricsRequest H1 H2 H3)))).
Defined.

Lemma country_case_insensitive_witness :
  toUpperCase "jp" = toUpperCase "JP"
  ∧ getRegionalBackends [GeoScenario.A; GeoScenario.B] "jp"
    = getRegionalBackends [GeoScenario.A; GeoScenario.B] "JP".
Proof.
  assert (H1 : toUpperCase "jp" = toUpperCase "JP") by reflexivity.
  exact (conj H1 (country_case_insensitive [GeoScenario.A; GeoScenario.B] "jp" "JP" H1)).
Defined.

(** A request served by backend A on a host whose clock advances with
    every event. *)
Lemma metrics_stay_plausible_witness :
  monotoneClock Further.hostJson
  ∧ map_Forall (λ _, metricsPlausible) (metrics Further.built)
  ∧ map_Forall (λ _, metricsPlausible)
      (metrics (exec (handleRequest Further.hostJson CacheScenario.config
                        CacheScenario.request) Further.built)).
Proof.
  assert (H1 : monotoneClock Further.hostJson).
  { intros j k Hjk. unfold Further.hostJson. cbn [Date_now]. lia. }
  assert (H2 : map_Forall (λ _, metricsPlausible) (metrics Further.built)).
  { unfold Further.built. cbn [metrics]. apply map_Forall_singleton.
    unfold metricsPlausible. cbn. lia. }
  exact (conj H1 (conj H2
           (metrics_stay_plausible Further.hostJson CacheScenario.config
              CacheScenario.request Further.built H1 H2))).
Defined.

(** Two backends, two attempts each, and a network that is down: four
    requests for a GET, and one for an upload, which ends on the
    stream that was sent. *)
Lemma outage_cost_witness :
  networkDown ScoreScenario.host (typeError "fetch failed")
  ∧ 1 ≤ retryAttempts PassThroughScenario.config
  ∧ [PassThroughScenario.A; PassThroughScenario.B] ≠ []
  ∧ (∃ w', proxyRequestWithFallback ScoreScenario.host PassThroughScenario.config
             PassThroughScenario.request 0%Q
             [PassThroughScenario.A; PassThroughScenario.B] PassThroughScenario.world
           = (Throw (typeError "fetch failed"), w')
           ∧ fetchCount (history w')
             = (fetchCount (history PassThroughScenario.world) + 2 * 2)%nat)
  ∧ (∃ w', proxyRequestWithFallback ScoreScenario.host PassThroughScenario.config
             Witness.upload 0%Q
             [PassThroughScenario.A; PassThroughScenario.B] PassThroughScenario.world
           = (Throw disturbedStream, w')
           ∧ fetchCount (history w')
             = (fetchCount (history PassThroughScenario.world) + 1)%nat).
Proof.
  assert (H1 : networkDown ScoreScenario.host (typeError "fetch failed"))
    by (intros k rq; reflexivity).
  assert (H2 : 1 ≤ retryAttempts PassThroughScenario.config)
    by (vm_compute; discriminate).
  assert (H3 : [PassThroughScenario.A; PassThroughScenario.B] ≠ []) by discriminate.
  assert (H4 : sentBody PassThroughScenario.request = NoBody) by reflexivity.
  assert (H5 : sentBody Witness.upload ≠ NoBody) by discriminate.
  assert (H6 : bodyUsed (sentBody Witness.upload) (history PassThroughScenario.world)
               = false) by reflexivity.
  exact (conj H1 (conj H2 (conj H3 (conj
           (proj1 (outage_cost ScoreScenario.host PassThroughScenario.config
                     PassThroughScenario.request 0%Q
                     [PassThroughScenario.A; PassThroughScenario.B]
                     (typeError "fetch failed") PassThroughScenario.world H1 H2 H3) H4)
           (proj2 (outage_cost ScoreScenario.host PassThroughScenario.config
                     Witness.upload 0%Q
                     [PassThroughScenario.A; PassThroughScenario.B]
                     (typeError "fetch failed") PassThroughScenario.world H1 H2 H3)
              H5 H6))))).
Defined.


(** The numeral of -300 is read back as -300, not as the default 5. *)
Lemma parseNumber_numeral_witness :
  - 2 ^ 53 ≤ -300 ≤ 2 ^ 53
  ∧ parseNumber (Some (pretty (-300))) 5 = -300
  ∧ parseNumber None 5 = 5
  ∧ parseNumber (Some "") 5 = 5.
Proof.
  assert (H1 : - 2 ^ 53 ≤ -300 ≤ 2 ^ 53) by (vm_compute; split; discriminate).
  exact (conj H1 (parseNumber_numeral (-300) 5 H1)).
Defined.
